(** * calculator_app: the safe expression evaluator of [src/app.js]

    A shallow embedding of [tokenize], [toRpn], [evalRpn], [evaluate] and
    [formatNumber], with the JavaScript values they manipulate:

    - a string is its sequence of UTF-16 code units;
    - a number is an IEEE 754 binary64 value, modelled by the Standard
      Library's [spec_float] at precision 53 and maximal exponent 1024;
    - a thrown [Error] is a value of the type [error], one constructor per
      message;
    - the regular expressions of the source are values of a small regular
      expression type, run by a backtracking matcher. *)

From Stdlib Require Import ZArith NArith QArith Qround Qpower Qabs List Bool Ascii String.
From Stdlib Require Import Lia Lqa.
From Stdlib Require Import Floats.SpecFloat.
Import ListNotations.

Local Open Scope Z_scope.

(** ** Strings *)

Module JsString.

(** A UTF-16 code unit. *)
Definition char := Z.

Definition jsstring := list char.

(** The string written with the ASCII characters of [s]. *)
Definition chr (a : ascii) : char := Z.of_N (N_of_ascii a).

Definition str (s : string) : jsstring :=
  List.map chr (list_ascii_of_string s).

Definition char_eqb (a b : char) : bool := Z.eqb a b.

(** [\d] *)
Definition is_digit (c : char) : bool :=
  (Z.leb 48 c && Z.leb c 57)%bool.

(** [\.] *)
Definition is_dot (c : char) : bool := Z.eqb c 46.

(** [[\d.]], and the alternation [\d|\.] of two one-character patterns. *)
Definition is_digit_or_dot (c : char) : bool :=
  (is_digit c || is_dot c)%bool.

(** [\s]: the WhiteSpace and LineTerminator code points of ECMAScript,
    all of them in the basic plane. *)
Definition is_space (c : char) : bool :=
  (Z.leb 9 c && Z.leb c 13
   || Z.eqb c 32 || Z.eqb c 160 || Z.eqb c 5760
   || Z.leb 8192 c && Z.leb c 8202
   || Z.eqb c 8232 || Z.eqb c 8233 || Z.eqb c 8239 || Z.eqb c 8287
   || Z.eqb c 12288 || Z.eqb c 65279)%bool.

End JsString.
Import JsString.

(** ** Regular expressions

    The patterns of the source are sequences of one-character classes under
    a quantifier, with an optional end anchor.  Quantifiers are greedy and
    the matcher backtracks, as the ECMAScript matcher does. *)

Module Regex.

Inductive quant := One | Opt | Star | Plus.

Inductive atom :=
| Cls (p : char -> bool) (q : quant)
| AssertEnd.

Definition regex := list atom.

(** Greedy iteration of the class [p], then the continuation [k]. *)
Fixpoint star (p : char -> bool) (k : jsstring -> option jsstring)
         (s : jsstring) : option jsstring :=
  match s with
  | c :: s' =>
      if p c then
        match star p k s' with
        | Some r => Some r
        | None => k s
        end
      else k s
  | [] => k s
  end.

(** [match_here r s] is the rest of [s] after the match of [r] that starts
    at the head of [s], when there is one. *)
Fixpoint match_here (r : regex) (s : jsstring) : option jsstring :=
  match r with
  | [] => Some s
  | AssertEnd :: r' =>
      match s with
      | [] => match_here r' s
      | _ :: _ => None
      end
  | Cls p One :: r' =>
      match s with
      | c :: s' => if p c then match_here r' s' else None
      | [] => None
      end
  | Cls p Opt :: r' =>
      match s with
      | c :: s' =>
          if p c then
            match match_here r' s' with
            | Some x => Some x
            | None => match_here r' s
            end
          else match_here r' s
      | [] => match_here r' s
      end
  | Cls p Star :: r' => star p (match_here r') s
  | Cls p Plus :: r' =>
      match s with
      | c :: s' => if p c then star p (match_here r') s' else None
      | [] => None
      end
  end.

(** [/^r/.test(s)] *)
Definition test_anchored (r : regex) (s : jsstring) : bool :=
  match match_here r s with Some _ => true | None => false end.

(** [/r/.test(s)]: a match may start anywhere. *)
Fixpoint test (r : regex) (s : jsstring) : bool :=
  match match_here r s with
  | Some _ => true
  | None =>
      match s with
      | [] => false
      | _ :: s' => test r s'
      end
  end.

(** [s.replace(/r/, rep)]: the leftmost match is replaced. *)
Fixpoint replace (r : regex) (rep : jsstring) (s : jsstring) : jsstring :=
  match match_here r s with
  | Some rest => rep ++ rest
  | None =>
      match s with
      | [] => []
      | c :: s' => c :: replace r rep s'
      end
  end.

(** [s.replace(/r/g, rep)] for a pattern that matches no empty string:
    every match is replaced, scanning resumes after each one.  The
    recursion is on [fuel]; the length of [s] is enough. *)
Fixpoint replace_all_fuel (fuel : nat) (r : regex) (rep : jsstring)
         (s : jsstring) : jsstring :=
  match fuel with
  | O => s
  | S fuel' =>
      match s with
      | [] => []
      | c :: s' =>
          match match_here r s with
          | Some rest => rep ++ replace_all_fuel fuel' r rep rest
          | None => c :: replace_all_fuel fuel' r rep s'
          end
      end
  end.

Definition replace_all (r : regex) (rep : jsstring) (s : jsstring) :=
  replace_all_fuel (List.length s) r rep s.

End Regex.
Import Regex.

(** ** Numbers *)

Module Number.

Definition prec : Z := 53.
Definition emax : Z := 1024.

Definition float64 := spec_float.

Definition add : float64 -> float64 -> float64 := SFadd prec emax.
Definition sub : float64 -> float64 -> float64 := SFsub prec emax.
Definition mul : float64 -> float64 -> float64 := SFmul prec emax.
Definition div : float64 -> float64 -> float64 := SFdiv prec emax.

(** Unary minus. *)
Definition neg : float64 -> float64 := SFopp.

(** The literal [0]. *)
Definition zero : float64 := S754_zero false.

(** [a === b] on numbers: IEEE equality, where the two zeros are equal and
    NaN is equal to nothing. *)
Definition strict_eqb (a b : float64) : bool := SFeqb a b.

(** [Number.isFinite(n)] *)
Definition isFinite (x : float64) : bool :=
  match x with
  | S754_zero _ | S754_finite _ _ _ => true
  | S754_infinity _ | S754_nan => false
  end.

(** The Number value of the integer [z]. *)
Definition of_Z (z : Z) : float64 :=
  binary_normalize prec emax z 0 false.

(** The Number value of the rational [q]: the quotient of its numerator by
    its denominator, in lowest terms, rounded once to nearest, ties to
    even. *)
Definition of_Q (q : Q) : float64 :=
  match Qred q with
  | Qmake Z0 _ => S754_zero false
  | Qmake (Zpos n) d =>
      SFdiv prec emax (S754_finite false n 0) (S754_finite false d 0)
  | Qmake (Zneg n) d =>
      SFdiv prec emax (S754_finite true n 0) (S754_finite false d 0)
  end.

(** The rational [10^k]. *)
Definition pow10 (k : Z) : Q := Qpower (10 # 1) k.

(** The rational [n * 10^k]. *)
Definition decimal (n k : Z) : Q := (inject_Z n * pow10 k)%Q.

Definition digit_value (c : char) : Z := c - 48.

(** The integer written by the digits of [s], the characters that are not
    digits skipped, after the digits [acc]. *)
Fixpoint digits_value (acc : Z) (s : jsstring) : Z :=
  match s with
  | [] => acc
  | c :: s' =>
      if is_digit c then digits_value (10 * acc + digit_value c) s'
      else digits_value acc s'
  end.

(** The number of characters after the first decimal point of [s]. *)
Fixpoint fraction_length (s : jsstring) : nat :=
  match s with
  | [] => O
  | c :: s' => if is_dot c then List.length s' else fraction_length s'
  end.

(** [Number(raw)] for a string [raw] of the form digits, optional point,
    digits: the Number value of the mathematical value of the literal. *)
Definition of_decimal (raw : jsstring) : float64 :=
  of_Q (decimal (digits_value 0 raw) (- Z.of_nat (fraction_length raw))).

End Number.
Import Number.

(** ** Errors and results *)

Inductive error :=
| InvalidNumber                      (* "Invalid number" *)
| NumberTooLarge                     (* "Number too large" *)
| UnexpectedCharacter (ch : char)    (* "Unexpected character: ${ch}" *)
| MismatchedParentheses              (* "Mismatched parentheses" *)
| InvalidToken                       (* "Invalid token" *)
| InvalidExpression                  (* "Invalid expression" *)
| DivisionByZero                     (* "Division by zero" *)
| ResultNotFinite.                   (* "Result not finite" *)

Inductive result (A : Type) :=
| Ok (a : A)
| Err (e : error).
Arguments Ok {A} a.
Arguments Err {A} e.

Definition bind {A B} (r : result A) (f : A -> result B) : result B :=
  match r with
  | Ok a => f a
  | Err e => Err e
  end.

Notation "x <- r ;; k" := (bind r (fun x => k))
  (at level 61, r at next level, right associativity).

(** ** Tokens *)

(** The [value] of a token of type ["op"]: the four symbols the tokenizer
    reads and the two unary kinds the converter introduces. *)
Inductive opname := Add | Sub | Mul | Div | UPlus | UMinus.

(** [{type: "num", value: n}], [{type: "op", value: o}], [{type: "("}] and
    [{type: ")"}]. *)
Inductive token :=
| TNum (value : float64)
| TOp (value : opname)
| TLParen
| TRParen.

(** ** tokenize *)

(** [/\d|\./] *)
Definition re_number_start : regex := [Cls is_digit_or_dot One].

(** [/[\d.]/] *)
Definition re_number_char : regex := [Cls is_digit_or_dot One].

(** [/^\d*\.?\d+$/] *)
Definition re_number : regex :=
  [Cls is_digit Star; Cls is_dot Opt; Cls is_digit Plus; AssertEnd].

(** [/\s+/g] *)
Definition re_spaces : regex := [Cls is_space Plus].

(** [isOperator(ch)], with the token value of the operator. *)
Definition operator_of (ch : char) : option opname :=
  if char_eqb ch (chr "+") then Some Add
  else if char_eqb ch (chr "-") then Some Sub
  else if char_eqb ch (chr "*") then Some Mul
  else if char_eqb ch (chr "/") then Some Div
  else None.

Definition isOperator (ch : char) : bool :=
  match operator_of ch with Some _ => true | None => false end.

(** The inner loop [while (j < s.length && /[\d.]/.test(s[j])) j++]: the
    characters from [j] on that continue the run, and the rest. *)
Fixpoint scan_run (s : jsstring) : jsstring * jsstring :=
  match s with
  | c :: s' =>
      if test re_number_char [c] then
        let (run, rest) := scan_run s' in (c :: run, rest)
      else ([], s)
  | [] => ([], [])
  end.

(** The loop [while (i < s.length)] on [s.slice(i)], the tokens pushed so
    far in [tokens].  Every iteration consumes a character, so that the
    length of the string is enough fuel. *)
Fixpoint tokenize_loop (fuel : nat) (s : jsstring) (tokens : list token)
  : result (list token) :=
  match fuel with
  | O => Ok tokens
  | S fuel' =>
      match s with
      | [] => Ok tokens
      | ch :: s' =>
          if test re_number_start [ch] then
            let (run, rest) := scan_run s' in
            let raw := ch :: run in
            if negb (test_anchored re_number raw) then Err InvalidNumber
            else
              let n := of_decimal raw in
              if negb (isFinite n) then Err NumberTooLarge
              else tokenize_loop fuel' rest (tokens ++ [TNum n])
          else if (char_eqb ch (chr "(") || char_eqb ch (chr ")"))%bool then
            tokenize_loop fuel' s'
              (tokens ++ [if char_eqb ch (chr "(") then TLParen else TRParen])
          else
            match operator_of ch with
            | Some o => tokenize_loop fuel' s' (tokens ++ [TOp o])
            | None => Err (UnexpectedCharacter ch)
            end
      end
  end.

Definition tokenize (input : jsstring) : result (list token) :=
  let s := replace_all re_spaces [] input in
  tokenize_loop (List.length s) s [].

(** ** toRpn *)

(** The table [prec]. *)
Definition prec_of (o : opname) : Z :=
  match o with
  | UPlus | UMinus => 3
  | Mul | Div => 2
  | Add | Sub => 1
  end.

(** [rightAssoc.has(o)] *)
Definition rightAssoc (o : opname) : bool :=
  match o with
  | UPlus | UMinus => true
  | _ => false
  end.

(** The state of the converter: the array [out], in order, and the stack
    [ops], its top first. *)
Definition rpn_state := (list token * list token)%type.

(** The condition under which [pushOp] moves the top [b] of the stack to
    the output before it pushes [a]. *)
Definition pops (a b : opname) : bool :=
  (rightAssoc a && (prec_of a <? prec_of b)
   || negb (rightAssoc a) && (prec_of a <=? prec_of b))%bool.

(** The loop [while (ops.length)] of [pushOp]. *)
Fixpoint pushOp_loop (a : opname) (out ops : list token) : rpn_state :=
  match ops with
  | [] => (out, [])
  | top :: ops' =>
      match top with
      | TOp b => if pops a b then pushOp_loop a (out ++ [top]) ops' else (out, ops)
      | _ => (out, ops)
      end
  end.

Definition pushOp (a : opname) (st : rpn_state) : rpn_state :=
  let (out, ops) := pushOp_loop a (fst st) (snd st) in
  (out, TOp a :: ops).

(** The loop [while (ops.length && ops[ops.length - 1].type !== "(")] run at
    a closing parenthesis. *)
Fixpoint pop_to_paren (out ops : list token) : rpn_state :=
  match ops with
  | [] => (out, [])
  | TLParen :: _ => (out, ops)
  | top :: ops' => pop_to_paren (out ++ [top]) ops'
  end.

(** [tokens[idx - 1]], which is [undefined] at [idx = 0]. *)
Definition prev_token (tokens : list token) (idx : nat) : option token :=
  match idx with
  | O => None
  | S i => nth_error tokens i
  end.

(** [!prev || prev.type === "op" || prev.type === "("] *)
Definition unary_position (prev : option token) : bool :=
  match prev with
  | None => true
  | Some (TOp _) => true
  | Some TLParen => true
  | Some _ => false
  end.

(** One iteration of [for (let idx = 0; idx < tokens.length; idx++)]. *)
Definition toRpn_step (tokens : list token) (idx : nat) (st : rpn_state)
  : result rpn_state :=
  match nth_error tokens idx with
  | None => Ok st
  | Some t =>
      match t with
      | TNum _ => Ok (fst st ++ [t], snd st)
      | TLParen => Ok (fst st, t :: snd st)
      | TRParen =>
          let (out, ops) := pop_to_paren (fst st) (snd st) in
          match ops with
          | [] => Err MismatchedParentheses
          | _ :: ops' => Ok (out, ops')
          end
      | TOp v =>
          let prev := prev_token tokens idx in
          let unary := unary_position prev in
          match v with
          | Add => Ok (pushOp (if unary then UPlus else Add) st)
          | Sub => Ok (pushOp (if unary then UMinus else Sub) st)
          | _ => Ok (pushOp v st)
          end
      end
  end.

(** The iterations [idx], [idx + 1], ..., [idx + n - 1] of the loop. *)
Fixpoint toRpn_for (tokens : list token) (n idx : nat) (st : rpn_state)
  : result rpn_state :=
  match n with
  | O => Ok st
  | S n' =>
      st' <- toRpn_step tokens idx st ;;
      toRpn_for tokens n' (S idx) st'
  end.

(** The final loop [while (ops.length)]. *)
Fixpoint drain (out ops : list token) : result (list token) :=
  match ops with
  | [] => Ok out
  | TLParen :: _ => Err MismatchedParentheses
  | t :: ops' => drain (out ++ [t]) ops'
  end.

Definition toRpn (tokens : list token) : result (list token) :=
  st <- toRpn_for tokens (List.length tokens) 0 ([], []) ;;
  drain (fst st) (snd st).

(** ** evalRpn *)

(** One iteration of [for (const t of rpn)] on the stack [st], its top
    first. *)
Definition evalRpn_step (t : token) (st : list float64)
  : result (list float64) :=
  match t with
  | TNum v => Ok (v :: st)
  | TOp UPlus =>
      match st with
      | a :: st' => Ok (a :: st')
      | [] => Err InvalidExpression
      end
  | TOp UMinus =>
      match st with
      | a :: st' => Ok (neg a :: st')
      | [] => Err InvalidExpression
      end
  | TOp o =>
      match st with
      | b :: a :: st' =>
          v <- match o with
               | Add => Ok (add a b)
               | Sub => Ok (sub a b)
               | Mul => Ok (mul a b)
               | _ => if strict_eqb b zero then Err DivisionByZero
                      else Ok (div a b)
               end ;;
          if negb (isFinite v) then Err ResultNotFinite else Ok (v :: st')
      | _ => Err InvalidExpression
      end
  | TLParen | TRParen => Err InvalidToken
  end.

(** The loop of [evalRpn] from the stack [st]. *)
Fixpoint evalRpn_loop (rpn : list token) (st : list float64)
  : result (list float64) :=
  match rpn with
  | [] => Ok st
  | t :: rpn' => st' <- evalRpn_step t st ;; evalRpn_loop rpn' st'
  end.

Definition evalRpn (rpn : list token) : result float64 :=
  st <- evalRpn_loop rpn [] ;;
  match st with
  | [v] => Ok v
  | _ => Err InvalidExpression
  end.

(** ** evaluate *)

Definition evaluate (input : jsstring) : result float64 :=
  tokens <- tokenize input ;;
  match tokens with
  | [] => Ok zero
  | _ => rpn <- toRpn tokens ;; evalRpn rpn
  end.


(** ** Number formatting

    [formatNumber] calls [toExponential], [toPrecision], [String] and the
    unary [+] of the language.  They are modelled after their definitions in
    the ECMAScript specification, on the exact rational value of the
    number. *)

Module Format.

Definition zeros (k : nat) : jsstring := repeat (chr "0") k.

(** The decimal digits of [n], the most significant first, before [acc]. *)
Fixpoint digits_fuel (fuel : nat) (n : Z) (acc : jsstring) : jsstring :=
  match fuel with
  | O => acc
  | S fuel' =>
      let acc' := (48 + n mod 10) :: acc in
      if n / 10 =? 0 then acc' else digits_fuel fuel' (n / 10) acc'
  end.

(** The decimal representation of the non-negative integer [n], without
    leading zeros. *)
Definition digits (n : Z) : jsstring :=
  digits_fuel (S (Z.to_nat (Z.log2 n))) n [].

(** The value [m * 2^e] of a finite number, sign apart. *)
Definition magnitude (m : positive) (e : Z) : Q :=
  (inject_Z (Zpos m) * Qpower (2 # 1) e)%Q.

Fixpoint ilog10_up (fuel : nat) (q : Q) (k : Z) : Z :=
  match fuel with
  | O => k
  | S fuel' =>
      if Qle_bool (10 # 1) q then ilog10_up fuel' (q / (10 # 1))%Q (k + 1)
      else k
  end.

Fixpoint ilog10_down (fuel : nat) (q : Q) (k : Z) : Z :=
  match fuel with
  | O => k
  | S fuel' =>
      if Qle_bool 1 q then k else ilog10_down fuel' (q * (10 # 1))%Q (k - 1)
  end.

(** The integer [e] with [10^e <= q < 10^(e+1)], for a positive [q]: the
    tens are counted, up from 1 or down from 1; the number of bits of the
    numerator, or of the denominator, bounds the count. *)
Definition ilog10 (q : Q) : Z :=
  if Qle_bool 1 q then
    ilog10_up (S (Z.to_nat (Z.log2 (Qnum q)))) q 0
  else
    ilog10_down (S (S (Z.to_nat (Z.log2 (Zpos (Qden q)))))) q 0.

(** The integer part of [q * 10^j]. *)
Definition scaled_floor (q : Q) (j : Z) : Z :=
  Qfloor (q * pow10 j)%Q.

(** The integer nearest to [q * 10^j], the larger one of two. *)
Definition scaled_round (q : Q) (j : Z) : Z :=
  Qfloor (q * pow10 j + (1 # 2))%Q.

(** The integers [e] and [n] with [10^(p-1) <= n < 10^p] for which
    [n * 10^(e-p+1)] is as close to [q] as possible, the larger value of
    two. *)
Definition scientific (p : Z) (q : Q) : Z * Z :=
  let e0 := ilog10 q in
  let n := scaled_round q (p - 1 - e0) in
  if n =? 10 ^ p then (e0 + 1, 10 ^ (p - 1)) else (e0, n).

Definition sign_part (s : bool) : jsstring :=
  if s then [chr "-"] else [].

(** ["e"], the sign of the exponent and its digits. *)
Definition exponent_part (e : Z) : jsstring :=
  chr "e" :: (if 0 <=? e then chr "+" else chr "-") :: digits (Z.abs e).

(** A point after the first digit, when more digits follow. *)
Definition with_point (m : jsstring) : jsstring :=
  match m with
  | a :: (_ :: _) as b => a :: chr "." :: b
  | _ => m
  end.

Definition same_float (a b : float64) : bool :=
  match a, b with
  | S754_zero s1, S754_zero s2 => Bool.eqb s1 s2
  | S754_infinity s1, S754_infinity s2 => Bool.eqb s1 s2
  | S754_finite s1 m1 e1, S754_finite s2 m2 e2 =>
      (Bool.eqb s1 s2 && Pos.eqb m1 m2 && Z.eqb e1 e2)%bool
  | _, _ => false
  end.

(** [s] has [k] digits and [s * 10^(n-k)] has the Number value [x]. *)
Definition represents (x : float64) (k n s : Z) : bool :=
  ((10 ^ (k - 1) <=? s) && (s <? 10 ^ k)
   && same_float (of_Q (decimal s (n - k))) x)%bool.

(** The [k]-digit integers to try for [q], where [10^e0 <= q < 10^(e0+1)]:
    the two around [q / 10^(e0+1-k)], the nearer one first, and the power
    of ten above. *)
Definition candidates (q : Q) (e0 k : Z) : list (Z * Z) :=
  let n := e0 + 1 in
  let lo := scaled_floor q (k - n) in
  (if scaled_round q (k - n) =? lo then [(n, lo); (n, lo + 1)]
   else [(n, lo + 1); (n, lo)])
  ++ [(n + 1, 10 ^ (k - 1))].

Fixpoint shortest_from (fuel : nat) (k : Z) (x : float64) (q : Q) (e0 : Z)
  : option (Z * Z * Z) :=
  match fuel with
  | O => None
  | S fuel' =>
      match find (fun c => represents x k (fst c) (snd c))
                 (candidates q e0 k) with
      | Some (n, s) => Some (n, k, s)
      | None => shortest_from fuel' (k + 1) x q e0
      end
  end.

(** The integers [n], [k] and [s] of Number::toString, for the positive
    number [x] of value [q]: [k] as small as possible, at most 17, and [s]
    the [k]-digit integer nearest to [q] with that property. *)
Definition shortest (x : float64) (q : Q) : Z * Z * Z :=
  let e0 := ilog10 q in
  match shortest_from 17 1 x q e0 with
  | Some r => r
  | None => (e0 + 1, 17, scaled_round q (16 - e0))
  end.

Definition render (n k s : Z) : jsstring :=
  let ds := digits s in
  if ((-5 <=? n) && (n <=? 21))%bool then
    if k <=? n then ds ++ zeros (Z.to_nat (n - k))
    else if 0 <? n then
      firstn (Z.to_nat n) ds ++ chr "." :: skipn (Z.to_nat n) ds
    else chr "0" :: chr "." :: zeros (Z.to_nat (- n)) ++ ds
  else with_point ds ++ exponent_part (n - 1).

(** [String(x)], that is Number::toString in radix 10. *)
Definition toString (x : float64) : jsstring :=
  match x with
  | S754_nan => str "NaN"
  | S754_zero _ => str "0"
  | S754_infinity s => sign_part s ++ str "Infinity"
  | S754_finite s m e =>
      let '(n, k, d) := shortest (S754_finite false m e) (magnitude m e) in
      sign_part s ++ render n k d
  end.

(** [x.toExponential(f)] *)
Definition toExponential (f : nat) (x : float64) : jsstring :=
  match x with
  | S754_nan | S754_infinity _ => toString x
  | S754_zero _ => with_point (zeros (S f)) ++ exponent_part 0
  | S754_finite s m e =>
      let (ex, n) := scientific (Z.of_nat (S f)) (magnitude m e) in
      sign_part s ++ with_point (digits n) ++ exponent_part ex
  end.

(** The fixed notation of [toPrecision]: the digits [m] of a [p]-digit
    integer with the decimal exponent [e]. *)
Definition fixed (p e : Z) (m : jsstring) : jsstring :=
  if e =? p - 1 then m
  else if 0 <=? e then
    firstn (Z.to_nat (e + 1)) m ++ chr "." :: skipn (Z.to_nat (e + 1)) m
  else chr "0" :: chr "." :: zeros (Z.to_nat (- (e + 1))) ++ m.

(** [x.toPrecision(p)] *)
Definition toPrecision (p : nat) (x : float64) : jsstring :=
  match x with
  | S754_nan | S754_infinity _ => toString x
  | S754_zero _ => fixed (Z.of_nat p) 0 (zeros p)
  | S754_finite s m e =>
      let (ex, n) := scientific (Z.of_nat p) (magnitude m e) in
      if ((ex <? -6) || (Z.of_nat p <=? ex))%bool then
        sign_part s ++ with_point (digits n) ++ exponent_part ex
      else sign_part s ++ fixed (Z.of_nat p) ex (digits n)
  end.

Fixpoint span_digits (s : jsstring) : jsstring * jsstring :=
  match s with
  | c :: s' =>
      if is_digit c then let (d, r) := span_digits s' in (c :: d, r)
      else ([], s)
  | [] => ([], [])
  end.

Definition parse_sign (s : jsstring) : bool * jsstring :=
  match s with
  | c :: s' =>
      if char_eqb c (chr "-") then (true, s')
      else if char_eqb c (chr "+") then (false, s')
      else (false, s)
  | [] => (false, [])
  end.

(** The exponent of a decimal literal: nothing, or [e] or [E], an optional
    sign and digits, up to the end of the string. *)
Definition parse_exponent (s : jsstring) : option Z :=
  match s with
  | [] => Some 0
  | c :: s' =>
      if (char_eqb c (chr "e") || char_eqb c (chr "E"))%bool then
        let (neg, s'') := parse_sign s' in
        let (ds, rest) := span_digits s'' in
        match ds, rest with
        | _ :: _, [] =>
            Some (if neg then - digits_value 0 ds else digits_value 0 ds)
        | _, _ => None
        end
      else None
  end.

Fixpoint string_eqb (a b : jsstring) : bool :=
  match a, b with
  | [], [] => true
  | x :: a', y :: b' => (char_eqb x y && string_eqb a' b')%bool
  | _, _ => false
  end.

(** The unary [+] on a string, StringToNumber, for the strings that
    [toPrecision] returns: a signed decimal literal with an optional
    exponent, or [Infinity].  The empty string is 0; [NaN] stands for any
    other string (the whitespace and the hexadecimal, octal and binary
    literals of StringToNumber do not occur in them). *)
Definition StringToNumber (s : jsstring) : float64 :=
  match s with
  | [] => zero
  | _ :: _ =>
      let (neg, s1) := parse_sign s in
      if string_eqb s1 (str "Infinity") then S754_infinity neg
      else
        let (ip, s2) := span_digits s1 in
        let (fp, s3) :=
          match s2 with
          | c :: s2' => if is_dot c then span_digits s2' else ([], s2)
          | [] => ([], [])
          end in
        match ip ++ fp with
        | [] => S754_nan
        | ds =>
            match parse_exponent s3 with
            | Some ex =>
                let v := of_Q (decimal (digits_value 0 ds)
                                       (ex - Z.of_nat (List.length fp))) in
                if neg then Number.neg v else v
            | None => S754_nan
            end
        end
  end.

End Format.
Import Format.

(** ** formatNumber *)

Definition is_zero_digit (c : char) : bool := char_eqb c (chr "0").
Definition is_e (c : char) : bool := char_eqb c (chr "e").

(** [/\.?0+e/] *)
Definition re_zeros_e : regex :=
  [Cls is_dot Opt; Cls is_zero_digit Plus; Cls is_e One].

(** [/\.0+$/] *)
Definition re_point_zeros : regex :=
  [Cls is_dot One; Cls is_zero_digit Plus; AssertEnd].

(** The literals [1e12] and [1e-6]. *)
Definition lit_1e12 : float64 := of_Q (decimal 1 12).
Definition lit_1e_6 : float64 := of_Q (decimal 1 (-6)).

(** [abs !== 0 && (abs >= 1e12 || abs < 1e-6)] for [abs = Math.abs(n)]. *)
Definition exponential_display (n : float64) : bool :=
  let abs := SFabs n in
  (negb (strict_eqb abs zero)
   && (SFleb lit_1e12 abs || SFltb abs lit_1e_6))%bool.

Definition formatNumber (n : float64) : jsstring :=
  if negb (isFinite n) then toString n
  else if exponential_display n then
    replace re_zeros_e (str "e") (toExponential 10 n)
  else
    replace re_point_zeros [] (toString (StringToNumber (toPrecision 12 n))).
(** ** Auxiliary notions of the statements *)

Definition is_some {A} (o : option A) : bool :=
  match o with Some _ => true | None => false end.

(** The number of decimal points of a run. *)
Definition count_dots (raw : jsstring) : nat :=
  List.length (List.filter is_dot raw).

(** The last character of a run is a digit. *)
Definition ends_with_digit (raw : jsstring) : bool :=
  is_digit (List.last raw (chr ".")).

Definition nonempty {A} (l : list A) : bool :=
  match l with [] => false | _ :: _ => true end.

Fixpoint drop_while (p : char -> bool) (s : jsstring) : jsstring :=
  match s with
  | c :: s' => if p c then drop_while p s' else s
  | [] => []
  end.

Definition not_space (c : char) : bool := negb (is_space c).

(** The first character after a maximal run does not continue it. *)
Definition run_ends (rest : jsstring) : Prop :=
  match rest with
  | [] => True
  | c :: _ => is_digit_or_dot c = false
  end.


(** A Number token holds a finite value. *)
Definition token_finite (t : token) : bool :=
  match t with
  | TNum v => isFinite v
  | _ => true
  end.

Definition is_lparen (t : token) : bool :=
  match t with TLParen => true | _ => false end.

(** The operator token at [idx] is the first token, or the token before it
    is an operator or an opening parenthesis. *)
Definition unary_context (tokens : list token) (idx : nat) : Prop :=
  idx = O \/
  exists p, nth_error tokens (idx - 1) = Some p /\
            (p = TLParen \/ exists o, p = TOp o).

(** The unary kind of a sign. *)
Definition to_unary (o : opname) : opname :=
  match o with
  | Add => UPlus
  | Sub => UMinus
  | _ => o
  end.

Definition is_binary (o : opname) : bool :=
  match o with
  | Add | Sub | Mul | Div => true
  | UPlus | UMinus => false
  end.

(** The value the [switch] of [evalRpn] computes for a binary operator. *)
Definition binop (o : opname) (a b : float64) : float64 :=
  match o with
  | Add => add a b
  | Sub => sub a b
  | Mul => mul a b
  | _ => div a b
  end.

(** [st] is the operand stack at some point of the evaluation of [input]:
    after the tokens [pre] of the postfix sequence. *)
Definition stack_during (input : jsstring) (st : list float64) : Prop :=
  exists tokens rpn pre post,
    tokenize input = Ok tokens /\ tokens <> [] /\
    toRpn tokens = Ok rpn /\ rpn = pre ++ post /\
    evalRpn_loop pre [] = Ok st.

(** The tokens of a state of the converter hold finite values. *)
Definition state_finite (st : rpn_state) : bool :=
  (forallb token_finite (fst st) && forallb token_finite (snd st))%bool.

(** A run of digits and points with at most one point and a digit at its
    end. *)
Definition valid_run (raw : jsstring) : bool :=
  (Nat.leb (count_dots raw) 1 && ends_with_digit raw)%bool.

(** A string without the letter [e]. *)
Definition no_e (s : jsstring) : bool := forallb (fun c => negb (is_e c)) s.

(** The continuations of [/\.?0+e/] after the optional point and after the
    zeros. *)
Definition zeros_e : jsstring -> option jsstring :=
  match_here [Cls is_zero_digit Plus; Cls is_e One].
Definition only_e : jsstring -> option jsstring :=
  match_here [Cls is_e One].

(** The digits of [s] do not end with a zero. *)
Definition no_trailing_zero (s : jsstring) : Prop :=
  s = [] \/ is_zero_digit (last s (chr "0")) = false.


(** The value [v], or its opposite. *)
Definition signed (neg : bool) (v : float64) : float64 :=
  if neg then Number.neg v else v.


(** The continuation of [/\.0+$/] after the zeros. *)
Definition end_only : jsstring -> option jsstring := match_here [AssertEnd].


(** The rational value of a finite number; the other numbers count for 0. *)
Definition value_of (x : float64) : Q :=
  match x with
  | S754_finite s m e => if s then (- magnitude m e)%Q else magnitude m e
  | _ => 0%Q
  end.

(** [y] is within a relative distance of [10^-11] from [v]. *)
Definition close_to (y v : float64) : Prop :=
  (Qabs (value_of y - value_of v) <= (1 # 10 ^ 11) * Qabs (value_of v))%Q.

(** ** The expressions the evaluator reads

    The grammar behind the converter, to state what [evaluate] computes:
    a sum of terms, a term a product of factors, a factor a number, a
    parenthesised expression or a signed factor. *)

Inductive expr :=
| Lit (raw : jsstring)
| Group (e : expr)
| Sign (minus : bool) (e : expr)
| Bin (o : opname) (a b : expr).

(** The character of an operator. *)
Definition symbol (o : opname) : char :=
  match o with
  | Add | UPlus => chr "+"
  | Sub | UMinus => chr "-"
  | Mul => chr "*"
  | Div => chr "/"
  end.

(** The text of an expression, without any space. *)
Fixpoint show (e : expr) : jsstring :=
  match e with
  | Lit raw => raw
  | Group e' => chr "(" :: show e' ++ [chr ")"]
  | Sign minus e' => symbol (if minus then Sub else Add) :: show e'
  | Bin o a b => show a ++ symbol o :: show b
  end.

(** The tokens of the text of an expression. *)
Fixpoint tokens_of (e : expr) : list token :=
  match e with
  | Lit raw => [TNum (of_decimal raw)]
  | Group e' => TLParen :: tokens_of e' ++ [TRParen]
  | Sign minus e' => TOp (if minus then Sub else Add) :: tokens_of e'
  | Bin o a b => tokens_of a ++ TOp o :: tokens_of b
  end.

(** The postfix form of an expression: the operands of an operator, from
    left to right, and then the operator; a sign as its unary kind. *)
Fixpoint postfix (e : expr) : list token :=
  match e with
  | Lit raw => [TNum (of_decimal raw)]
  | Group e' => postfix e'
  | Sign minus e' => postfix e' ++ [TOp (if minus then UMinus else UPlus)]
  | Bin o a b => postfix a ++ postfix b ++ [TOp o]
  end.

(** The level of an expression: that of its operator in the table [prec],
    and 3 for a number, a parenthesised and a signed expression. *)
Definition level (e : expr) : Z :=
  match e with
  | Bin o _ _ => prec_of o
  | _ => 3
  end.

(** The expression is how the grammar reads its own text: the operator
    between two expressions is one of [+ - * /], its left operand is of its
    level at least, its right operand of a higher level, and the operand of
    a sign is a number, a parenthesised or a signed expression. *)
Fixpoint grammatical (e : expr) : bool :=
  match e with
  | Lit _ => true
  | Group e' => grammatical e'
  | Sign _ e' => (grammatical e' && (level e' =? 3))%bool
  | Bin o a b =>
      (is_binary o && grammatical a && grammatical b
       && (prec_of o <=? level a) && (prec_of o <? level b))%bool
  end.

(** Every literal of the expression is a run the tokenizer accepts, of a
    finite value. *)
Fixpoint literals_valid (e : expr) : bool :=
  match e with
  | Lit raw =>
      (nonempty raw && forallb is_digit_or_dot raw && valid_run raw
       && isFinite (of_decimal raw))%bool
  | Group e' | Sign _ e' => literals_valid e'
  | Bin _ a b => (literals_valid a && literals_valid b)%bool
  end.

(** The value of an expression: the operands of an operator from left to
    right, then the operator, with the two checks of [evalRpn] on a binary
    operator. *)
Fixpoint eval (e : expr) : result float64 :=
  match e with
  | Lit raw => Ok (of_decimal raw)
  | Group e' => eval e'
  | Sign minus e' => v <- eval e' ;; Ok (if minus then neg v else v)
  | Bin o a b =>
      x <- eval a ;;
      y <- eval b ;;
      if (match o with Div => strict_eqb y zero | _ => false end)
      then Err DivisionByZero
      else if isFinite (binop o x y) then Ok (binop o x y)
           else Err ResultNotFinite
  end.

(** ** Auxiliary notions of the converter *)

(** One iteration of the loop of [toRpn] on the token [t], given the token
    [prev] before it. *)
Definition toRpn_token (prev : option token) (t : token) (st : rpn_state)
  : result rpn_state :=
  match t with
  | TNum _ => Ok (fst st ++ [t], snd st)
  | TLParen => Ok (fst st, t :: snd st)
  | TRParen =>
      let (out, ops) := pop_to_paren (fst st) (snd st) in
      match ops with
      | [] => Err MismatchedParentheses
      | _ :: ops' => Ok (out, ops')
      end
  | TOp v =>
      let unary := unary_position prev in
      match v with
      | Add => Ok (pushOp (if unary then UPlus else Add) st)
      | Sub => Ok (pushOp (if unary then UMinus else Sub) st)
      | _ => Ok (pushOp v st)
      end
  end.

(** The loop of [toRpn] on the tokens [ts] that follow [prev]. *)
Fixpoint toRpn_run (prev : option token) (ts : list token) (st : rpn_state)
  : result rpn_state :=
  match ts with
  | [] => Ok st
  | t :: ts' => st' <- toRpn_token prev t st ;; toRpn_run (Some t) ts' st'
  end.

(** The last token of [ts], or [prev] when there is none. *)
Definition last_token (prev : option token) (ts : list token) : option token :=
  match ts with
  | [] => prev
  | t :: ts' => Some (last ts' t)
  end.

(** The operators of level [p] at least move from the top of the stack to
    the output. *)
Fixpoint flush (p : Z) (out ops : list token) : rpn_state :=
  match ops with
  | TOp b :: ops' =>
      if p <=? prec_of b then flush p (out ++ [TOp b]) ops' else (out, ops)
  | _ => (out, ops)
  end.

(** The top of the stack is not an operator of level [p] or more. *)
Definition top_below (p : Z) (ops : list token) : bool :=
  match ops with
  | TOp b :: _ => prec_of b <? p
  | _ => true
  end.

Definition is_num (t : token) : bool :=
  match t with TNum _ => true | _ => false end.

Definition is_paren (t : token) : bool :=
  match t with TLParen | TRParen => true | _ => false end.

Definition is_op (t : token) : bool :=
  match t with TOp _ => true | _ => false end.

Definition is_binary_op (t : token) : bool :=
  match t with TOp o => is_binary o | _ => false end.

(** The scan of [s] from its first character, after the tokens [acc]. *)
Definition tokens_from (s : jsstring) (acc : list token)
  : result (list token) :=
  tokenize_loop (List.length s) s acc.

(** The characters of the tokens: digits, the point, the four operators
    and the two parentheses. *)
Definition token_char (c : char) : bool :=
  (is_digit_or_dot c || isOperator c
   || char_eqb c (chr "(") || char_eqb c (chr ")"))%bool.

(** The characters the tokenizer reads: those of the tokens and white
    space. *)
Definition in_alphabet (c : char) : bool :=
  (token_char c || is_space c)%bool.

(** No two tokens in a row are numbers. *)
Fixpoint numbers_apart (ts : list token) : bool :=
  match ts with
  | TNum _ :: ((TNum _ :: _) as ts') => false
  | _ :: ts' => numbers_apart ts'
  | [] => true
  end.

(** The state of the converter after the tokens [seen]: no parenthesis in
    the output, the numbers of [seen] in the output in their order, only
    operators and opening parentheses on the stack, and as many operators
    in the two as in [seen]. *)
Definition keeps (seen : list token) (st : rpn_state) : Prop :=
  existsb is_paren (fst st) = false /\
  filter is_num (fst st) = filter is_num seen /\
  forallb (fun t => is_op t || is_lparen t)%bool (snd st) = true /\
  (List.length (filter is_op (fst st)) + List.length (filter is_op (snd st))
   = List.length (filter is_op seen))%nat.


(** The expression [2*-(3+4.5)/.5-1]. *)
Definition sample : expr :=
  Bin Sub
      (Bin Div
           (Bin Mul (Lit (str "2"))
                (Sign true (Group (Bin Add (Lit (str "3")) (Lit (str "4.5"))))))
           (Lit (str ".5")))
      (Lit (str "1")).

(** ** Regular expressions with groups

    The pattern of [toggleSign] has capturing groups, a lazy quantifier and
    a negative lookahead.  A pattern is matched by backtracking: every
    pattern takes the rest of the string and the groups captured so far, and
    gives them to its continuation; the first choice whose continuation
    succeeds is the match. *)

Module Pattern.

Inductive pattern :=
| PChr (p : char -> bool)            (* one character of a class *)
| PSeq (a b : pattern)               (* [ab] *)
| POpt (a : pattern)                 (* [a?], greedy *)
| PStar (p : char -> bool)           (* [c*] for a class [c], greedy *)
| PPlus (p : char -> bool)           (* [c+] for a class [c], greedy *)
| PLazy (p : char -> bool)           (* [c*?] for a class [c] *)
| PGroup (i : nat) (a : pattern)     (* the capturing group number [i] *)
| PNotAhead (a : pattern).           (* [(?!a)] *)

(** The groups captured: the text of group [i], if it took part. *)
Definition captures := nat -> option jsstring.

Definition no_capture : captures := fun _ => None.

Definition capture (i : nat) (s : jsstring) (c : captures) : captures :=
  fun j => if Nat.eqb j i then Some s else c j.

Section Matcher.

Variable k : jsstring -> captures -> option captures.

(** [c*] then [k], the longest run first. *)
Fixpoint greedy_run (p : char -> bool) (s : jsstring) (caps : captures)
  : option captures :=
  match s with
  | c :: s' =>
      if p c then
        match greedy_run p s' caps with
        | Some r => Some r
        | None => k s caps
        end
      else k s caps
  | [] => k [] caps
  end.

(** [c*?] then [k], the shortest run first. *)
Fixpoint lazy_run (p : char -> bool) (s : jsstring) (caps : captures)
  : option captures :=
  match k s caps with
  | Some r => Some r
  | None =>
      match s with
      | c :: s' => if p c then lazy_run p s' caps else None
      | [] => None
      end
  end.

End Matcher.

Fixpoint match_pattern (r : pattern) (s : jsstring) (caps : captures)
         (k : jsstring -> captures -> option captures) : option captures :=
  match r with
  | PChr p =>
      match s with
      | c :: s' => if p c then k s' caps else None
      | [] => None
      end
  | PSeq a b =>
      match_pattern a s caps (fun s' caps' => match_pattern b s' caps' k)
  | POpt a =>
      match match_pattern a s caps k with
      | Some r => Some r
      | None => k s caps
      end
  | PStar p => greedy_run k p s caps
  | PPlus p =>
      match s with
      | c :: s' => if p c then greedy_run k p s' caps else None
      | [] => None
      end
  | PLazy p => lazy_run k p s caps
  | PGroup i a =>
      match_pattern a s caps
        (fun s' caps' =>
           k s' (capture i (firstn (List.length s - List.length s') s) caps'))
  | PNotAhead a =>
      match match_pattern a s caps (fun _ caps' => Some caps') with
      | Some _ => None
      | None => k s caps
      end
  end.

(** [s.match(r)] for a pattern without the flag [g]: the first position of
    [s] at which the pattern matches, and the groups of the match. *)
Fixpoint exec (r : pattern) (s : jsstring) : option captures :=
  match match_pattern r s no_capture (fun _ caps => Some caps) with
  | Some caps => Some caps
  | None =>
      match s with
      | _ :: s' => exec r s'
      | [] => None
      end
  end.

End Pattern.

(** ** The calculator

    The state of the page: the variables [expression] and [lastResult], and
    what the three elements that the functions write show.  The history,
    kept in [localStorage], is not part of it. *)

Definition MAX_EXPR_LEN : nat := 240.

Record calculator := {
  expression : jsstring;        (* the variable [expression] *)
  lastResult : float64;         (* the variable [lastResult] *)
  expression_text : jsstring;   (* [expressionEl.textContent] *)
  result_text : jsstring;       (* [resultEl.textContent] *)
  result_error : bool;          (* the class [error] of [resultEl] *)
  status_text : jsstring        (* [statusEl.textContent] *)
}.

(** A value given to [setResult]: a number, or a string. *)
Inductive jsvalue :=
| VNum (n : float64)
| VStr (s : jsstring).

(** [String(value)] *)
Definition String_of (value : jsvalue) : jsstring :=
  match value with
  | VNum n => toString n
  | VStr s => s
  end.

(** [formatNumber(value)] on any value: a value that is not a number is
    returned as a string. *)
Definition format_value (value : jsvalue) : jsstring :=
  match value with
  | VNum n => formatNumber n
  | VStr s => s
  end.

Definition is_empty (s : jsstring) : bool :=
  match s with [] => true | _ :: _ => false end.

(** [s.trim()] *)
Definition trim (s : jsstring) : jsstring :=
  rev (drop_while is_space (rev (drop_while is_space s))).

(** [s.slice(-1)] *)
Definition slice_last (s : jsstring) : jsstring :=
  match s with
  | [] => []
  | c :: s' => [last s' c]
  end.

(** [s.split(/[c]/)] for a class [c] of characters. *)
Fixpoint split (p : char -> bool) (s : jsstring) : list jsstring :=
  match s with
  | [] => [[]]
  | c :: s' =>
      if p c then [] :: split p s'
      else
        match split p s' with
        | piece :: pieces => (c :: piece) :: pieces
        | [] => [[c]]
        end
  end.

(** [[\+\-\*\/\(\)]] *)
Definition is_separator (c : char) : bool :=
  (char_eqb c (chr "+") || char_eqb c (chr "-") || char_eqb c (chr "*")
   || char_eqb c (chr "/") || char_eqb c (chr "(") || char_eqb c (chr ")"))%bool.

(** [/\d/] *)
Definition re_digit : regex := [Cls is_digit One].

(** [isOperator(v)] for a string [v] of any length. *)
Definition isOperator_string (v : jsstring) : bool :=
  match v with
  | [c] => isOperator c
  | _ => false
  end.

Definition setStatus (msg : jsstring) (c : calculator) : calculator :=
  {| expression := expression c;
     lastResult := lastResult c;
     expression_text := expression_text c;
     result_text := result_text c;
     result_error := result_error c;
     status_text := msg |}.

Definition setResult (value : jsvalue) (isError : bool) (c : calculator)
  : calculator :=
  {| expression := expression c;
     lastResult := lastResult c;
     expression_text := expression_text c;
     result_text := if isError then String_of value else format_value value;
     result_error := isError;
     status_text := status_text c |}.

Definition set_lastResult (value : float64) (c : calculator) : calculator :=
  {| expression := expression c;
     lastResult := value;
     expression_text := expression_text c;
     result_text := result_text c;
     result_error := result_error c;
     status_text := status_text c |}.

Definition preview (c : calculator) : calculator :=
  if is_empty (trim (expression c)) then setResult (VNum zero) false c
  else
    match evaluate (expression c) with
    | Ok value => setResult (VNum value) false (set_lastResult value c)
    | Err _ => setResult (VNum (lastResult c)) false c
    end.

Definition setExpression (next : jsstring) (c : calculator) : calculator :=
  preview
    (setStatus []
       {| expression := firstn MAX_EXPR_LEN next;
          lastResult := lastResult c;
          expression_text := firstn MAX_EXPR_LEN next;
          result_text := result_text c;
          result_error := result_error c;
          status_text := status_text c |}).

Definition appendValue (v : jsstring) (c : calculator) : calculator :=
  if is_empty v then c
  else if (MAX_EXPR_LEN <=? List.length (expression c))%nat then c
  else
    let last := slice_last (expression c) in
    if (isOperator_string v
        && (is_empty (expression c) && negb (string_eqb v (str "-"))))%bool
    then c
    else if (isOperator_string v && isOperator_string last)%bool
    then setExpression (removelast (expression c) ++ v) c
    else
      let seg := List.last (split is_separator (expression c)) [] in
      if (string_eqb v (str ".") && existsb is_dot seg)%bool then c
      else if (string_eqb v (str ".") && is_empty seg)%bool
      then setExpression (expression c ++ str "0.") c
      else if string_eqb v (str "(") then
        if (negb (is_empty last)
            && (test re_digit last || string_eqb last (str ")")))%bool
        then setExpression (expression c ++ str "*(") c
        else setExpression (expression c ++ str "(") c
      else if test re_digit v then
        if string_eqb last (str ")")
        then setExpression (expression c ++ str "*" ++ v) c
        else setExpression (expression c ++ v) c
      else setExpression (expression c ++ v) c.

Definition clearAll (c : calculator) : calculator :=
  setStatus []
    (setResult (VNum zero) false
       {| expression := [];
          lastResult := zero;
          expression_text := [];
          result_text := result_text c;
          result_error := result_error c;
          status_text := status_text c |}).

Definition backspace (c : calculator) : calculator :=
  if is_empty (expression c) then c
  else setExpression (removelast (expression c)) c.

Import Pattern.

(** [.], any character but a line terminator. *)
Definition is_any (c : char) : bool :=
  negb (Z.eqb c 10 || Z.eqb c 13 || Z.eqb c 8232 || Z.eqb c 8233)%bool.

Definition is_minus (c : char) : bool := char_eqb c (chr "-").

(** The parts of the pattern of [toggleSign]: [(\.\d+)?], [\d+(\.\d+)?],
    [-?\d+(\.\d+)?] and [.*\d]. *)
Definition pat_fraction : pattern :=
  POpt (PGroup 3 (PSeq (PChr is_dot) (PPlus is_digit))).
Definition pat_digits : pattern := PSeq (PPlus is_digit) pat_fraction.
Definition pat_number : pattern := PSeq (POpt (PChr is_minus)) pat_digits.
Definition pat_ahead : pattern := PSeq (PStar is_any) (PChr is_digit).

(** [/(.*?)(-?\d+(\.\d+)?)(?!.*\d)/] *)
Definition re_last_number : pattern :=
  PSeq (PGroup 1 (PLazy is_any))
       (PSeq (PGroup 2 pat_number) (PNotAhead pat_ahead)).

(** [m[i]] for a group that took part in the match. *)
Definition group (m : captures) (i : nat) : jsstring :=
  match m i with Some s => s | None => [] end.

Definition toggleSign (c : calculator) : calculator :=
  match exec re_last_number (expression c) with
  | None =>
      if is_empty (expression c) then setExpression (str "-") c else c
  | Some m =>
      let before := group m 1 in
      let num := group m 2 in
      let toggled :=
        match num with
        | ch :: rest => if is_minus ch then rest else chr "-" :: num
        | [] => chr "-" :: num
        end in
      setExpression (before ++ toggled) c
  end.

(** The message of an error. *)
Definition message (e : error) : jsstring :=
  match e with
  | InvalidNumber => str "Invalid number"
  | NumberTooLarge => str "Number too large"
  | UnexpectedCharacter ch => str "Unexpected character: " ++ [ch]
  | MismatchedParentheses => str "Mismatched parentheses"
  | InvalidToken => str "Invalid token"
  | InvalidExpression => str "Invalid expression"
  | DivisionByZero => str "Division by zero"
  | ResultNotFinite => str "Result not finite"
  end.

(** [equals()].  The call [addHistory(expression, value)] writes the history
    only; what it does to the state is to raise an exception or not:
    [history] is the message of the exception, if any. *)
Definition equals (history : option jsstring) (c : calculator) : calculator :=
  if is_empty (trim (expression c)) then c
  else
    match evaluate (expression c) with
    | Ok value =>
        match history with
        | None =>
            setStatus (str "Saved to history")
                      (setExpression (String_of (VNum value)) c)
        | Some msg => setStatus msg (setResult (VStr (str "Error")) true c)
        end
    | Err e => setStatus (message e) (setResult (VStr (str "Error")) true c)
    end.

(** ** What the user does *)

Inductive action :=
| Append (v : jsstring)               (* a key or a button with a value *)
| Backspace
| ToggleSign
| ClearAll
| Equals (history : option jsstring)
| Recall (expr : jsstring).           (* a click on an item of the history *)

Definition perform (a : action) (c : calculator) : calculator :=
  match a with
  | Append v => appendValue v c
  | Backspace => backspace c
  | ToggleSign => toggleSign c
  | ClearAll => clearAll c
  | Equals history => equals history c
  | Recall expr => setExpression expr c
  end.

(** A key of one character, [Backspace] or [Escape]. *)
Definition is_typing (a : action) : bool :=
  match a with
  | Append [_] | Backspace | ClearAll => true
  | _ => false
  end.

(** The page shows the expression, of 240 characters at most; the last
    result is a finite number, and the result shown is a finite number in
    the format of [formatNumber], unless it is marked as an error. *)
Definition consistent (c : calculator) : Prop :=
  (List.length (expression c) <= MAX_EXPR_LEN)%nat /\
  expression_text c = expression c /\
  isFinite (lastResult c) = true /\
  (result_error c = false ->
   exists v, isFinite v = true /\ result_text c = formatNumber v).

(** No two characters in a row are operators. *)
Fixpoint operators_apart (s : jsstring) : bool :=
  match s with
  | a :: ((b :: _) as s') =>
      (negb (isOperator a && isOperator b) && operators_apart s')%bool
  | _ => true
  end.

Definition one_point (piece : jsstring) : bool :=
  Nat.leb (count_dots piece) 1.

(** Every piece of the text between operators and parentheses has one
    decimal point at most. *)
Definition points_apart (s : jsstring) : bool :=
  forallb one_point (split is_separator s).

(** A digit follows in [s], with no line terminator before it: [.*\d]
    matches at the start of [s]. *)
Fixpoint digit_ahead (s : jsstring) : bool :=
  match s with
  | c :: s' => if is_any c then (digit_ahead s' || is_digit c)%bool else is_digit c
  | [] => false
  end.

(** The sign before a number. *)
Definition minus_sign (minus : bool) : jsstring :=
  if minus then [chr "-"] else [].

(** Nothing, or a point and digits. *)
Definition is_fraction (frac : jsstring) : bool :=
  match frac with
  | [] => true
  | c :: fp => (is_dot c && nonempty fp && forallb is_digit fp)%bool
  end.

(** The character is not a digit, a point or a minus sign. *)
Definition not_number_char (c : char) : bool :=
  negb (is_digit_or_dot c || is_minus c).

(** The listener of [keydown] on the document, for the key of name [key];
    [history] is what [addHistory] does in [equals]. *)
Definition keydown (key : jsstring) (history : option jsstring)
           (c : calculator) : calculator :=
  if string_eqb key (str "Escape") then clearAll c
  else if string_eqb key (str "Backspace") then backspace c
  else if (string_eqb key (str "Enter") || string_eqb key (str "="))%bool
  then equals history c
  else if (string_eqb key (str "(") || string_eqb key (str ")"))%bool
  then appendValue key c
  else if (string_eqb key (str ".") || test re_digit key)%bool
  then appendValue key c
  else if (string_eqb key (str "+") || string_eqb key (str "-")
           || string_eqb key (str "*") || string_eqb key (str "/"))%bool
  then appendValue key c
  else c.
Local Open Scope string_scope.
Local Open Scope list_scope.
Local Open Scope Z_scope.

(** * Properties *)

(** ** Character classes *)

Lemma digit_not_dot (c : char) : is_digit c = true -> is_dot c = false.
Proof.
  unfold is_digit, is_dot. intros H.
  apply andb_true_iff in H. destruct H as [H1 H2].
  apply Z.leb_le in H1. apply Z.eqb_neq. lia.
Qed.

Lemma dot_not_digit (c : char) : is_dot c = true -> is_digit c = false.
Proof.
  intros H. destruct (is_digit c) eqn:E; [|reflexivity].
  apply digit_not_dot in E. congruence.
Qed.

Lemma digit_not_space (c : char) : is_digit c = true -> is_space c = false.
Proof.
  unfold is_digit, is_space. intros H.
  apply andb_true_iff in H. destruct H as [H1 H2].
  apply Z.leb_le in H1. apply Z.leb_le in H2.
  repeat (apply orb_false_iff; split);
    try (apply Z.eqb_neq; lia);
    apply andb_false_iff;
    [right | left]; apply Z.leb_gt; lia.
Qed.

Lemma dot_not_space (c : char) : is_dot c = true -> is_space c = false.
Proof.
  unfold is_dot. intros H. apply Z.eqb_eq in H. subst c. reflexivity.
Qed.

Lemma test_one_char (p : char -> bool) (c : char) :
  test [Cls p One] [c] = p c.
Proof. simpl. destruct (p c); reflexivity. Qed.

(** ** The number pattern *)

Lemma star_digits_end (s : jsstring) :
  is_some (star is_digit (match_here [AssertEnd]) s) = forallb is_digit s.
Proof.
  induction s as [|c s IH]; [reflexivity|].
  cbn [star forallb].
  destruct (is_digit c); [|reflexivity].
  rewrite <- IH.
  destruct (star is_digit (match_here [AssertEnd]) s); reflexivity.
Qed.

Lemma digits_plus_end (s : jsstring) :
  is_some (match_here [Cls is_digit Plus; AssertEnd] s)
  = (nonempty s && forallb is_digit s)%bool.
Proof.
  destruct s as [|c s]; [reflexivity|].
  cbn [match_here nonempty forallb andb].
  destruct (is_digit c); [apply star_digits_end | reflexivity].
Qed.

Lemma point_digits_end (s : jsstring) :
  is_some (match_here [Cls is_dot Opt; Cls is_digit Plus; AssertEnd] s)
  = match s with
    | c :: s' =>
        if is_dot c then (nonempty s' && forallb is_digit s')%bool
        else forallb is_digit s
    | [] => false
    end.
Proof.
  destruct s as [|c s]; [reflexivity|].
  change (match_here [Cls is_dot Opt; Cls is_digit Plus; AssertEnd] (c :: s))
    with (if is_dot c then
            match match_here [Cls is_digit Plus; AssertEnd] s with
            | Some x => Some x
            | None => match_here [Cls is_digit Plus; AssertEnd] (c :: s)
            end
          else match_here [Cls is_digit Plus; AssertEnd] (c :: s)).
  destruct (is_dot c) eqn:Ec.
  - rewrite <- digits_plus_end.
    destruct (match_here [Cls is_digit Plus; AssertEnd] s); [reflexivity|].
    rewrite digits_plus_end. simpl.
    rewrite (dot_not_digit c Ec). reflexivity.
  - rewrite digits_plus_end. reflexivity.
Qed.

Lemma all_digits_no_dot (s : jsstring) :
  forallb is_digit s = true -> count_dots s = O.
Proof.
  unfold count_dots. induction s as [|c s IH]; simpl; [reflexivity|].
  intros H. apply andb_true_iff in H. destruct H as [Hc Hs].
  rewrite (digit_not_dot c Hc). auto.
Qed.

Lemma no_dot_all_digits (s : jsstring) :
  forallb is_digit_or_dot s = true -> count_dots s = O ->
  forallb is_digit s = true.
Proof.
  unfold count_dots. induction s as [|c s IH]; simpl; [reflexivity|].
  intros H. apply andb_true_iff in H. destruct H as [Hc Hs].
  unfold is_digit_or_dot in Hc.
  destruct (is_dot c); simpl; [discriminate|].
  rewrite orb_false_r in Hc. rewrite Hc. auto.
Qed.

Lemma all_digits_ends_with_digit (s : jsstring) :
  s <> [] -> forallb is_digit s = true -> ends_with_digit s = true.
Proof.
  unfold ends_with_digit. induction s as [|c s IH]; [congruence|].
  intros _ H. simpl in H. apply andb_true_iff in H. destruct H as [Hc Hs].
  destruct s as [|c' s]; [exact Hc|].
  change (is_digit (last (c' :: s) (chr ".")) = true).
  apply IH; [discriminate | exact Hs].
Qed.

Lemma ends_with_digit_cons (c : char) (s : jsstring) :
  s <> [] -> ends_with_digit (c :: s) = ends_with_digit s.
Proof. destruct s; [congruence | reflexivity]. Qed.

(** [/^\d*\.?\d+$/] on a run of digits and points: at most one point, and
    a digit at the end. *)
Lemma re_number_spec (raw : jsstring) :
  forallb is_digit_or_dot raw = true ->
  test_anchored re_number raw
  = (Nat.leb (count_dots raw) 1 && ends_with_digit raw)%bool.
Proof.
  unfold test_anchored, re_number.
  change (match_here
            [Cls is_digit Star; Cls is_dot Opt; Cls is_digit Plus; AssertEnd] raw)
    with (star is_digit
            (match_here [Cls is_dot Opt; Cls is_digit Plus; AssertEnd]) raw).
  fold (is_some (star is_digit
            (match_here [Cls is_dot Opt; Cls is_digit Plus; AssertEnd]) raw)).
  induction raw as [|c s IH]; intros Hall.
  - reflexivity.
  - simpl in Hall. apply andb_true_iff in Hall. destruct Hall as [Hc Hs].
    specialize (IH Hs).
    cbn [star].
    destruct (is_digit c) eqn:Ed.
    + pose proof (digit_not_dot c Ed) as Hnd.
      assert (Hcd : count_dots (c :: s) = count_dots s).
      { unfold count_dots. simpl. rewrite Hnd. reflexivity. }
      rewrite Hcd.
      destruct (star is_digit
                  (match_here [Cls is_dot Opt; Cls is_digit Plus; AssertEnd]) s)
        eqn:Es.
      * destruct s as [|c' s]; [discriminate Es|].
        rewrite ends_with_digit_cons by discriminate.
        rewrite <- IH. reflexivity.
      * cbn [is_some] in IH |- *.
        rewrite point_digits_end. rewrite Hnd.
        cbn [forallb]. rewrite Ed. cbn [andb].
        destruct (forallb is_digit s) eqn:Ef.
        -- rewrite (all_digits_no_dot s Ef) in *.
           destruct s as [|c' s]; [simpl; unfold ends_with_digit; simpl; auto|].
           rewrite ends_with_digit_cons by discriminate.
           rewrite all_digits_ends_with_digit in IH by (discriminate || exact Ef).
           discriminate.
        -- destruct s as [|c' s]; [discriminate|].
           rewrite ends_with_digit_cons by discriminate.
           exact IH.
    + unfold is_digit_or_dot in Hc. rewrite Ed in Hc. simpl in Hc.
      rewrite point_digits_end. rewrite Hc.
      assert (Hcd : count_dots (c :: s) = S (count_dots s)).
      { unfold count_dots. simpl. rewrite Hc. reflexivity. }
      rewrite Hcd.
      destruct s as [|c' s].
      * simpl. unfold ends_with_digit. simpl. rewrite Ed. reflexivity.
      * rewrite ends_with_digit_cons by discriminate.
        cbn [nonempty andb].
        destruct (forallb is_digit (c' :: s)) eqn:Ef.
        -- rewrite (all_digits_no_dot _ Ef).
           rewrite all_digits_ends_with_digit by (discriminate || exact Ef).
           reflexivity.
        -- destruct (count_dots (c' :: s)) eqn:Ecd.
           ++ rewrite (no_dot_all_digits _ Hs Ecd) in Ef. discriminate.
           ++ reflexivity.
Qed.

(** ** Whitespace removal *)

Lemma star_return (p : char -> bool) (s : jsstring) :
  star p (match_here []) s = Some (drop_while p s).
Proof.
  induction s as [|c s IH]; [reflexivity|].
  cbn [star drop_while]. destruct (p c); [|reflexivity].
  rewrite IH. reflexivity.
Qed.

Lemma drop_while_length (p : char -> bool) (s : jsstring) :
  (List.length (drop_while p s) <= List.length s)%nat.
Proof.
  induction s as [|c s IH]; simpl; [lia|].
  destruct (p c); simpl; lia.
Qed.

Lemma filter_drop_while_spaces (s : jsstring) :
  filter not_space (drop_while is_space s) = filter not_space s.
Proof.
  induction s as [|c s IH]; [reflexivity|].
  cbn [drop_while]. destruct (is_space c) eqn:E; [|reflexivity].
  rewrite IH. cbn [filter]. unfold not_space at 2. rewrite E. reflexivity.
Qed.

Lemma replace_all_spaces_fuel (fuel : nat) (s : jsstring) :
  (List.length s <= fuel)%nat ->
  replace_all_fuel fuel re_spaces [] s = filter not_space s.
Proof.
  revert s. induction fuel as [|fuel IH]; intros s Hlen.
  - destruct s; [reflexivity | simpl in Hlen; lia].
  - destruct s as [|c s]; [reflexivity|].
    cbn [replace_all_fuel].
    change (match_here re_spaces (c :: s))
      with (if is_space c then star is_space (match_here []) s else None).
    cbn [filter]. unfold not_space at 1.
    simpl in Hlen.
    destruct (is_space c); cbn [negb].
    + rewrite star_return. cbn [app].
      rewrite IH by (pose proof (drop_while_length is_space s); lia).
      apply filter_drop_while_spaces.
    + rewrite IH by lia. reflexivity.
Qed.

(** [input.replace(/\s+/g, "")] keeps the characters that are not
    whitespace. *)
Lemma replace_all_spaces (input : jsstring) :
  replace_all re_spaces [] input = filter not_space input.
Proof. apply replace_all_spaces_fuel. apply Nat.le_refl. Qed.

Lemma filter_not_space_id (s : jsstring) :
  forallb is_digit_or_dot s = true -> filter not_space s = s.
Proof.
  induction s as [|c s IH]; [reflexivity|].
  cbn [forallb filter]. intros H.
  apply andb_true_iff in H. destruct H as [Hc Hs].
  assert (E : is_space c = false).
  { unfold is_digit_or_dot in Hc. apply orb_true_iff in Hc.
    destruct Hc; [apply digit_not_space | apply dot_not_space]; assumption. }
  unfold not_space at 1. rewrite E. cbn [negb]. rewrite IH by exact Hs.
  reflexivity.
Qed.

(** ** The scanning loops *)

Lemma scan_run_app (run rest : jsstring) :
  forallb is_digit_or_dot run = true -> run_ends rest ->
  scan_run (run ++ rest) = (run, rest).
Proof.
  intros Hrun Hrest. induction run as [|c run IH].
  - destruct rest as [|c rest]; [reflexivity|].
    simpl in Hrest. cbn [app scan_run].
    unfold re_number_char. rewrite test_one_char, Hrest. reflexivity.
  - cbn [forallb] in Hrun. apply andb_true_iff in Hrun.
    destruct Hrun as [Hc Hrun].
    cbn [app scan_run]. unfold re_number_char.
    rewrite test_one_char, Hc. rewrite (IH Hrun). reflexivity.
Qed.

Lemma scan_run_length (s : jsstring) :
  (List.length (snd (scan_run s)) <= List.length s)%nat.
Proof.
  induction s as [|c s IH]; [simpl; lia|].
  cbn [scan_run]. destruct (test re_number_char [c]); [|simpl; lia].
  destruct (scan_run s) as [run rest]. simpl in *. lia.
Qed.

(** The length of the string is enough fuel for the scanning loop. *)
Lemma tokenize_loop_fuel (f1 f2 : nat) (s : jsstring) (tokens : list token) :
  (List.length s <= f1)%nat -> (List.length s <= f2)%nat ->
  tokenize_loop f1 s tokens = tokenize_loop f2 s tokens.
Proof.
  revert f2 s tokens. induction f1 as [|f1 IH]; intros f2 s tokens H1 H2.
  - destruct s; [|simpl in H1; lia]. destruct f2; reflexivity.
  - destruct f2 as [|f2].
    { destruct s; [reflexivity | simpl in H2; lia]. }
    destruct s as [|ch s]; [reflexivity|].
    simpl in H1, H2. cbn [tokenize_loop].
    destruct (test re_number_start [ch]).
    + pose proof (scan_run_length s) as Hlen.
      destruct (scan_run s) as [run rest]. simpl in Hlen.
      destruct (negb (test_anchored re_number (ch :: run))); [reflexivity|].
      destruct (negb (isFinite (of_decimal (ch :: run)))); [reflexivity|].
      apply IH; lia.
    + destruct (char_eqb ch (chr "(") || char_eqb ch (chr ")"))%bool.
      * apply IH; lia.
      * destruct (operator_of ch); [apply IH; lia | reflexivity].
Qed.

(** [tokenize] on a string without whitespace. *)
Lemma tokenize_no_space (s : jsstring) :
  filter not_space s = s ->
  tokenize s = tokenize_loop (List.length s) s [].
Proof.
  intros H. unfold tokenize. rewrite replace_all_spaces, H. reflexivity.
Qed.

(** The scanning loop at the head of a maximal run of digits and points. *)
Lemma tokenize_loop_run (fuel : nat) (raw rest : jsstring) (tokens : list token) :
  raw <> [] -> forallb is_digit_or_dot raw = true -> run_ends rest ->
  tokenize_loop (S fuel) (raw ++ rest) tokens
  = if test_anchored re_number raw then
      if isFinite (of_decimal raw) then
        tokenize_loop fuel rest (tokens ++ [TNum (of_decimal raw)])
      else Err NumberTooLarge
    else Err InvalidNumber.
Proof.
  intros Hne Hall Hrest.
  destruct raw as [|ch run]; [congruence|].
  cbn [forallb] in Hall. apply andb_true_iff in Hall. destruct Hall as [Hc Hrun].
  cbn [app tokenize_loop]. unfold re_number_start.
  rewrite test_one_char, Hc.
  rewrite (scan_run_app run rest Hrun Hrest).
  destruct (test_anchored re_number (ch :: run)); [|reflexivity].
  cbn [negb]. destruct (isFinite (of_decimal (ch :: run))); reflexivity.
Qed.

(** ** The converter *)

Lemma bind_ok {A B} (r : result A) (f : A -> result B) (b : B) :
  bind r f = Ok b -> exists a, r = Ok a /\ f a = Ok b.
Proof. destruct r as [a|e]; simpl; [eauto | discriminate]. Qed.

Lemma toRpn_for_app (tokens : list token) (n m idx : nat) (st : rpn_state) :
  toRpn_for tokens (n + m) idx st
  = (st' <- toRpn_for tokens n idx st ;; toRpn_for tokens m (idx + n) st').
Proof.
  revert idx st. induction n as [|n IH]; intros idx st.
  - simpl. rewrite Nat.add_0_r. reflexivity.
  - cbn [Nat.add toRpn_for].
    destruct (toRpn_step tokens idx st) as [st1|e]; [|reflexivity].
    cbn [bind]. rewrite IH. rewrite Nat.add_succ_r. reflexivity.
Qed.

Lemma pop_to_paren_none (out ops : list token) :
  existsb is_lparen ops = false -> snd (pop_to_paren out ops) = [].
Proof.
  revert out. induction ops as [|t ops IH]; intros out H; [reflexivity|].
  cbn [existsb] in H. apply orb_false_iff in H. destruct H as [Ht Hops].
  destruct t; try discriminate Ht; cbn [pop_to_paren]; apply IH; exact Hops.
Qed.

Lemma drain_lparen (out ops : list token) :
  existsb is_lparen ops = true -> drain out ops = Err MismatchedParentheses.
Proof.
  revert out. induction ops as [|t ops IH]; intros out H; [discriminate|].
  cbn [existsb] in H.
  destruct t; cbn [drain]; try reflexivity; apply IH; exact H.
Qed.

Lemma toRpn_step_rparen (tokens : list token) (idx : nat) (out ops : list token) :
  nth_error tokens idx = Some TRParen ->
  existsb is_lparen ops = false ->
  toRpn_step tokens idx (out, ops) = Err MismatchedParentheses.
Proof.
  intros Ht Hops. unfold toRpn_step. rewrite Ht. cbn [fst snd].
  pose proof (pop_to_paren_none out ops Hops) as E.
  destruct (pop_to_paren out ops) as [out' ops']. simpl in E. subst ops'.
  reflexivity.
Qed.

(** ** Finite values *)

Lemma tokenize_loop_finite (fuel : nat) (s : jsstring) (acc tokens : list token) :
  forallb token_finite acc = true ->
  tokenize_loop fuel s acc = Ok tokens ->
  forallb token_finite tokens = true.
Proof.
  revert s acc. induction fuel as [|fuel IH]; intros s acc Hacc H.
  - simpl in H. congruence.
  - destruct s as [|ch s]; [simpl in H; congruence|].
    cbn [tokenize_loop] in H.
    destruct (test re_number_start [ch]).
    + destruct (scan_run s) as [run rest].
      destruct (negb (test_anchored re_number (ch :: run))); [discriminate|].
      destruct (isFinite (of_decimal (ch :: run))) eqn:Ef; [|discriminate].
      cbn [negb] in H. apply IH in H; [exact H|].
      rewrite forallb_app, Hacc. simpl. rewrite Ef. reflexivity.
    + destruct (char_eqb ch (chr "(") || char_eqb ch (chr ")"))%bool.
      * apply IH in H; [exact H|].
        rewrite forallb_app, Hacc.
        destruct (char_eqb ch (chr "(")); reflexivity.
      * destruct (operator_of ch); [|discriminate].
        apply IH in H; [exact H|].
        rewrite forallb_app, Hacc. reflexivity.
Qed.

Lemma tokenize_finite (input : jsstring) (tokens : list token) :
  tokenize input = Ok tokens -> forallb token_finite tokens = true.
Proof. apply tokenize_loop_finite. reflexivity. Qed.

Lemma state_finite_iff (out ops : list token) :
  state_finite (out, ops) = true
  <-> forallb token_finite out = true /\ forallb token_finite ops = true.
Proof. unfold state_finite. cbn [fst snd]. apply andb_true_iff. Qed.

Lemma forallb_snoc {A} (f : A -> bool) (l : list A) (x : A) :
  forallb f l = true -> f x = true -> forallb f (l ++ [x]) = true.
Proof.
  intros Hl Hx. rewrite forallb_app, Hl. cbn [forallb]. rewrite Hx. reflexivity.
Qed.

Lemma pushOp_loop_finite (a : opname) (out ops : list token) :
  state_finite (out, ops) = true ->
  state_finite (pushOp_loop a out ops) = true.
Proof.
  revert out. induction ops as [|t ops IH]; intros out H; [exact H|].
  cbn [pushOp_loop]. destruct t; try exact H.
  destruct (pops a value); [|exact H].
  apply IH. apply state_finite_iff in H. destruct H as [H1 H2].
  cbn [forallb] in H2. apply andb_true_iff in H2. destruct H2 as [Ht H2].
  apply state_finite_iff. split; [apply forallb_snoc; assumption | exact H2].
Qed.

Lemma pushOp_finite (a : opname) (st : rpn_state) :
  state_finite st = true -> state_finite (pushOp a st) = true.
Proof.
  intros H. unfold pushOp.
  assert (H' : state_finite (pushOp_loop a (fst st) (snd st)) = true).
  { apply pushOp_loop_finite. destruct st; exact H. }
  destruct (pushOp_loop a (fst st) (snd st)) as [out ops].
  apply state_finite_iff in H'. apply state_finite_iff.
  cbn [forallb token_finite andb]. exact H'.
Qed.

Lemma pop_to_paren_finite (out ops : list token) :
  state_finite (out, ops) = true ->
  state_finite (pop_to_paren out ops) = true.
Proof.
  revert out. induction ops as [|t ops IH]; intros out H; [exact H|].
  pose proof H as H0.
  apply state_finite_iff in H. destruct H as [H1 H2].
  cbn [forallb] in H2. apply andb_true_iff in H2. destruct H2 as [Ht H2].
  assert (Hnext : state_finite (out ++ [t], ops) = true).
  { apply state_finite_iff. split; [apply forallb_snoc; assumption | exact H2]. }
  destruct t; cbn [pop_to_paren]; try (apply IH; exact Hnext).
  exact H0.
Qed.

Lemma nth_error_finite (tokens : list token) (idx : nat) (t : token) :
  forallb token_finite tokens = true ->
  nth_error tokens idx = Some t -> token_finite t = true.
Proof.
  intros Hall Hnth. rewrite forallb_forall in Hall.
  apply Hall. eapply nth_error_In. exact Hnth.
Qed.

Lemma toRpn_step_finite (tokens : list token) (idx : nat) (st st' : rpn_state) :
  forallb token_finite tokens = true ->
  state_finite st = true ->
  toRpn_step tokens idx st = Ok st' ->
  state_finite st' = true.
Proof.
  intros Hall Hst H. unfold toRpn_step in H.
  destruct (nth_error tokens idx) as [t|] eqn:Ht; [|congruence].
  pose proof (nth_error_finite _ _ _ Hall Ht) as Hfin.
  destruct st as [out0 ops0]. cbn [fst snd] in H.
  pose proof Hst as Hst0.
  apply state_finite_iff in Hst. destruct Hst as [H1 H2].
  destruct t.
  - injection H as <-. apply state_finite_iff.
    split; [apply forallb_snoc; assumption | exact H2].
  - destruct value; injection H as <-; apply pushOp_finite; exact Hst0.
  - injection H as <-. apply state_finite_iff. split; [exact H1|].
    cbn [forallb token_finite andb]. exact H2.
  - pose proof (pop_to_paren_finite out0 ops0 Hst0) as Hp.
    destruct (pop_to_paren out0 ops0) as [out ops].
    destruct ops as [|t ops]; [discriminate|]. injection H as <-.
    apply state_finite_iff in Hp. destruct Hp as [Hp1 Hp2].
    cbn [forallb] in Hp2. apply andb_true_iff in Hp2. destruct Hp2 as [_ Hp2].
    apply state_finite_iff. split; assumption.
Qed.

Lemma toRpn_for_finite (tokens : list token) (n idx : nat) (st st' : rpn_state) :
  forallb token_finite tokens = true ->
  state_finite st = true ->
  toRpn_for tokens n idx st = Ok st' ->
  state_finite st' = true.
Proof.
  intros Hall. revert idx st. induction n as [|n IH]; intros idx st Hst H.
  - simpl in H. congruence.
  - cbn [toRpn_for] in H. apply bind_ok in H. destruct H as [st1 [Hs H]].
    eapply IH; [|exact H].
    eapply toRpn_step_finite; eauto.
Qed.

Lemma drain_finite (out ops rpn : list token) :
  state_finite (out, ops) = true ->
  drain out ops = Ok rpn -> forallb token_finite rpn = true.
Proof.
  revert out. induction ops as [|t ops IH]; intros out Hst H.
  - simpl in H. injection H as <-. apply state_finite_iff in Hst. apply Hst.
  - apply state_finite_iff in Hst. destruct Hst as [H1 H2].
    cbn [forallb] in H2. apply andb_true_iff in H2. destruct H2 as [Ht H2].
    assert (Hnext : state_finite (out ++ [t], ops) = true).
    { apply state_finite_iff. split; [apply forallb_snoc; assumption | exact H2]. }
    destruct t; cbn [drain] in H; try discriminate;
      eapply IH; eauto.
Qed.

Lemma toRpn_finite (tokens rpn : list token) :
  forallb token_finite tokens = true ->
  toRpn tokens = Ok rpn -> forallb token_finite rpn = true.
Proof.
  intros Hall H. unfold toRpn in H.
  apply bind_ok in H. destruct H as [[out ops] [Hfor Hdrain]].
  eapply drain_finite; [|exact Hdrain].
  eapply toRpn_for_finite; [exact Hall | | exact Hfor]. reflexivity.
Qed.

(** ** The evaluator *)

Lemma neg_finite (a : float64) : isFinite (neg a) = isFinite a.
Proof. destruct a; reflexivity. Qed.

Lemma evalRpn_loop_app (pre post : list token) (st : list float64) :
  evalRpn_loop (pre ++ post) st
  = (st' <- evalRpn_loop pre st ;; evalRpn_loop post st').
Proof.
  revert st. induction pre as [|t pre IH]; intros st; [reflexivity|].
  cbn [app evalRpn_loop].
  destruct (evalRpn_step t st) as [st1|e]; [|reflexivity].
  cbn [bind]. apply IH.
Qed.

(** A binary operator on a stack of at least two values. *)
Lemma evalRpn_step_binary (o : opname) (a b : float64) (st : list float64) :
  is_binary o = true ->
  evalRpn_step (TOp o) (b :: a :: st)
  = if (match o with Div => strict_eqb b zero | _ => false end)
    then Err DivisionByZero
    else if isFinite (binop o a b) then Ok (binop o a b :: st)
         else Err ResultNotFinite.
Proof.
  intros Ho. destruct o; try discriminate Ho; cbn [evalRpn_step binop bind].
  - destruct (isFinite (add a b)); reflexivity.
  - destruct (isFinite (sub a b)); reflexivity.
  - destruct (isFinite (mul a b)); reflexivity.
  - destruct (strict_eqb b zero); [reflexivity|].
    cbn [bind]. destruct (isFinite (div a b)); reflexivity.
Qed.

Lemma evalRpn_step_finite (t : token) (st st' : list float64) :
  token_finite t = true ->
  forallb isFinite st = true ->
  evalRpn_step t st = Ok st' ->
  forallb isFinite st' = true.
Proof.
  intros Ht Hst H. destruct t as [v|o| |]; try discriminate H.
  - injection H as <-. cbn [forallb]. simpl in Ht. rewrite Ht, Hst. reflexivity.
  - destruct o.
    1-4: destruct st as [|b [|a st]]; try discriminate H;
         rewrite evalRpn_step_binary in H by reflexivity;
         cbv iota in H;
         try (destruct (strict_eqb b zero); [discriminate H|]);
         match type of H with
         | (if ?c then _ else _) = _ => destruct c eqn:Ev; [|discriminate H]
         end;
         injection H as <-;
         cbn [forallb] in Hst |- *;
         apply andb_true_iff in Hst; destruct Hst as [_ Hst];
         apply andb_true_iff in Hst; destruct Hst as [_ Hst];
         cbv iota beta delta [binop] in Ev; rewrite Ev, Hst; reflexivity.
    + destruct st as [|a st]; [discriminate H|]. injection H as <-. exact Hst.
    + destruct st as [|a st]; [discriminate H|]. injection H as <-.
      cbn [forallb] in Hst |- *. rewrite neg_finite. exact Hst.
Qed.

Lemma evalRpn_loop_finite (rpn : list token) (st st' : list float64) :
  forallb token_finite rpn = true ->
  forallb isFinite st = true ->
  evalRpn_loop rpn st = Ok st' ->
  forallb isFinite st' = true.
Proof.
  revert st. induction rpn as [|t rpn IH]; intros st Hrpn Hst H.
  - simpl in H. congruence.
  - cbn [forallb] in Hrpn. apply andb_true_iff in Hrpn.
    destruct Hrpn as [Ht Hrpn].
    cbn [evalRpn_loop] in H. apply bind_ok in H. destruct H as [st1 [Hs H]].
    eapply IH; [exact Hrpn | | exact H].
    eapply evalRpn_step_finite; eauto.
Qed.

(** A division whose right operand is a zero stops the evaluation. *)
Lemma evalRpn_division_stops (pre post : list token) (a b : float64)
      (st : list float64) :
  evalRpn_loop pre [] = Ok (b :: a :: st) ->
  strict_eqb b zero = true ->
  evalRpn (pre ++ TOp Div :: post) = Err DivisionByZero.
Proof.
  intros Hpre Hb. unfold evalRpn. rewrite evalRpn_loop_app, Hpre.
  cbn [bind evalRpn_loop].
  rewrite evalRpn_step_binary by reflexivity. rewrite Hb. reflexivity.
Qed.

(** ** Rounding a quotient

    The division of two exact integers whose quotient is in the range of the
    normal numbers returns a finite number, one unit in the last place from
    the quotient at most. *)

Lemma digits2_size (p : positive) : digits2_pos p = Pos.size p.
Proof. induction p; simpl; congruence. Qed.

Lemma digits2_log2 (p : positive) :
  Zpos (digits2_pos p) = Z.log2 (Zpos p) + 1.
Proof.
  rewrite digits2_size. destruct p; simpl; try reflexivity; lia.
Qed.

Lemma digits2_bounds (p : positive) :
  2 ^ (Zpos (digits2_pos p) - 1) <= Zpos p < 2 ^ Zpos (digits2_pos p).
Proof.
  rewrite digits2_log2.
  replace (Z.log2 (Zpos p) + 1 - 1) with (Z.log2 (Zpos p)) by lia.
  pose proof (Z.log2_spec (Zpos p)) as H.
  replace (Z.succ (Z.log2 (Zpos p))) with (Z.log2 (Zpos p) + 1) in H by lia.
  apply H. lia.
Qed.

Lemma Zdigits2_eq (q d : Z) :
  0 < d -> 2 ^ (d - 1) <= q < 2 ^ d -> Zdigits2 q = d.
Proof.
  intros Hd Hq.
  assert (Hpos : 0 < q).
  { assert (0 < 2 ^ (d - 1)) by (apply Z.pow_pos_nonneg; lia). lia. }
  destruct q as [|p|p]; try lia.
  unfold Zdigits2. rewrite digits2_log2.
  rewrite (Z.log2_unique (Zpos p) (d - 1)); [lia | lia |].
  replace (Z.succ (d - 1)) with d by lia. exact Hq.
Qed.

Lemma shr_m_of_loc (m : Z) (l : location) : shr_m (shr_record_of_loc m l) = m.
Proof. destruct l as [|[ | | ]]; reflexivity. Qed.

Lemma shr_m_shr_1 (mrs : shr_record) :
  0 <= shr_m mrs -> shr_m (shr_1 mrs) = shr_m mrs / 2.
Proof.
  destruct mrs as [m r s]. cbn [shr_m]. intros Hm.
  destruct m as [|p|p]; try lia; [reflexivity|].
  destruct p as [p|p|]; cbn [shr_1 shr_m].
  - rewrite Pos2Z.inj_xI.
    apply (Z.div_unique_pos _ _ _ 1); lia.
  - rewrite Pos2Z.inj_xO.
    apply (Z.div_unique_pos _ _ _ 0); lia.
  - reflexivity.
Qed.

Lemma shr_fexp_keep (q e : Z) (l : location) :
  2 ^ 52 <= q < 2 ^ 53 -> -1074 <= e ->
  shr_fexp prec emax q e l = (shr_record_of_loc q l, e).
Proof.
  intros Hq He. unfold shr_fexp.
  rewrite (Zdigits2_eq q 53) by (lia || exact Hq).
  unfold fexp, emin, prec, emax.
  replace (Z.max (53 + e - 53) (3 - 1024 - 53) - e) with 0 by lia.
  reflexivity.
Qed.

Lemma shr_fexp_halve (q e : Z) (l : location) :
  2 ^ 53 <= q < 2 ^ 54 -> -1075 <= e ->
  shr_fexp prec emax q e l = (shr_1 (shr_record_of_loc q l), e + 1).
Proof.
  intros Hq He. unfold shr_fexp.
  rewrite (Zdigits2_eq q 54) by (lia || exact Hq).
  unfold fexp, emin, prec, emax.
  replace (Z.max (54 + e - 53) (3 - 1024 - 53) - e) with 1 by lia.
  reflexivity.
Qed.

Lemma round_nearest_even_cases (m : Z) (l : location) :
  round_nearest_even m l = m \/ round_nearest_even m l = m + 1.
Proof.
  destruct l as [|[ | | ]]; cbn [round_nearest_even]; auto.
  destruct (Z.even m); auto.
Qed.

(** The first shift of [binary_round_aux] on a quotient of 53 or 54 bits. *)
Lemma first_shift (q e : Z) (l : location) :
  2 ^ 52 <= q < 2 ^ 54 -> -1074 <= e ->
  exists mrs sh,
    shr_fexp prec emax q e l = (mrs, e + sh) /\
    (sh = 0 \/ sh = 1) /\
    2 ^ 52 <= shr_m mrs < 2 ^ 53 /\
    shr_m mrs * 2 ^ sh <= q < (shr_m mrs + 1) * 2 ^ sh.
Proof.
  intros Hq He.
  destruct (Z_lt_le_dec q (2 ^ 53)) as [Hlt | Hge].
  - exists (shr_record_of_loc q l), 0.
    rewrite shr_fexp_keep by lia. rewrite shr_m_of_loc, Z.add_0_r.
    repeat split; try reflexivity; lia.
  - exists (shr_1 (shr_record_of_loc q l)), 1.
    rewrite shr_fexp_halve by lia.
    rewrite shr_m_shr_1 by (rewrite shr_m_of_loc; lia).
    rewrite shr_m_of_loc.
    pose proof (Z.div_mod q 2 ltac:(lia)) as Hdm.
    pose proof (Z.mod_pos_bound q 2 ltac:(lia)) as Hmod.
    change (2 ^ 1) with 2.
    repeat split; try reflexivity; lia.
Qed.

(** The second shift, after rounding. *)
Lemma second_shift (m e : Z) :
  2 ^ 52 <= m <= 2 ^ 53 -> -1074 <= e ->
  exists mrs sh,
    shr_fexp prec emax m e loc_Exact = (mrs, e + sh) /\
    (sh = 0 \/ sh = 1) /\
    2 ^ 52 <= shr_m mrs < 2 ^ 53 /\
    shr_m mrs * 2 ^ sh = m.
Proof.
  intros Hm He.
  destruct (Z_lt_le_dec m (2 ^ 53)) as [Hlt | Hge].
  - exists (shr_record_of_loc m loc_Exact), 0.
    rewrite shr_fexp_keep by lia. rewrite shr_m_of_loc, Z.add_0_r.
    repeat split; try reflexivity; lia.
  - assert (m = 2 ^ 53) by lia. subst m.
    exists (shr_1 (shr_record_of_loc (2 ^ 53) loc_Exact)), 1.
    rewrite shr_fexp_halve by lia.
    split; [reflexivity|]. split; [right; reflexivity|]. split; vm_compute; [split; congruence | reflexivity].
Qed.

(** [binary_round_aux] on a positive quotient of 53 or 54 bits. *)
Lemma binary_round_aux_normal (q e : Z) (l : location) :
  2 ^ 52 <= q < 2 ^ 54 -> -1074 <= e <= 960 ->
  exists m e',
    binary_round_aux prec emax false q e l = S754_finite false m e' /\
    e <= e' <= e + 2 /\
    2 ^ 52 <= Zpos m < 2 ^ 53 /\
    (Zpos m - 1) * 2 ^ (e' - e) <= q /\
    q + 1 <= (Zpos m + 1) * 2 ^ (e' - e).
Proof.
  intros Hq He. unfold binary_round_aux.
  destruct (first_shift q e l Hq ltac:(lia))
    as (mrs1 & sh1 & E1 & Hsh1 & Hm1 & Hb1).
  rewrite E1.
  set (m2 := round_nearest_even (shr_m mrs1) (loc_of_shr_record mrs1)).
  assert (Hm2 : m2 = shr_m mrs1 \/ m2 = shr_m mrs1 + 1)
    by apply round_nearest_even_cases.
  destruct (second_shift m2 (e + sh1) ltac:(lia) ltac:(lia))
    as (mrs2 & sh2 & E2 & Hsh2 & Hm3 & Hb2).
  rewrite E2.
  destruct (shr_m mrs2) as [|m|m] eqn:Em; try lia.
  exists m, (e + sh1 + sh2).
  assert (Hle : (e + sh1 + sh2 <=? emax - prec) = true).
  { apply Z.leb_le. unfold emax, prec. lia. }
  rewrite Hle.
  split; [reflexivity|]. split; [lia|]. split; [lia|].
  replace (e + sh1 + sh2 - e) with (sh1 + sh2) by lia.
  rewrite Z.pow_add_r by lia.
  assert (H1 : 2 ^ sh1 = 1 \/ 2 ^ sh1 = 2)
    by (destruct Hsh1 as [-> | ->]; [left | right]; reflexivity).
  assert (H2 : 2 ^ sh2 = 1 \/ 2 ^ sh2 = 2)
    by (destruct Hsh2 as [-> | ->]; [left | right]; reflexivity).
  destruct H1 as [H1 | H1]; destruct H2 as [H2 | H2];
    rewrite H1, H2 in *; split; nia.
Qed.

Lemma pow2_split (x y : Z) : 0 <= x -> 0 <= y -> 2 ^ (x + y) = 2 ^ x * 2 ^ y.
Proof. intros. apply Z.pow_add_r; assumption. Qed.

(** The correctly rounded quotient of two integers, when it is a normal
    number below [2^50]: a finite number, less than one unit in the last
    place from the quotient. *)
Lemma div_exact_bracket (a b : positive) :
  -1021 <= Zpos (digits2_pos a) - Zpos (digits2_pos b) <= 50 ->
  exists m e,
    SFdiv prec emax (S754_finite false a 0) (S754_finite false b 0)
    = S754_finite false m e /\
    Zpos (digits2_pos a) - Zpos (digits2_pos b) - 53 <= e
      <= Zpos (digits2_pos a) - Zpos (digits2_pos b) - 51 /\
    2 ^ 52 <= Zpos m < 2 ^ 53 /\
    (Zpos m - 1) * Zpos b <= Zpos a * 2 ^ (- e) /\
    Zpos a * 2 ^ (- e) < (Zpos m + 1) * Zpos b.
Proof.
  intros Hd.
  pose proof (digits2_bounds a) as Ha.
  pose proof (digits2_bounds b) as Hb.
  unfold SFdiv, SFdiv_core_binary. cbn [Zdigits2 xorb].
  set (da := Zpos (digits2_pos a)) in *.
  set (db := Zpos (digits2_pos b)) in *.
  assert (Hda : 0 < da) by (unfold da; lia).
  assert (Hdb : 0 < db) by (unfold db; lia).
  replace (Z.min (fexp prec emax (da + 0 - (db + 0))) (0 - 0))
    with (da - db - 53) by (unfold fexp, emin, prec, emax; lia).
  replace (0 - 0 - (da - db - 53)) with (53 - (da - db)) by lia.
  destruct (53 - (da - db)) as [|s|s] eqn:Es; try lia.
  rewrite Z.shiftl_mul_pow2 by lia.
  pose proof (Z_div_mod (Zpos a * 2 ^ Zpos s) (Zpos b) ltac:(lia)) as Hdiv.
  destruct (Z.div_eucl (Zpos a * 2 ^ Zpos s) (Zpos b)) as [q r].
  destruct Hdiv as [Heq Hr].
  assert (Hlow : 2 ^ (da - 1) * 2 ^ Zpos s = 2 ^ db * 2 ^ 52).
  { rewrite <- !pow2_split by lia. f_equal. lia. }
  assert (Hhigh : 2 ^ da * 2 ^ Zpos s = 2 ^ (db - 1) * 2 ^ 54).
  { rewrite <- !pow2_split by lia. f_equal. lia. }
  assert (Hs : 0 < 2 ^ Zpos s) by (apply Z.pow_pos_nonneg; lia).
  assert (Hpb : 0 < 2 ^ (db - 1)) by (apply Z.pow_pos_nonneg; lia).
  assert (Hq : 2 ^ 52 <= q < 2 ^ 54).
  { split.
    - destruct (Z_lt_le_dec q (2 ^ 52)) as [Hc|]; [exfalso | assumption].
      assert (Zpos b * (q + 1) <= Zpos b * 2 ^ 52)
        by (apply Z.mul_le_mono_nonneg_l; lia).
      assert (2 ^ (da - 1) * 2 ^ Zpos s <= Zpos a * 2 ^ Zpos s)
        by (apply Z.mul_le_mono_nonneg_r; lia).
      assert (Zpos b * 2 ^ 52 < 2 ^ db * 2 ^ 52)
        by (apply Z.mul_lt_mono_pos_r; lia).
      lia.
    - destruct (Z_lt_le_dec q (2 ^ 54)) as [|Hc]; [assumption | exfalso].
      assert (Zpos b * 2 ^ 54 <= Zpos b * q)
        by (apply Z.mul_le_mono_nonneg_l; lia).
      assert (Zpos a * 2 ^ Zpos s < 2 ^ da * 2 ^ Zpos s)
        by (apply Z.mul_lt_mono_pos_r; lia).
      assert (2 ^ (db - 1) * 2 ^ 54 <= Zpos b * 2 ^ 54)
        by (apply Z.mul_le_mono_nonneg_r; lia).
      lia. }
  destruct (binary_round_aux_normal q (da - db - 53) (new_location (Zpos b) r)
              Hq ltac:(lia))
    as (m & e & Eround & He & Hm & Hlo & Hhi).
  exists m, e. split; [exact Eround|]. split; [lia|]. split; [exact Hm|].
  set (t := e - (da - db - 53)) in *.
  assert (Ht : 0 < 2 ^ t) by (apply Z.pow_pos_nonneg; lia).
  assert (Hpow : 2 ^ Zpos s = 2 ^ (- e) * 2 ^ t).
  { rewrite <- pow2_split by lia. f_equal. lia. }
  rewrite Hpow in Heq.
  split.
  - apply (Z.mul_le_mono_pos_r _ _ (2 ^ t) Ht).
    assert (Zpos b * ((Zpos m - 1) * 2 ^ t) <= Zpos b * q)
      by (apply Z.mul_le_mono_nonneg_l; lia).
    lia.
  - apply (Z.mul_lt_mono_pos_r (2 ^ t) _ _ Ht).
    assert (Zpos b * (q + 1) <= Zpos b * ((Zpos m + 1) * 2 ^ t))
      by (apply Z.mul_le_mono_nonneg_l; lia).
    lia.
Qed.

(** ** The Number value of a rational *)

Lemma cross_le (n den num d P : Z) :
  0 < den -> 0 < d -> n * den = num * d -> den <= num * P -> d <= n * P.
Proof.
  intros Hden Hd Hred H.
  apply (Z.mul_le_mono_pos_r _ _ den Hden).
  replace (n * P * den) with ((n * den) * P) by ring. rewrite Hred.
  assert (d * den <= d * (num * P)) by (apply Z.mul_le_mono_nonneg_l; lia).
  lia.
Qed.

Lemma cross_lt (n den num d P : Z) :
  0 < den -> 0 < d -> n * den = num * d -> num < den * P -> n < d * P.
Proof.
  intros Hden Hd Hred H.
  apply (Z.mul_lt_mono_pos_r den _ _ Hden).
  rewrite Hred.
  assert (d * num < d * (den * P)) by (apply Z.mul_lt_mono_pos_l; lia).
  lia.
Qed.

Lemma cross_le_l (n den num d P m : Z) :
  0 < den -> 0 < d -> n * den = num * d -> m * d <= n * P -> m * den <= num * P.
Proof.
  intros Hden Hd Hred H.
  apply (Z.mul_le_mono_pos_r _ _ d Hd).
  replace (num * P * d) with ((num * d) * P) by ring. rewrite <- Hred.
  assert (den * (m * d) <= den * (n * P)) by (apply Z.mul_le_mono_nonneg_l; lia).
  lia.
Qed.

Lemma cross_lt_r (n den num d P m : Z) :
  0 < den -> 0 < d -> n * den = num * d -> n * P < m * d -> num * P < m * den.
Proof.
  intros Hden Hd Hred H.
  apply (Z.mul_lt_mono_pos_r d _ _ Hd).
  replace (num * P * d) with ((num * d) * P) by ring. rewrite <- Hred.
  assert (den * (n * P) < den * (m * d)) by (apply Z.mul_lt_mono_pos_l; lia).
  lia.
Qed.

(** Equal rationals have the same Number value. *)
Lemma of_Q_eq (p q : Q) : Qeq p q -> of_Q p = of_Q q.
Proof. intros H. unfold of_Q. rewrite (Qred_complete p q H). reflexivity. Qed.

(** The Number value of a rational between [2^-1020] and [2^49] is a
    positive normal number, less than one unit in the last place from it. *)
Lemma of_Q_bracket (num : Z) (den : positive) :
  0 < num -> Zpos den <= num * 2 ^ 1020 -> num < Zpos den * 2 ^ 49 ->
  exists m e,
    of_Q (Qmake num den) = S754_finite false m e /\
    -1074 <= e <= -1 /\
    2 ^ 52 <= Zpos m < 2 ^ 53 /\
    (Zpos m - 1) * Zpos den <= num * 2 ^ (- e) /\
    num * 2 ^ (- e) < (Zpos m + 1) * Zpos den.
Proof.
  intros Hnum Hlow Hhigh. unfold of_Q.
  pose proof (Qred_correct (Qmake num den)) as Hred.
  destruct (Qred (Qmake num den)) as [n d].
  unfold Qeq in Hred. cbn [Qnum Qden] in Hred.
  destruct n as [|n|n]; try lia.
  pose proof (digits2_bounds n) as Hn.
  pose proof (digits2_bounds d) as Hd.
  set (dn := Zpos (digits2_pos n)) in *.
  set (dd := Zpos (digits2_pos d)) in *.
  assert (Hdn : 0 < dn) by (unfold dn; lia).
  assert (Hdd : 0 < dd) by (unfold dd; lia).
  assert (Hlow' : Zpos d <= Zpos n * 2 ^ 1020)
    by (apply (cross_le _ (Zpos den) num); (lia || assumption)).
  assert (Hhigh' : Zpos n < Zpos d * 2 ^ 49)
    by (apply (cross_lt _ (Zpos den) num); (lia || assumption)).
  assert (Hrange : -1021 <= dn - dd <= 50).
  { split.
    - destruct (Z_lt_le_dec (dn - dd) (-1021)) as [Hc|]; [exfalso | assumption].
      assert (2 ^ dn * 2 ^ 1020 <= 2 ^ (dd - 1)).
      { rewrite <- pow2_split by lia. apply Z.pow_le_mono_r; lia. }
      assert (Zpos n * 2 ^ 1020 < 2 ^ dn * 2 ^ 1020)
        by (apply Z.mul_lt_mono_pos_r; lia).
      lia.
    - destruct (Z_lt_le_dec 50 (dn - dd)) as [Hc|]; [exfalso | lia].
      assert (2 ^ dd * 2 ^ 49 <= 2 ^ (dn - 1)).
      { rewrite <- pow2_split by lia. apply Z.pow_le_mono_r; lia. }
      assert (Zpos d * 2 ^ 49 < 2 ^ dd * 2 ^ 49)
        by (apply Z.mul_lt_mono_pos_r; lia).
      lia. }
  destruct (div_exact_bracket n d Hrange) as (m & e & E & He & Hm & Hlo & Hhi).
  fold dn dd in He.
  exists m, e. split; [exact E|]. split; [lia|].
  split; [exact Hm|].
  split.
  - apply (cross_le_l (Zpos n) (Zpos den) num (Zpos d)); (lia || assumption).
  - apply (cross_lt_r (Zpos n) (Zpos den) num (Zpos d)); (lia || assumption).
Qed.

(** ** Decimal digits *)

Lemma digits_value_app (a : Z) (x y : jsstring) :
  digits_value a (x ++ y) = digits_value (digits_value a x) y.
Proof.
  revert a. induction x as [|c x IH]; intros a; [reflexivity|].
  cbn [app digits_value]. destruct (is_digit c); apply IH.
Qed.

Lemma is_digit_char (d : Z) : 0 <= d < 10 -> is_digit (48 + d) = true.
Proof.
  intros H. unfold is_digit. apply andb_true_iff.
  split; apply Z.leb_le; lia.
Qed.

Lemma digits_fuel_spec (fuel : nat) (n : Z) (acc : jsstring) :
  0 <= n -> n < 10 ^ Z.of_nat fuel -> (0 < fuel)%nat ->
  exists ds,
    digits_fuel fuel n acc = ds ++ acc /\
    ds <> [] /\
    forallb is_digit ds = true /\
    (forall a, digits_value a ds = a * 10 ^ Z.of_nat (List.length ds) + n) /\
    10 ^ (Z.of_nat (List.length ds) - 1) <= Z.max n 1
      < 10 ^ Z.of_nat (List.length ds).
Proof.
  revert n acc. induction fuel as [|fuel IH]; intros n acc Hn Hlt Hfuel; [lia|].
  cbn [digits_fuel].
  pose proof (Z.div_mod n 10 ltac:(lia)) as Hdm.
  pose proof (Z.mod_pos_bound n 10 ltac:(lia)) as Hmod.
  destruct (n / 10 =? 0) eqn:Eq.
  - apply Z.eqb_eq in Eq.
    exists [48 + n mod 10]. split; [reflexivity|]. split; [discriminate|].
    split; [cbn [forallb]; rewrite is_digit_char by lia; reflexivity|].
    split.
    + intros a. cbn [digits_value List.length].
      rewrite is_digit_char by lia. unfold digit_value.
      change (10 ^ Z.of_nat 1) with 10. lia.
    + cbn [List.length]. change (10 ^ (Z.of_nat 1 - 1)) with 1.
      change (10 ^ Z.of_nat 1) with 10. lia.
  - apply Z.eqb_neq in Eq.
    assert (Hq : 0 < n / 10) by (pose proof (Z.div_pos n 10); lia).
    assert (Hfuel' : (0 < fuel)%nat).
    { destruct fuel; [|lia]. change (10 ^ Z.of_nat 1) with 10 in Hlt. lia. }
    assert (Hlt' : n / 10 < 10 ^ Z.of_nat fuel).
    { rewrite Nat2Z.inj_succ, Z.pow_succ_r in Hlt by lia. lia. }
    destruct (IH (n / 10) ((48 + n mod 10) :: acc) ltac:(lia) Hlt' Hfuel')
      as (ds & E & Hne & Hall & Hval & Hlen).
    exists (ds ++ [48 + n mod 10]).
    split; [rewrite E, <- app_assoc; reflexivity|].
    split; [destruct ds; discriminate|].
    split.
    { rewrite forallb_app, Hall. cbn [forallb].
      rewrite is_digit_char by lia. reflexivity. }
    rewrite length_app. cbn [List.length].
    rewrite Nat2Z.inj_add. change (Z.of_nat 1) with 1.
    set (len := Z.of_nat (List.length ds)) in *.
    assert (Hlen0 : 0 <= len) by (unfold len; lia).
    rewrite Z.pow_add_r by lia. change (10 ^ 1) with 10.
    split.
    + intros a. rewrite digits_value_app, Hval. cbn [digits_value].
      rewrite is_digit_char by lia. unfold digit_value. lia.
    + replace (len + 1 - 1) with (Z.succ (len - 1)) by lia.
      assert (Hlen1 : 0 < len).
      { unfold len. destruct ds; [congruence | cbn [List.length]; lia]. }
      rewrite Z.pow_succ_r by lia.
      replace (10 ^ len) with (10 * 10 ^ (len - 1)) in *
        by (rewrite <- Z.pow_succ_r by lia; f_equal; lia).
      lia.
Qed.

Lemma pow_2_le_10 (k : Z) : 0 <= k -> 2 ^ k <= 10 ^ k.
Proof. intros H. apply Z.pow_le_mono_l. lia. Qed.

Lemma lt_pow10_log2 (n : Z) : 0 <= n -> n < 10 ^ Z.of_nat (S (Z.to_nat (Z.log2 n))).
Proof.
  intros Hn. rewrite Nat2Z.inj_succ, Z2Nat.id by apply Z.log2_nonneg.
  destruct (Z.eq_dec n 0) as [->|Hne]; [reflexivity|].
  pose proof (Z.log2_spec n ltac:(lia)) as [_ H].
  pose proof (pow_2_le_10 (Z.succ (Z.log2 n))
                ltac:(pose proof (Z.log2_nonneg n); lia)).
  lia.
Qed.

(** The digits of a non-negative integer. *)
Lemma digits_spec (n : Z) :
  0 <= n ->
  digits n <> [] /\
  forallb is_digit (digits n) = true /\
  (forall a, digits_value a (digits n)
             = a * 10 ^ Z.of_nat (List.length (digits n)) + n) /\
  10 ^ (Z.of_nat (List.length (digits n)) - 1) <= Z.max n 1
    < 10 ^ Z.of_nat (List.length (digits n)).
Proof.
  intros Hn. unfold digits.
  destruct (digits_fuel_spec (S (Z.to_nat (Z.log2 n))) n [] Hn
              (lt_pow10_log2 n Hn) ltac:(lia))
    as (ds & E & H).
  rewrite E, app_nil_r. exact H.
Qed.

(** An integer of [k] digits is written with [k] digits. *)
Lemma digits_length (n k : Z) :
  10 ^ (k - 1) <= n < 10 ^ k -> 0 < k ->
  Z.of_nat (List.length (digits n)) = k.
Proof.
  intros Hn Hk.
  assert (Hpos : 0 < n).
  { assert (0 < 10 ^ (k - 1)) by (apply Z.pow_pos_nonneg; lia). lia. }
  destruct (digits_spec n ltac:(lia)) as (Hne & _ & _ & Hlen).
  rewrite Z.max_l in Hlen by lia.
  set (len := Z.of_nat (List.length (digits n))) in *.
  assert (Hlen1 : 0 < len).
  { unfold len. destruct (digits n); [congruence | cbn [List.length]; lia]. }
  destruct (Z.lt_trichotomy len k) as [Hc | [Hc | Hc]]; [exfalso | exact Hc | exfalso].
  - assert (10 ^ len <= 10 ^ (k - 1)) by (apply Z.pow_le_mono_r; lia). lia.
  - assert (10 ^ k <= 10 ^ (len - 1)) by (apply Z.pow_le_mono_r; lia). lia.
Qed.

Lemma digits_value_digits (n : Z) : 0 <= n -> digits_value 0 (digits n) = n.
Proof.
  intros Hn. destruct (digits_spec n Hn) as (_ & _ & Hval & _).
  rewrite Hval. lia.
Qed.

(** ** Powers of ten *)

Local Open Scope Q_scope.

Lemma ten_not_zero : ~ (10 # 1) == 0.
Proof. intros H. discriminate H. Qed.

Lemma pow10_pos (k : Z) : 0 < pow10 k.
Proof. apply Qpower_0_lt. reflexivity. Qed.

Lemma pow10_add (a b : Z) : pow10 (a + b) == pow10 a * pow10 b.
Proof. apply Qpower_plus. exact ten_not_zero. Qed.

Lemma pow10_0 : pow10 0 == 1.
Proof. reflexivity. Qed.

Lemma pow10_1 : pow10 1 == 10 # 1.
Proof. reflexivity. Qed.

Lemma pow10_succ (k : Z) : pow10 (k + 1) == (10 # 1) * pow10 k.
Proof. rewrite pow10_add, pow10_1. ring. Qed.

Lemma pow10_pred (k : Z) : pow10 (k - 1) * (10 # 1) == pow10 k.
Proof.
  replace k with ((k - 1) + 1)%Z at 2 by lia.
  rewrite pow10_add, pow10_1. ring.
Qed.

Lemma pow10_inject (k : Z) : (0 <= k)%Z -> pow10 k == inject_Z (10 ^ k).
Proof. intros H. unfold pow10. rewrite Zpower_Qpower by exact H. reflexivity. Qed.

Lemma pow10_le (a b : Z) : (a <= b)%Z -> pow10 a <= pow10 b.
Proof.
  intros H. apply Qpower_le_compat_l; [exact H | discriminate].
Qed.

Lemma pow10_lt (a b : Z) : (a < b)%Z -> pow10 a < pow10 b.
Proof.
  intros H. apply Qpower_lt_compat_l; [exact H | reflexivity].
Qed.

Lemma pow10_lt_inv (a b : Z) : pow10 a < pow10 b -> (a < b)%Z.
Proof.
  intros H. apply (Qpower_lt_compat_l_inv (10 # 1)); [exact H | reflexivity].
Qed.

Lemma pow10_opp (k : Z) : pow10 k * pow10 (- k) == 1.
Proof. rewrite <- pow10_add. replace (k + - k)%Z with 0%Z by lia. reflexivity. Qed.

(** Multiplication by a power of ten, in an inequality. *)
Lemma pow10_le_shift (x y : Q) (k : Z) : x * pow10 k <= y <-> x <= y * pow10 (- k).
Proof.
  pose proof (pow10_pos k) as Hk. pose proof (pow10_pos (- k)) as Hk'.
  pose proof (pow10_opp k) as Ho.
  split; intros H.
  - assert (E : x == x * pow10 k * pow10 (- k)) by (rewrite <- Qmult_assoc, Ho; ring).
    rewrite E. apply Qmult_le_compat_r; [exact H | apply Qlt_le_weak; exact Hk'].
  - assert (E : y == y * pow10 (- k) * pow10 k)
      by (rewrite <- Qmult_assoc, (Qmult_comm (pow10 (- k))), Ho; ring).
    rewrite E. apply Qmult_le_compat_r; [exact H | apply Qlt_le_weak; exact Hk].
Qed.

Lemma pow10_lt_shift (x y : Q) (k : Z) : x * pow10 k < y <-> x < y * pow10 (- k).
Proof.
  pose proof (pow10_pos k) as Hk. pose proof (pow10_pos (- k)) as Hk'.
  pose proof (pow10_opp k) as Ho.
  split; intros H.
  - assert (E : x == x * pow10 k * pow10 (- k)) by (rewrite <- Qmult_assoc, Ho; ring).
    rewrite E. apply Qmult_lt_compat_r; [exact Hk' | exact H].
  - assert (E : y == y * pow10 (- k) * pow10 k)
      by (rewrite <- Qmult_assoc, (Qmult_comm (pow10 (- k))), Ho; ring).
    rewrite E. apply Qmult_lt_compat_r; [exact Hk | exact H].
Qed.

(** ** The decimal exponent *)

Lemma ilog10_up_spec (fuel : nat) (q : Q) (k : Z) :
  1 <= q -> q < pow10 (Z.of_nat fuel) ->
  (k <= ilog10_up fuel q k)%Z /\
  pow10 (ilog10_up fuel q k - k) <= q < pow10 (ilog10_up fuel q k - k + 1).
Proof.
  revert q k. induction fuel as [|fuel IH]; intros q k H1 Hlt.
  - change (pow10 (Z.of_nat 0)) with (pow10 0) in Hlt. rewrite pow10_0 in Hlt. lra.
  - cbn [ilog10_up]. destruct (Qle_bool (10 # 1) q) eqn:E.
    + apply Qle_bool_iff in E.
      assert (H1' : 1 <= q / (10 # 1)).
      { apply Qle_shift_div_l; [reflexivity | lra]. }
      assert (Hlt' : q / (10 # 1) < pow10 (Z.of_nat fuel)).
      { apply Qlt_shift_div_r; [reflexivity|].
        rewrite Nat2Z.inj_succ in Hlt. unfold Z.succ in Hlt.
        rewrite pow10_succ in Hlt. lra. }
      destruct (IH (q / (10 # 1)) (k + 1)%Z H1' Hlt') as (Hk & Hlo & Hhi).
      set (r := ilog10_up fuel (q / (10 # 1)) (k + 1)) in *.
      split; [lia|].
      replace (r - k)%Z with ((r - (k + 1)) + 1)%Z by lia.
      set (j := (r - (k + 1))%Z) in *.
      rewrite (pow10_succ (j + 1)), (pow10_succ j).
      rewrite (pow10_succ j) in Hhi.
      assert (Hq : q == (10 # 1) * (q / (10 # 1))) by (field).
      split; lra.
    + assert (Hq : q < 10 # 1).
      { apply Qnot_le_lt. intros Hc. apply Qle_bool_iff in Hc. congruence. }
      split; [lia|]. replace (k - k)%Z with 0%Z by lia.
      change (pow10 (0 + 1)) with (pow10 1). rewrite pow10_0, pow10_1.
      split; assumption.
Qed.

Lemma ilog10_down_spec (fuel : nat) (q : Q) (k : Z) :
  0 < q -> q < 10 # 1 -> 1 <= q * pow10 (Z.of_nat fuel - 1) ->
  (ilog10_down fuel q k <= k)%Z /\
  1 <= q * pow10 (k - ilog10_down fuel q k) < 10 # 1.
Proof.
  revert q k. induction fuel as [|fuel IH]; intros q k H0 H10 Hf.
  - exfalso. change (Z.of_nat 0 - 1)%Z with (-1)%Z in Hf.
    assert (E : pow10 (-1) == 1 # 10) by reflexivity.
    rewrite E in Hf. lra.
  - cbn [ilog10_down]. destruct (Qle_bool 1 q) eqn:E.
    + apply Qle_bool_iff in E. split; [lia|].
      replace (k - k)%Z with 0%Z by lia. rewrite pow10_0. lra.
    + assert (Hq : q < 1).
      { apply Qnot_le_lt. intros Hc. apply Qle_bool_iff in Hc. congruence. }
      assert (Hf' : 1 <= q * (10 # 1) * pow10 (Z.of_nat fuel - 1)).
      { rewrite <- Qmult_assoc, (Qmult_comm (10 # 1)), pow10_pred.
        replace (Z.of_nat (S fuel) - 1)%Z with (Z.of_nat fuel) in Hf by lia.
        exact Hf. }
      destruct (IH (q * (10 # 1)) (k - 1)%Z ltac:(lra) ltac:(lra) Hf')
        as (Hk & Hb).
      set (r := ilog10_down fuel (q * (10 # 1)) (k - 1)) in *.
      split; [lia|].
      assert (Ep : q * pow10 (k - r) == q * (10 # 1) * pow10 (k - 1 - r)).
      { replace (k - r)%Z with ((k - 1 - r) + 1)%Z by lia.
        rewrite pow10_succ. ring. }
      rewrite Ep. exact Hb.
Qed.

Lemma Q_le_num (q : Q) : (0 < Qnum q)%Z -> q <= inject_Z (Qnum q).
Proof.
  intros H. destruct q as [n d]. unfold Qle, inject_Z. cbn [Qnum Qden] in *.
  nia.
Qed.

Lemma Q_ge_inv_den (q : Q) : (0 < Qnum q)%Z -> 1 <= q * inject_Z (Zpos (Qden q)).
Proof.
  intros H. destruct q as [n d]. unfold Qle, Qmult, inject_Z.
  cbn [Qnum Qden] in *. nia.
Qed.

Lemma Q_pos_num (q : Q) : 0 < q <-> (0 < Qnum q)%Z.
Proof. destruct q as [n d]. unfold Qlt. cbn [Qnum Qden]. lia. Qed.

(** [ilog10 q] is the decimal exponent of a positive rational. *)
Lemma ilog10_spec (q : Q) :
  0 < q -> pow10 (ilog10 q) <= q < pow10 (ilog10 q + 1).
Proof.
  intros Hq. pose proof (proj1 (Q_pos_num q) Hq) as Hn. unfold ilog10.
  destruct (Qle_bool 1 q) eqn:E.
  - apply Qle_bool_iff in E.
    assert (Hlt : q < pow10 (Z.of_nat (S (Z.to_nat (Z.log2 (Qnum q)))))).
    { apply Qle_lt_trans with (inject_Z (Qnum q)); [apply Q_le_num; exact Hn|].
      rewrite pow10_inject by lia. rewrite <- Zlt_Qlt.
      apply lt_pow10_log2. lia. }
    destruct (ilog10_up_spec _ q 0%Z E Hlt) as (_ & H).
    rewrite Z.sub_0_r in H. exact H.
  - assert (Hq1 : q < 1).
    { apply Qnot_le_lt. intros Hc. apply Qle_bool_iff in Hc. congruence. }
    set (f := S (S (Z.to_nat (Z.log2 (Zpos (Qden q)))))).
    assert (Hf : 1 <= q * pow10 (Z.of_nat f - 1)).
    { apply Qle_trans with (q * inject_Z (Zpos (Qden q)));
        [apply Q_ge_inv_den; exact Hn|].
      apply Qmult_le_l; [exact Hq|].
      rewrite pow10_inject by lia. rewrite <- Zle_Qle.
      replace (Z.of_nat f - 1)%Z
        with (Z.of_nat (S (Z.to_nat (Z.log2 (Zpos (Qden q)))))) by (unfold f; lia).
      apply Z.lt_le_incl. apply lt_pow10_log2. lia. }
    destruct (ilog10_down_spec f q 0%Z Hq ltac:(lra) Hf) as (Hk & Hlo & Hhi).
    set (r := ilog10_down f q 0) in *.
    replace (0 - r)%Z with (- r)%Z in * by lia.
    split.
    + apply pow10_le_shift in Hlo. rewrite Qmult_1_l in Hlo. exact Hlo.
    + rewrite pow10_succ. apply pow10_lt_shift in Hhi.
      rewrite Z.opp_involutive in Hhi. exact Hhi.
Qed.

(** ** Rounding to [p] significant digits *)

Lemma scaled_round_bounds (q : Q) (j : Z) :
  q * pow10 j - (1 # 2) < inject_Z (scaled_round q j)
  /\ inject_Z (scaled_round q j) <= q * pow10 j + (1 # 2).
Proof.
  unfold scaled_round.
  pose proof (Qfloor_le (q * pow10 j + (1 # 2))) as H1.
  pose proof (Qlt_floor (q * pow10 j + (1 # 2))) as H2.
  rewrite inject_Z_plus in H2. change (inject_Z 1) with 1 in H2.
  split; lra.
Qed.

Lemma scaled_floor_bounds (q : Q) (j : Z) :
  inject_Z (scaled_floor q j) <= q * pow10 j
  /\ q * pow10 j < inject_Z (scaled_floor q j) + 1.
Proof.
  unfold scaled_floor.
  pose proof (Qfloor_le (q * pow10 j)) as H1.
  pose proof (Qlt_floor (q * pow10 j)) as H2.
  rewrite inject_Z_plus in H2. change (inject_Z 1) with 1 in H2.
  split; lra.
Qed.

(** An integer within a half of a rational above an integer is above it. *)
Lemma Zle_of_Qlt_half (a n : Z) (x : Q) :
  inject_Z a <= x -> x - (1 # 2) < inject_Z n -> (a <= n)%Z.
Proof.
  intros Ha Hn.
  destruct (Z_lt_le_dec n a) as [Hc|]; [exfalso | assumption].
  assert (inject_Z n + 1 <= inject_Z a).
  { change 1 with (inject_Z 1). rewrite <- inject_Z_plus, <- Zle_Qle. lia. }
  lra.
Qed.

Lemma Zle_of_Qle_half (b n : Z) (x : Q) :
  x < inject_Z b -> inject_Z n <= x + (1 # 2) -> (n <= b)%Z.
Proof.
  intros Hb Hn.
  destruct (Z_lt_le_dec b n) as [Hc|]; [exfalso | assumption].
  assert (inject_Z b + 1 <= inject_Z n).
  { change 1 with (inject_Z 1). rewrite <- inject_Z_plus, <- Zle_Qle. lia. }
  lra.
Qed.

Lemma scaled_range (q : Q) (p : Z) :
  0 < q ->
  pow10 (p - 1) <= q * pow10 (p - 1 - ilog10 q) < pow10 p.
Proof.
  intros Hq. destruct (ilog10_spec q Hq) as [Hlo Hhi].
  set (e0 := ilog10 q) in *.
  pose proof (pow10_pos (p - 1 - e0)) as Hj.
  split.
  - replace (p - 1)%Z with (e0 + (p - 1 - e0))%Z at 1 by lia.
    rewrite pow10_add. apply Qmult_le_compat_r; [exact Hlo | lra].
  - replace p with ((e0 + 1) + (p - 1 - e0))%Z at 2 by lia.
    rewrite pow10_add. apply Qmult_lt_compat_r; assumption.
Qed.

(** The decimal exponent and the [p] digits of a positive rational. *)
Lemma scientific_spec (p : Z) (q : Q) (ex n : Z) :
  0 < q -> (1 <= p)%Z -> scientific p q = (ex, n) ->
  (10 ^ (p - 1) <= n < 10 ^ p)%Z /\
  (ex = ilog10 q \/ ex = (ilog10 q + 1)%Z /\ n = (10 ^ (p - 1))%Z) /\
  decimal n (ex - p + 1) - q <= (1 # 2) * pow10 (ilog10 q - p + 1) /\
  q - decimal n (ex - p + 1) <= (1 # 2) * pow10 (ilog10 q - p + 1).
Proof.
  intros Hq Hp Hsci. unfold scientific in Hsci.
  destruct (scaled_range q p Hq) as [Hlo Hhi].
  destruct (scaled_round_bounds q (p - 1 - ilog10 q)) as [Hr1 Hr2].
  set (e0 := ilog10 q) in *.
  set (x := q * pow10 (p - 1 - e0)) in *.
  set (nr := scaled_round q (p - 1 - e0)) in *.
  rewrite pow10_inject in Hlo by lia. rewrite pow10_inject in Hhi by lia.
  assert (Hn1 : (10 ^ (p - 1) <= nr)%Z) by (eapply Zle_of_Qlt_half; eassumption).
  assert (Hn2 : (nr <= 10 ^ p)%Z) by (eapply Zle_of_Qle_half; eassumption).
  assert (Hu : 0 < pow10 (e0 - p + 1)) by apply pow10_pos.
  assert (Hx : x * pow10 (e0 - p + 1) == q).
  { unfold x. rewrite <- Qmult_assoc, <- pow10_add.
    replace (p - 1 - e0 + (e0 - p + 1))%Z with 0%Z by lia.
    rewrite pow10_0. ring. }
  assert (Hclose : inject_Z nr * pow10 (e0 - p + 1) - q
                   <= (1 # 2) * pow10 (e0 - p + 1)
                   /\ q - inject_Z nr * pow10 (e0 - p + 1)
                      <= (1 # 2) * pow10 (e0 - p + 1)).
  { rewrite <- Hx. split; nra. }
  assert (Hpp : (10 ^ p = 10 * 10 ^ (p - 1))%Z).
  { replace p with (Z.succ (p - 1)) at 1 by lia. apply Z.pow_succ_r. lia. }
  destruct (nr =? 10 ^ p)%Z eqn:E.
  - apply Z.eqb_eq in E. injection Hsci as <- <-.
    assert (H10p : (0 < 10 ^ (p - 1))%Z) by (apply Z.pow_pos_nonneg; lia).
    split; [lia|]. split; [right; split; reflexivity|].
    assert (Ed : decimal (10 ^ (p - 1)) (e0 + 1 - p + 1)
                 == inject_Z nr * pow10 (e0 - p + 1)).
    { unfold decimal. rewrite E, Hpp, inject_Z_mult.
      replace (e0 + 1 - p + 1)%Z with ((e0 - p + 1) + 1)%Z by lia.
      rewrite pow10_succ. change (inject_Z 10) with (10 # 1). ring. }
    rewrite Ed. exact Hclose.
  - apply Z.eqb_neq in E. injection Hsci as <- <-.
    split; [lia|]. split; [left; reflexivity|].
    unfold decimal. exact Hclose.
Qed.

Local Close Scope Q_scope.

(** ** The Number value of a rational, in rational terms *)

Local Open Scope Q_scope.

Lemma pow2_pos (e : Z) : 0 < Qpower (2 # 1) e.
Proof. apply Qpower_0_lt. reflexivity. Qed.

Lemma pow2_opp_inject (e : Z) :
  (e <= 0)%Z -> Qpower (2 # 1) e * inject_Z (2 ^ (- e)) == 1.
Proof.
  intros He. rewrite Zpower_Qpower by lia. change (inject_Z 2) with (2 # 1).
  rewrite <- Qpower_plus by (intros H; discriminate H).
  replace (e + - e)%Z with 0%Z by lia. reflexivity.
Qed.

(** The Number value of a rational [q] between [2^-1020] and [2^49]: a
    positive normal number [m * 2^e], at a relative distance of [2^-51] from
    [q] at most. *)
Lemma of_Q_close (q : Q) :
  1 <= q * inject_Z (2 ^ 1020) -> q < inject_Z (2 ^ 49) ->
  exists m e,
    of_Q q = S754_finite false m e /\
    (-1074 <= e <= -1)%Z /\
    (2 ^ 52 <= Zpos m < 2 ^ 53)%Z /\
    magnitude m e <= q + q * (1 # 2 ^ 51) /\
    q - q * (1 # 2 ^ 51) <= magnitude m e.
Proof.
  intros Hlow Hhigh. destruct q as [num den].
  assert (Hl : (Zpos den <= num * 2 ^ 1020)%Z).
  { unfold Qle, Qmult, inject_Z in Hlow. cbn [Qnum Qden] in Hlow.
    rewrite Pos.mul_1_r in Hlow. lia. }
  assert (Hnum : (0 < num)%Z).
  { assert (0 < 2 ^ 1020)%Z by (apply Z.pow_pos_nonneg; lia).
    destruct (Z_lt_le_dec 0 num) as [|Hc]; [assumption | exfalso].
    assert (num * 2 ^ 1020 <= 0 * 2 ^ 1020)%Z
      by (apply Z.mul_le_mono_nonneg_r; lia).
    lia. }
  assert (Hh : (num < Zpos den * 2 ^ 49)%Z).
  { unfold Qlt, inject_Z in Hhigh. cbn [Qnum Qden] in Hhigh.
    rewrite Z.mul_1_r in Hhigh. lia. }
  destruct (of_Q_bracket num den Hnum Hl Hh) as (m & e & E & He & Hm & Hlo & Hhi).
  exists m, e. split; [exact E|]. split; [exact He|]. split; [exact Hm|].
  pose proof (pow2_pos e) as HP. pose proof (pow2_opp_inject e ltac:(lia)) as HPP.
  unfold magnitude.
  set (P := Qpower (2 # 1) e) in *.
  set (P' := inject_Z (2 ^ (- e))) in *.
  set (q := num # den) in *.
  assert (HP' : 0 < P').
  { unfold P'. change 0 with (inject_Z 0). rewrite <- Zlt_Qlt.
    apply Z.pow_pos_nonneg; lia. }
  (* the integer bracket, in rational terms *)
  assert (Hq1 : inject_Z (Zpos m) - 1 <= q * P').
  { unfold q, P', Qle, Qmult, Qminus, Qplus, Qopp, inject_Z.
    cbn [Qnum Qden]. rewrite !Z.mul_1_r, Pos.mul_1_r.
    replace (Z.pos m + -1)%Z with (Z.pos m - 1)%Z by lia. exact Hlo. }
  assert (Hq2 : q * P' < inject_Z (Zpos m) + 1).
  { unfold q, P', Qlt, Qmult, Qplus, inject_Z.
    cbn [Qnum Qden]. rewrite !Z.mul_1_r, Pos.mul_1_r. exact Hhi. }
  assert (Hq : q == q * P' * P)
    by (rewrite <- Qmult_assoc, (Qmult_comm P'), HPP; ring).
  assert (Hm52 : inject_Z (2 ^ 52) <= inject_Z (Zpos m))
    by (rewrite <- Zle_Qle; lia).
  assert (Hb1 : inject_Z (Zpos m) * P - P <= q).
  { rewrite Hq.
    assert ((inject_Z (Zpos m) - 1) * P <= q * P' * P)
      by (apply Qmult_le_compat_r; [exact Hq1 | lra]).
    lra. }
  assert (Hb2 : q <= inject_Z (Zpos m) * P + P).
  { rewrite Hq.
    assert (q * P' * P <= (inject_Z (Zpos m) + 1) * P)
      by (apply Qmult_le_compat_r; [lra | lra]).
    lra. }
  assert (Hulp : inject_Z (2 ^ 52) * P <= inject_Z (Zpos m) * P)
    by (apply Qmult_le_compat_r; [exact Hm52 | lra]).
  set (M := inject_Z (Zpos m) * P) in *.
  assert (E52 : inject_Z (2 ^ 52) == 4503599627370496 # 1) by reflexivity.
  rewrite E52 in Hulp.
  change (1 # 2 ^ 51) with (1 # 2251799813685248).
  split; lra.
Qed.

Local Close Scope Q_scope.

(** ** Strings of digits *)

Lemma zeros_succ_r (z : nat) : zeros z ++ [chr "0"] = zeros (S z).
Proof.
  unfold zeros. induction z as [|z IH]; [reflexivity|].
  cbn [repeat app]. rewrite IH. reflexivity.
Qed.

Lemma zeros_all_digits (z : nat) : forallb is_digit (zeros z) = true.
Proof. induction z as [|z IH]; [reflexivity | exact IH]. Qed.

Lemma zeros_all_zero (z : nat) : forallb is_zero_digit (zeros z) = true.
Proof. induction z as [|z IH]; [reflexivity | exact IH]. Qed.

Lemma zeros_length (z : nat) : List.length (zeros z) = z.
Proof. apply repeat_length. Qed.

Lemma zero_digit_is_digit (c : char) : is_zero_digit c = true -> is_digit c = true.
Proof.
  unfold is_zero_digit, char_eqb. intros H. apply Z.eqb_eq in H. subst c.
  reflexivity.
Qed.

Lemma all_zero_is_zeros (s : jsstring) :
  forallb is_zero_digit s = true -> s = zeros (List.length s).
Proof.
  induction s as [|c s IH]; [reflexivity|].
  cbn [forallb]. intros H. apply andb_true_iff in H. destruct H as [Hc Hs].
  unfold is_zero_digit, char_eqb in Hc. apply Z.eqb_eq in Hc. subst c.
  cbn [List.length]. unfold zeros. cbn [repeat]. f_equal. apply IH. exact Hs.
Qed.

Lemma digits_value_zeros (a : Z) (z : nat) :
  digits_value a (zeros z) = a * 10 ^ Z.of_nat z.
Proof.
  revert a. induction z as [|z IH]; intros a.
  - cbn. lia.
  - change (zeros (S z)) with (chr "0" :: zeros z).
    cbn [digits_value]. change (is_digit (chr "0")) with true. cbv iota.
    rewrite IH. unfold digit_value. change (chr "0" - 48) with 0.
    rewrite Nat2Z.inj_succ, Z.pow_succ_r by lia. ring.
Qed.

(** The value of a string of digits after the digits [a]. *)
Lemma digits_value_shift (a : Z) (s : jsstring) :
  forallb is_digit s = true ->
  digits_value a s = a * 10 ^ Z.of_nat (List.length s) + digits_value 0 s.
Proof.
  revert a. induction s as [|c s IH]; intros a Hs.
  - cbn. lia.
  - cbn [forallb] in Hs. apply andb_true_iff in Hs. destruct Hs as [Hc Hs].
    cbn [digits_value List.length]. rewrite Hc.
    rewrite (IH (10 * a + digit_value c) Hs), (IH (10 * 0 + digit_value c) Hs).
    rewrite Nat2Z.inj_succ, Z.pow_succ_r by lia. ring.
Qed.

Lemma digits_value_nonneg (a : Z) (s : jsstring) :
  0 <= a -> 0 <= digits_value a s.
Proof.
  revert a. induction s as [|c s IH]; intros a Ha; [exact Ha|].
  cbn [digits_value]. destruct (is_digit c) eqn:E; [|apply IH; exact Ha].
  apply IH. unfold is_digit in E. apply andb_true_iff in E.
  destruct E as [E1 E2]. apply Z.leb_le in E1. unfold digit_value. lia.
Qed.

(** A point inside a string counts for nothing in its digits. *)
Lemma digits_value_point (a : Z) (i f : jsstring) :
  digits_value a (i ++ chr "." :: f) = digits_value a (i ++ f).
Proof.
  rewrite !digits_value_app. reflexivity.
Qed.

Lemma fraction_length_point (i f : jsstring) :
  forallb is_digit i = true ->
  fraction_length (i ++ chr "." :: f) = List.length f.
Proof.
  induction i as [|c i IH]; intros Hi; [reflexivity|].
  cbn [forallb] in Hi. apply andb_true_iff in Hi. destruct Hi as [Hc Hi].
  cbn [app fraction_length]. rewrite (digit_not_dot c Hc). apply IH. exact Hi.
Qed.

Lemma fraction_length_digits (s : jsstring) :
  forallb is_digit s = true -> fraction_length s = O.
Proof.
  induction s as [|c s IH]; intros Hs; [reflexivity|].
  cbn [forallb] in Hs. apply andb_true_iff in Hs. destruct Hs as [Hc Hs].
  cbn [fraction_length]. rewrite (digit_not_dot c Hc). apply IH. exact Hs.
Qed.

Lemma digits_are_digits_or_dots (s : jsstring) :
  forallb is_digit s = true -> forallb is_digit_or_dot s = true.
Proof.
  induction s as [|c s IH]; intros Hs; [reflexivity|].
  cbn [forallb] in Hs |- *. apply andb_true_iff in Hs. destruct Hs as [Hc Hs].
  rewrite (IH Hs). unfold is_digit_or_dot. rewrite Hc. reflexivity.
Qed.

Lemma count_dots_digits (s : jsstring) :
  forallb is_digit s = true -> count_dots s = O.
Proof. apply all_digits_no_dot. Qed.

Lemma count_dots_app (a b : jsstring) :
  count_dots (a ++ b) = (count_dots a + count_dots b)%nat.
Proof. unfold count_dots. rewrite filter_app, length_app. reflexivity. Qed.

Lemma last_app_cons {A} (a : list A) (x : A) (b : list A) (d : A) :
  last (a ++ x :: b) d = last (x :: b) d.
Proof.
  induction a as [|y a IH]; [reflexivity|].
  cbn [app]. destruct (a ++ x :: b) as [|a0 l] eqn:E.
  - destruct a; discriminate E.
  - change (last (y :: a0 :: l) d) with (last (a0 :: l) d). exact IH.
Qed.

(** A string of digits is a valid run. *)
Lemma valid_run_digits (s : jsstring) :
  s <> [] -> forallb is_digit s = true -> valid_run s = true.
Proof.
  intros Hne Hs. unfold valid_run.
  rewrite (count_dots_digits s Hs).
  rewrite (all_digits_ends_with_digit s Hne Hs). reflexivity.
Qed.

(** So is a string of digits, a point and digits. *)
Lemma valid_run_point (i f : jsstring) :
  f <> [] -> forallb is_digit i = true -> forallb is_digit f = true ->
  valid_run (i ++ chr "." :: f) = true.
Proof.
  intros Hne Hi Hf. unfold valid_run.
  rewrite count_dots_app, (count_dots_digits i Hi).
  change (chr "." :: f) with ([chr "."] ++ f).
  rewrite count_dots_app, (count_dots_digits f Hf). cbn [Nat.add Nat.leb].
  unfold ends_with_digit. change ([chr "."] ++ f) with (chr "." :: f).
  rewrite last_app_cons.
  destruct f as [|c f]; [congruence|].
  change (last (chr "." :: c :: f) (chr ".")) with (last (c :: f) (chr ".")).
  apply (all_digits_ends_with_digit (c :: f)); [discriminate | exact Hf].
Qed.

Lemma forallb_digit_or_dot_point (i f : jsstring) :
  forallb is_digit i = true -> forallb is_digit f = true ->
  forallb is_digit_or_dot (i ++ chr "." :: f) = true.
Proof.
  intros Hi Hf. rewrite forallb_app. cbn [forallb].
  rewrite (digits_are_digits_or_dots i Hi), (digits_are_digits_or_dots f Hf).
  reflexivity.
Qed.

(** ** Evaluating a number *)

Lemma digit_or_dot_not_space (s : jsstring) :
  forallb is_digit_or_dot s = true -> forallb not_space s = true.
Proof.
  induction s as [|c s IH]; intros Hs; [reflexivity|].
  cbn [forallb] in Hs |- *. apply andb_true_iff in Hs. destruct Hs as [Hc Hs].
  rewrite (IH Hs), andb_true_r. unfold not_space.
  unfold is_digit_or_dot in Hc. apply orb_true_iff in Hc.
  destruct Hc as [Hc | Hc];
    [rewrite (digit_not_space c Hc) | rewrite (dot_not_space c Hc)]; reflexivity.
Qed.

Lemma filter_not_space_all (s : jsstring) :
  forallb not_space s = true -> filter not_space s = s.
Proof.
  induction s as [|c s IH]; intros Hs; [reflexivity|].
  cbn [forallb] in Hs. apply andb_true_iff in Hs. destruct Hs as [Hc Hs].
  cbn [filter]. rewrite Hc, (IH Hs). reflexivity.
Qed.

(** The scan of a valid run with a finite value. *)
Lemma tokenize_loop_number (fuel : nat) (raw rest : jsstring)
      (tokens : list token) (y : float64) :
  raw <> [] -> forallb is_digit_or_dot raw = true -> valid_run raw = true ->
  of_decimal raw = y -> isFinite y = true -> run_ends rest ->
  tokenize_loop (S fuel) (raw ++ rest) tokens
  = tokenize_loop fuel rest (tokens ++ [TNum y]).
Proof.
  intros Hne Hall Hvalid Hy Hfin Hrest.
  rewrite tokenize_loop_run by assumption.
  rewrite re_number_spec by exact Hall. fold (valid_run raw).
  rewrite Hvalid, Hy, Hfin. reflexivity.
Qed.

Lemma tokenize_loop_e (fuel : nat) (tail : jsstring) (tokens : list token) :
  tokenize_loop (S fuel) (chr "e" :: tail) tokens
  = Err (UnexpectedCharacter (chr "e")).
Proof. reflexivity. Qed.

Lemma tokenize_loop_minus (fuel : nat) (s : jsstring) (tokens : list token) :
  tokenize_loop (S fuel) (chr "-" :: s) tokens
  = tokenize_loop fuel s (tokens ++ [TOp Sub]).
Proof. reflexivity. Qed.

(** A valid run with a finite value evaluates to that value. *)
Lemma evaluate_number (raw : jsstring) (y : float64) :
  raw <> [] -> forallb is_digit_or_dot raw = true -> valid_run raw = true ->
  of_decimal raw = y -> isFinite y = true ->
  evaluate raw = Ok y.
Proof.
  intros Hne Hall Hvalid Hy Hfin. unfold evaluate.
  rewrite tokenize_no_space
    by (apply filter_not_space_all, digit_or_dot_not_space; exact Hall).
  destruct raw as [|c raw'] eqn:E; [congruence|]. rewrite <- E in *.
  replace (List.length raw) with (S (List.length raw')) by (rewrite E; reflexivity).
  rewrite <- (app_nil_r raw) at 1.
  rewrite (tokenize_loop_number _ raw [] [] y) by (assumption || exact I).
  destruct (List.length raw'); reflexivity.
Qed.

(** After a minus sign, to the opposite value. *)
Lemma evaluate_negative_number (raw : jsstring) (y : float64) :
  raw <> [] -> forallb is_digit_or_dot raw = true -> valid_run raw = true ->
  of_decimal raw = y -> isFinite y = true ->
  evaluate (chr "-" :: raw) = Ok (neg y).
Proof.
  intros Hne Hall Hvalid Hy Hfin. unfold evaluate.
  rewrite tokenize_no_space.
  2:{ apply filter_not_space_all. cbn [forallb].
      rewrite (digit_or_dot_not_space raw Hall). reflexivity. }
  cbn [List.length]. rewrite tokenize_loop_minus.
  destruct raw as [|c raw'] eqn:E; [congruence|]. rewrite <- E in *.
  replace (List.length raw) with (S (List.length raw')) by (rewrite E; reflexivity).
  rewrite <- (app_nil_r raw) at 1.
  rewrite (tokenize_loop_number _ raw [] _ y) by (assumption || exact I).
  assert (Htok : tokenize_loop (List.length raw') [] (([] ++ [TOp Sub]) ++ [TNum y])
                 = Ok [TOp Sub; TNum y])
    by (destruct (List.length raw'); reflexivity).
  rewrite Htok. cbn [bind].
  unfold toRpn. cbn. destruct y; try discriminate Hfin; reflexivity.
Qed.

(** A valid run followed by an exponent is not an expression. *)
Lemma evaluate_number_e (neg : bool) (raw tail : jsstring) :
  raw <> [] -> forallb is_digit_or_dot raw = true -> valid_run raw = true ->
  isFinite (of_decimal raw) = true -> forallb not_space tail = true ->
  evaluate (sign_part neg ++ raw ++ chr "e" :: tail)
  = Err (UnexpectedCharacter (chr "e")).
Proof.
  intros Hne Hall Hvalid Hfin Htail. unfold evaluate.
  assert (Hns : forallb not_space (raw ++ chr "e" :: tail) = true).
  { rewrite forallb_app, (digit_or_dot_not_space raw Hall). cbn [forallb].
    rewrite Htail. reflexivity. }
  assert (Hloop : forall tokens f,
             tokenize_loop (S (S f)) (raw ++ chr "e" :: tail) tokens
             = Err (UnexpectedCharacter (chr "e"))).
  { intros tokens f.
    rewrite (tokenize_loop_number _ raw _ tokens (of_decimal raw))
      by (assumption || reflexivity).
    apply tokenize_loop_e. }
  assert (Hlen : exists f, List.length (raw ++ chr "e" :: tail) = S (S f)).
  { destruct raw as [|c raw']; [congruence|].
    exists (List.length (raw' ++ tail)).
    cbn [app List.length]. rewrite !length_app. cbn [List.length]. lia. }
  destruct Hlen as [f Hlen].
  rewrite tokenize_no_space.
  2:{ apply filter_not_space_all. destruct neg; cbn [sign_part app forallb];
        rewrite Hns; reflexivity. }
  destruct neg; cbn [sign_part app List.length].
  - rewrite tokenize_loop_minus, Hlen, Hloop. reflexivity.
  - rewrite Hlen, Hloop. reflexivity.
Qed.

(** ** The exponential notation *)

Lemma digit_not_e (c : char) : is_digit c = true -> is_e c = false.
Proof.
  unfold is_digit, is_e, char_eqb. intros H.
  apply andb_true_iff in H. destruct H as [_ H2]. apply Z.leb_le in H2.
  apply Z.eqb_neq. change (chr "e") with 101. lia.
Qed.

Lemma zero_not_e (c : char) : is_zero_digit c = true -> is_e c = false.
Proof. intros H. apply digit_not_e, zero_digit_is_digit, H. Qed.

Lemma digits_no_e (s : jsstring) : forallb is_digit s = true -> no_e s = true.
Proof.
  unfold no_e. induction s as [|c s IH]; intros Hs; [reflexivity|].
  cbn [forallb] in Hs |- *. apply andb_true_iff in Hs. destruct Hs as [Hc Hs].
  rewrite (digit_not_e c Hc), (IH Hs). reflexivity.
Qed.

Lemma digits_not_space (s : jsstring) :
  forallb is_digit s = true -> forallb not_space s = true.
Proof.
  intros H. apply digit_or_dot_not_space, digits_are_digits_or_dots, H.
Qed.

Lemma zeros_e_cons (c : char) (s : jsstring) :
  zeros_e (c :: s) = if is_zero_digit c then star is_zero_digit only_e s else None.
Proof. reflexivity. Qed.

Lemma only_e_cons (c : char) (s : jsstring) :
  only_e (c :: s) = if is_e c then Some s else None.
Proof. reflexivity. Qed.

Lemma re_zeros_e_cons (c : char) (s : jsstring) :
  match_here re_zeros_e (c :: s)
  = if is_dot c then
      match zeros_e s with Some x => Some x | None => zeros_e (c :: s) end
    else zeros_e (c :: s).
Proof. reflexivity. Qed.

Lemma star_zeros_no_e (s : jsstring) :
  no_e s = true -> star is_zero_digit only_e s = None.
Proof.
  unfold no_e. induction s as [|c s IH]; intros Hs; [reflexivity|].
  cbn [forallb] in Hs. apply andb_true_iff in Hs. destruct Hs as [Hc Hs].
  apply negb_true_iff in Hc.
  cbn [star]. rewrite (IH Hs), only_e_cons, Hc.
  destruct (is_zero_digit c); reflexivity.
Qed.

Lemma zeros_e_no_e (s : jsstring) : no_e s = true -> zeros_e s = None.
Proof.
  intros Hs. destruct s as [|c s]; [reflexivity|].
  rewrite zeros_e_cons.
  unfold no_e in Hs. cbn [forallb] in Hs. apply andb_true_iff in Hs.
  destruct (is_zero_digit c); [apply star_zeros_no_e, Hs | reflexivity].
Qed.

Lemma re_zeros_e_no_e (s : jsstring) :
  no_e s = true -> match_here re_zeros_e s = None.
Proof.
  intros Hs. destruct s as [|c s]; [reflexivity|].
  rewrite re_zeros_e_cons, (zeros_e_no_e (c :: s) Hs).
  unfold no_e in Hs. cbn [forallb] in Hs. apply andb_true_iff in Hs.
  rewrite (zeros_e_no_e s (proj2 Hs)). destruct (is_dot c); reflexivity.
Qed.

(** A string without [e] is left as it is. *)
Lemma replace_no_e (rep s : jsstring) :
  no_e s = true -> replace re_zeros_e rep s = s.
Proof.
  induction s as [|c s IH]; intros Hs; [reflexivity|].
  cbn [replace]. rewrite (re_zeros_e_no_e (c :: s) Hs).
  unfold no_e in Hs. cbn [forallb] in Hs. apply andb_true_iff in Hs.
  rewrite (IH (proj2 Hs)). reflexivity.
Qed.

Lemma star_zeros_then_e (j : nat) (tail : jsstring) :
  star is_zero_digit only_e (zeros j ++ chr "e" :: tail) = Some tail.
Proof.
  induction j as [|j IH]; [reflexivity|].
  change (zeros (S j)) with (chr "0" :: zeros j). cbn [app star].
  change (is_zero_digit (chr "0")) with true. cbv iota. rewrite IH. reflexivity.
Qed.

Lemma star_zeros_then_other (j : nat) (c : char) (rest : jsstring) :
  is_zero_digit c = false -> is_e c = false ->
  star is_zero_digit only_e (zeros j ++ c :: rest) = None.
Proof.
  intros Hz He. induction j as [|j IH].
  - cbn [zeros repeat app star]. rewrite Hz, only_e_cons, He. reflexivity.
  - change (zeros (S j)) with (chr "0" :: zeros j). cbn [app star].
    change (is_zero_digit (chr "0")) with true. cbv iota. rewrite IH.
    reflexivity.
Qed.

Lemma zeros_e_then_other (j : nat) (c : char) (rest : jsstring) :
  is_zero_digit c = false -> is_e c = false ->
  zeros_e (zeros j ++ c :: rest) = None.
Proof.
  intros Hz He. destruct j as [|j].
  - cbn [zeros repeat app]. rewrite zeros_e_cons, Hz. reflexivity.
  - change (zeros (S j)) with (chr "0" :: zeros j). cbn [app].
    rewrite zeros_e_cons. change (is_zero_digit (chr "0")) with true. cbv iota.
    apply star_zeros_then_other; assumption.
Qed.

Lemma no_trailing_zero_tail (c : char) (s : jsstring) :
  no_trailing_zero (c :: s) -> no_trailing_zero s.
Proof.
  intros [H | H]; [discriminate H|].
  destruct s as [|c' s]; [left; reflexivity | right; exact H].
Qed.

(** Such a string, when it is not empty, is zeros and a digit that is not
    zero, and more. *)
Lemma leading_zeros (s : jsstring) :
  s <> [] -> no_trailing_zero s ->
  exists j c rest, s = zeros j ++ c :: rest /\ is_zero_digit c = false.
Proof.
  induction s as [|c s IH]; intros Hne Hnt; [congruence|].
  destruct (is_zero_digit c) eqn:Ec.
  - destruct s as [|c' s].
    + destruct Hnt as [H | H]; [discriminate H|]. cbn in H. congruence.
    + destruct (IH ltac:(discriminate) (no_trailing_zero_tail _ _ Hnt))
        as (j & d & rest & E & Hd).
      exists (S j), d, rest. split; [|exact Hd].
      unfold is_zero_digit, char_eqb in Ec. apply Z.eqb_eq in Ec. subst c.
      rewrite E. reflexivity.
  - exists O, c, s. split; [reflexivity | exact Ec].
Qed.

(** A string of digits is a string without trailing zero, and zeros. *)
Lemma trailing_zeros (s : jsstring) :
  forallb is_digit s = true ->
  exists g z, s = g ++ zeros z /\ forallb is_digit g = true /\ no_trailing_zero g.
Proof.
  induction s as [|c s IH] using rev_ind; intros Hs.
  - exists [], O. repeat split. left. reflexivity.
  - rewrite forallb_app in Hs. apply andb_true_iff in Hs.
    destruct Hs as [Hs Hc]. cbn [forallb] in Hc. rewrite andb_true_r in Hc.
    destruct (is_zero_digit c) eqn:Ec.
    + destruct (IH Hs) as (g & z & E & Hg & Hnt).
      exists g, (S z). split; [|split; assumption].
      unfold is_zero_digit, char_eqb in Ec. apply Z.eqb_eq in Ec. subst c.
      rewrite E, <- app_assoc, zeros_succ_r. reflexivity.
    + exists (s ++ [c]), O. split; [rewrite app_nil_r; reflexivity|].
      split; [rewrite forallb_app, Hs; cbn [forallb]; rewrite Hc; reflexivity|].
      right. rewrite last_last. exact Ec.
Qed.

(** The zeros before the exponent are removed. *)
Lemma replace_trailing_zeros (g : jsstring) (z : nat) (tail : jsstring) :
  forallb is_digit g = true -> no_trailing_zero g -> no_e tail = true ->
  replace re_zeros_e (str "e") (g ++ zeros z ++ chr "e" :: tail)
  = g ++ chr "e" :: tail.
Proof.
  intros Hg Hnt Htail. induction g as [|c g IH].
  - cbn [app]. destruct z as [|z].
    + cbn [zeros repeat app replace]. rewrite re_zeros_e_cons.
      change (is_dot (chr "e")) with false. cbv iota.
      rewrite zeros_e_cons. change (is_zero_digit (chr "e")) with false.
      cbv iota. rewrite (replace_no_e _ tail Htail). reflexivity.
    + change (zeros (S z)) with (chr "0" :: zeros z). cbn [app replace].
      rewrite re_zeros_e_cons. change (is_dot (chr "0")) with false. cbv iota.
      rewrite zeros_e_cons. change (is_zero_digit (chr "0")) with true.
      cbv iota. rewrite star_zeros_then_e. reflexivity.
  - cbn [forallb] in Hg. apply andb_true_iff in Hg. destruct Hg as [Hc Hg].
    destruct (leading_zeros (c :: g) ltac:(discriminate) Hnt)
      as (j & d & rest & E & Hd).
    assert (Hde : is_e d = false).
    { apply digit_not_e.
      assert (Hall : forallb is_digit (zeros j ++ d :: rest) = true)
        by (rewrite <- E; cbn [forallb]; rewrite Hc, Hg; reflexivity).
      rewrite forallb_app in Hall. apply andb_true_iff in Hall.
      destruct Hall as [_ Hall]. cbn [forallb] in Hall.
      apply andb_true_iff in Hall. apply Hall. }
    assert (Hnone : match_here re_zeros_e
                      ((c :: g) ++ zeros z ++ chr "e" :: tail) = None).
    { cbn [app]. rewrite re_zeros_e_cons, (digit_not_dot c Hc).
      change (c :: g ++ zeros z ++ chr "e" :: tail)
        with ((c :: g) ++ zeros z ++ chr "e" :: tail).
      rewrite E, <- app_assoc. cbn [app].
      apply zeros_e_then_other; assumption. }
    change ((c :: g) ++ zeros z ++ chr "e" :: tail)
      with (c :: (g ++ zeros z ++ chr "e" :: tail)) in *.
    cbn [replace]. rewrite Hnone.
    rewrite (IH Hg (no_trailing_zero_tail _ _ Hnt)). reflexivity.
Qed.

Lemma zeros_e_then_e (z : nat) (tail : jsstring) :
  (0 < z)%nat -> zeros_e (zeros z ++ chr "e" :: tail) = Some tail.
Proof.
  intros Hz. destruct z as [|z]; [lia|].
  change (zeros (S z)) with (chr "0" :: zeros z). cbn [app].
  rewrite zeros_e_cons. change (is_zero_digit (chr "0")) with true. cbv iota.
  apply star_zeros_then_e.
Qed.

Lemma re_zeros_e_minus (s : jsstring) :
  match_here re_zeros_e (chr "-" :: s) = None.
Proof. reflexivity. Qed.

Lemma re_zeros_e_digit_point (d : char) (s : jsstring) :
  is_digit d = true -> match_here re_zeros_e (d :: chr "." :: s) = None.
Proof.
  intros Hd. rewrite re_zeros_e_cons, (digit_not_dot d Hd), zeros_e_cons.
  destruct (is_zero_digit d); reflexivity.
Qed.

(** [replace(/\.?0+e/, "e")] on a mantissa with a point and an exponent:
    the trailing zeros of the fraction go, and the point with them when
    nothing else is left of the fraction. *)
Lemma replace_mantissa (neg : bool) (d0 : char) (f tail : jsstring) :
  is_digit d0 = true -> forallb is_digit f = true -> f <> [] ->
  no_e tail = true ->
  exists raw z,
    replace re_zeros_e (str "e")
            (sign_part neg ++ d0 :: chr "." :: f ++ chr "e" :: tail)
    = sign_part neg ++ raw ++ chr "e" :: tail /\
    raw <> [] /\
    forallb is_digit_or_dot raw = true /\
    valid_run raw = true /\
    (z <= List.length f)%nat /\
    digits_value 0 raw * 10 ^ Z.of_nat z = digits_value 0 (d0 :: f) /\
    fraction_length raw = (List.length f - z)%nat.
Proof.
  intros Hd Hf Hne Htail.
  destruct (trailing_zeros f Hf) as (g & z & E & Hg & Hnt).
  assert (Hsign : forall s,
             match_here re_zeros_e (d0 :: chr "." :: s) = None ->
             replace re_zeros_e (str "e") (sign_part neg ++ d0 :: chr "." :: s)
             = sign_part neg ++ d0 :: replace re_zeros_e (str "e") (chr "." :: s)).
  { intros s Hs. destruct neg; cbn [sign_part app replace];
      rewrite ?re_zeros_e_minus, Hs; reflexivity. }
  rewrite Hsign by (apply re_zeros_e_digit_point; exact Hd).
  assert (Hlen : List.length f = (List.length g + z)%nat)
    by (rewrite E, length_app, zeros_length; reflexivity).
  destruct g as [|c g].
  - (* the fraction is zeros only *)
    cbn [app] in E. subst f.
    assert (Hz : (0 < z)%nat)
      by (destruct z; [exfalso; apply Hne; reflexivity | lia]).
    exists [d0], z.
    split.
    { cbn [replace]. rewrite re_zeros_e_cons.
      change (is_dot (chr ".")) with true. cbv iota.
      rewrite (zeros_e_then_e z tail Hz). reflexivity. }
    split; [discriminate|].
    split; [cbn [forallb]; unfold is_digit_or_dot; rewrite Hd; reflexivity|].
    split; [apply valid_run_digits; [discriminate | cbn [forallb]; rewrite Hd; reflexivity]|].
    split; [rewrite zeros_length; lia|].
    split.
    + change (d0 :: zeros z) with ([d0] ++ zeros z).
      rewrite digits_value_app, digits_value_zeros. reflexivity.
    + rewrite zeros_length. cbn [fraction_length].
      rewrite (digit_not_dot d0 Hd). cbn [List.length]. lia.
  - (* a digit that is not zero is left *)
    exists (d0 :: chr "." :: c :: g), z.
    split.
    { cbn [replace]. rewrite re_zeros_e_cons.
      change (is_dot (chr ".")) with true. cbv iota.
      destruct (leading_zeros (c :: g) ltac:(discriminate) Hnt)
        as (j & d & rest & Eg & Hdz).
      assert (Hde : is_e d = false).
      { apply digit_not_e. rewrite Eg, forallb_app in Hg.
        apply andb_true_iff in Hg. destruct Hg as [_ Hg].
        cbn [forallb] in Hg. apply andb_true_iff in Hg. apply Hg. }
      assert (Hnone : zeros_e (f ++ chr "e" :: tail) = None).
      { rewrite E, Eg, <- !app_assoc. cbn [app].
        apply zeros_e_then_other; assumption. }
      rewrite Hnone. change (zeros_e (chr "." :: f ++ chr "e" :: tail)) with (@None jsstring).
      rewrite E, <- app_assoc.
      rewrite (replace_trailing_zeros (c :: g) z tail Hg Hnt Htail).
      reflexivity. }
    split; [discriminate|].
    split.
    { apply (forallb_digit_or_dot_point [d0] (c :: g));
        [cbn [forallb]; rewrite Hd; reflexivity | exact Hg]. }
    split.
    { apply (valid_run_point [d0] (c :: g));
        [discriminate | cbn [forallb]; rewrite Hd; reflexivity | exact Hg]. }
    split; [lia|].
    split.
    + change (d0 :: chr "." :: c :: g) with ([d0] ++ chr "." :: c :: g).
      rewrite digits_value_point. rewrite E.
      change (d0 :: (c :: g) ++ zeros z) with (([d0] ++ c :: g) ++ zeros z).
      rewrite (digits_value_app 0 ([d0] ++ c :: g)), digits_value_zeros.
      reflexivity.
    + change (d0 :: chr "." :: c :: g) with ([d0] ++ chr "." :: c :: g).
      rewrite fraction_length_point by (cbn [forallb]; rewrite Hd; reflexivity).
      lia.
Qed.

Local Open Scope Q_scope.

Lemma magnitude_pos (m : positive) (e : Z) : 0 < magnitude m e.
Proof.
  unfold magnitude. apply Qmult_lt_0_compat; [reflexivity | apply pow2_pos].
Qed.

Lemma decimal_scale (a z k : Z) :
  (0 <= z)%Z -> decimal (a * 10 ^ z) k == decimal a (k + z).
Proof.
  intros Hz. unfold decimal.
  rewrite inject_Z_mult, pow10_add, <- (pow10_inject z Hz). ring.
Qed.

Lemma decimal_le (a b k : Z) : (a <= b)%Z -> decimal a k <= decimal b k.
Proof.
  intros H. unfold decimal. apply Qmult_le_compat_r.
  - rewrite <- Zle_Qle. exact H.
  - apply Qlt_le_weak, pow10_pos.
Qed.

Lemma decimal_lt (a b k : Z) : (a < b)%Z -> decimal a k < decimal b k.
Proof.
  intros H. unfold decimal. apply Qmult_lt_compat_r.
  - apply pow10_pos.
  - rewrite <- Zlt_Qlt. exact H.
Qed.

(** [10^j * 10^k], written as a decimal. *)
Lemma decimal_pow10 (j k : Z) : (0 <= j)%Z -> decimal (10 ^ j) k == pow10 (j + k).
Proof.
  intros Hj. unfold decimal. rewrite <- (pow10_inject j Hj), pow10_add.
  reflexivity.
Qed.

(** The Number value of a decimal between 1 and [10^14] is finite. *)
Lemma of_Q_finite (q : Q) :
  1 <= q -> q < inject_Z (2 ^ 49) -> isFinite (of_Q q) = true.
Proof.
  intros H1 H2.
  assert (Hl : 1 <= q * inject_Z (2 ^ 1020)).
  { assert (1 <= inject_Z (2 ^ 1020))
      by (change 1 with (inject_Z 1); rewrite <- Zle_Qle; apply Z.lt_le_incl;
          apply (Z.pow_gt_1 2 1020); lia).
    assert (q * 1 <= q * inject_Z (2 ^ 1020))
      by (apply Qmult_le_l; lra).
    lra. }
  destruct (of_Q_close q Hl H2) as (m & e & E & _).
  rewrite E. reflexivity.
Qed.

Lemma exponent_part_tail (ex : Z) :
  exists tail,
    exponent_part ex = chr "e" :: tail /\
    no_e tail = true /\ forallb not_space tail = true.
Proof.
  unfold exponent_part.
  destruct (digits_spec (Z.abs ex) ltac:(lia)) as (_ & Hall & _).
  exists ((if (0 <=? ex)%Z then chr "+" else chr "-") :: digits (Z.abs ex)).
  split; [reflexivity|]. split.
  - unfold no_e. cbn [forallb]. fold (no_e (digits (Z.abs ex))).
    rewrite (digits_no_e _ Hall). destruct (0 <=? ex)%Z; reflexivity.
  - cbn [forallb]. rewrite (digits_not_space _ Hall).
    destruct (0 <=? ex)%Z; reflexivity.
Qed.

(** A number shown in exponential notation is not read back: the
    expression stops at the letter [e]. *)
Lemma format_exponential (s : bool) (m : positive) (e : Z) :
  exponential_display (S754_finite s m e) = true ->
  evaluate (formatNumber (S754_finite s m e))
  = Err (UnexpectedCharacter (chr "e")).
Proof.
  intros Hexp. unfold formatNumber. cbn [isFinite negb]. rewrite Hexp.
  unfold toExponential. change (Z.of_nat 11) with 11%Z.
  destruct (scientific 11 (magnitude m e)) as [ex n] eqn:Esci.
  destruct (scientific_spec 11 (magnitude m e) ex n (magnitude_pos m e)
              ltac:(lia) Esci) as (Hn & _).
  change (11 - 1)%Z with 10%Z in Hn.
  assert (Hn0 : (0 <= n)%Z) by lia.
  destruct (digits_spec n Hn0) as (_ & Hall & _).
  pose proof (digits_length n 11 Hn ltac:(lia)) as Hlen.
  pose proof (digits_value_digits n Hn0) as Hval.
  destruct (digits n) as [|d0 f]; [discriminate Hlen|].
  cbn [forallb] in Hall. apply andb_true_iff in Hall. destruct Hall as [Hd0 Hf].
  assert (Hlenf : List.length f = 10%nat) by (cbn [List.length] in Hlen; lia).
  destruct f as [|c f'] eqn:Ef; [discriminate Hlenf|]. rewrite <- Ef in *.
  assert (Hwp : with_point (d0 :: f) = d0 :: chr "." :: f) by (rewrite Ef; reflexivity).
  rewrite Hwp.
  destruct (exponent_part_tail ex) as (tail & Etail & Hnoe & Hns).
  rewrite Etail.
  change (sign_part s ++ (d0 :: chr "." :: f) ++ chr "e" :: tail)
    with (sign_part s ++ d0 :: chr "." :: f ++ chr "e" :: tail).
  destruct (replace_mantissa s d0 f tail Hd0 Hf ltac:(rewrite Ef; discriminate) Hnoe)
    as (raw & z & Erep & Hne & Hrall & Hvalid & Hz & Hdv & Hfl).
  rewrite Erep.
  apply evaluate_number_e; try assumption.
  unfold of_decimal. apply of_Q_finite.
  - assert (Eq : decimal (digits_value 0 raw) (- Z.of_nat (fraction_length raw))
                 == decimal n (-10)).
    { rewrite <- Hval, <- Hdv. rewrite decimal_scale by lia.
      rewrite Hfl, Hlenf. replace (-10 + Z.of_nat z)%Z with (- Z.of_nat (10 - z))%Z by lia.
      reflexivity. }
    rewrite Eq.
    apply Qle_trans with (decimal (10 ^ 10) (-10)); [|apply decimal_le; lia].
    rewrite decimal_pow10 by lia. apply Qle_refl.
  - assert (Eq : decimal (digits_value 0 raw) (- Z.of_nat (fraction_length raw))
                 == decimal n (-10)).
    { rewrite <- Hval, <- Hdv. rewrite decimal_scale by lia.
      rewrite Hfl, Hlenf. replace (-10 + Z.of_nat z)%Z with (- Z.of_nat (10 - z))%Z by lia.
      reflexivity. }
    rewrite Eq.
    apply Qlt_trans with (decimal (10 ^ 11) (-10)); [apply decimal_lt; lia|].
    rewrite decimal_pow10 by lia. reflexivity.
Qed.

Local Close Scope Q_scope.

(** ** The range of the plain notation *)

Local Open Scope Q_scope.

Lemma lit_1e12_eq : lit_1e12 = S754_finite false 8192000000000000 (-13).
Proof. vm_compute. reflexivity. Qed.

Lemma lit_1e_6_eq : lit_1e_6 = S754_finite false 4722366482869645 (-72).
Proof. vm_compute. reflexivity. Qed.

Lemma pow2_le (a b : Z) : (a <= b)%Z -> Qpower (2 # 1) a <= Qpower (2 # 1) b.
Proof. intros H. apply Qpower_le_compat_l; [exact H | discriminate]. Qed.

Lemma magnitude_le_m (m m' : positive) (e : Z) :
  (Zpos m <= Zpos m')%Z -> magnitude m e <= magnitude m' e.
Proof.
  intros H. unfold magnitude. apply Qmult_le_compat_r.
  - rewrite <- Zle_Qle. exact H.
  - apply Qlt_le_weak, pow2_pos.
Qed.

Lemma magnitude_lt_m (m m' : positive) (e : Z) :
  (Zpos m < Zpos m')%Z -> magnitude m e < magnitude m' e.
Proof.
  intros H. unfold magnitude. apply Qmult_lt_compat_r.
  - apply pow2_pos.
  - rewrite <- Zlt_Qlt. exact H.
Qed.

Lemma magnitude_le_e (m : positive) (e e' : Z) :
  (e <= e')%Z -> magnitude m e <= magnitude m e'.
Proof.
  intros H. unfold magnitude. apply Qmult_le_l; [reflexivity|].
  apply pow2_le. exact H.
Qed.

(** A valid number has at most 53 bits, and 53 bits above the subnormal
    exponent. *)
Lemma valid_mantissa (s : bool) (m : positive) (e : Z) :
  valid_binary prec emax (S754_finite s m e) = true ->
  (Zpos m < 2 ^ 53)%Z /\ ((-1074 < e)%Z -> (2 ^ 52 <= Zpos m)%Z).
Proof.
  unfold valid_binary, bounded, canonical_mantissa, fexp, emin, prec, emax.
  intros H. apply andb_true_iff in H. destruct H as [H _].
  apply Z.eqb_eq in H.
  pose proof (digits2_bounds m) as Hb.
  set (d := Zpos (digits2_pos m)) in *.
  assert (Hd : (0 < d)%Z) by (unfold d; lia).
  split.
  - assert (2 ^ d <= 2 ^ 53)%Z by (apply Z.pow_le_mono_r; lia). lia.
  - intros He. assert (d = 53)%Z by lia.
    replace (d - 1)%Z with 52%Z in Hb by lia. lia.
Qed.

(** The numbers shown in plain notation: below [10^12], and [10^-6] at
    least, or the Number value of [1e-6], which is less than [10^-6]. *)
Lemma plain_range (s : bool) (m : positive) (e : Z) :
  valid_binary prec emax (S754_finite s m e) = true ->
  exponential_display (S754_finite s m e) = false ->
  magnitude m e < pow10 12 /\
  (pow10 (-6) <= magnitude m e \/ S754_finite false m e = lit_1e_6).
Proof.
  intros Hvalid Hexp.
  destruct (valid_mantissa s m e Hvalid) as [Hm53 Hm52].
  unfold exponential_display in Hexp. cbn [SFabs] in Hexp.
  change (strict_eqb (S754_finite false m e) zero) with false in Hexp.
  cbn [negb andb] in Hexp. apply orb_false_iff in Hexp.
  destruct Hexp as [Hge Hlt].
  rewrite lit_1e12_eq in Hge. rewrite lit_1e_6_eq in Hlt. rewrite lit_1e_6_eq.
  unfold SFleb, SFcompare in Hge. unfold SFltb, SFcompare in Hlt.
  change (Pos.compare_cont Eq) with Pos.compare in Hge, Hlt.
  split.
  - (* below 10^12 *)
    destruct (Z.compare_spec (-13) e) as [He | He | He];
      [subst e | discriminate Hge |].
    + destruct (Pos.compare_spec 8192000000000000 m) as [Hc | Hc | Hc];
        try discriminate Hge.
      apply Qlt_le_trans with (magnitude 8192000000000000 (-13)).
      * apply magnitude_lt_m. exact Hc.
      * unfold Qle. vm_compute. discriminate.
    + apply Qle_lt_trans with (magnitude m (-14)); [apply magnitude_le_e; lia|].
      apply Qlt_le_trans with (magnitude (2 ^ 53) (-14)).
      * apply magnitude_lt_m. exact Hm53.
      * unfold Qle. vm_compute. discriminate.
  - (* 10^-6 at least *)
    destruct (Z.compare_spec e (-72)) as [He | He | He];
      [subst e | discriminate Hlt |].
    + destruct (Pos.compare_spec m 4722366482869645) as [Hc | Hc | Hc];
        try discriminate Hlt.
      * right. subst m. reflexivity.
      * left. apply Qle_trans with (magnitude 4722366482869646 (-72)).
        -- unfold Qle. vm_compute. discriminate.
        -- apply magnitude_le_m. apply Pos2Z.pos_le_pos.
           apply Pos.le_succ_l in Hc. exact Hc.
    + left. apply Qle_trans with (magnitude (2 ^ 52) (-71)).
      * unfold Qle. vm_compute. discriminate.
      * apply Qle_trans with (magnitude m (-71)).
        -- apply magnitude_le_m. apply Hm52. lia.
        -- apply magnitude_le_e. lia.
Qed.

Local Close Scope Q_scope.

(** ** Reading the result of toPrecision *)

Lemma span_digits_all (ds : jsstring) :
  forallb is_digit ds = true -> span_digits ds = (ds, []).
Proof.
  induction ds as [|c ds IH]; intros H; [reflexivity|].
  cbn [forallb] in H. apply andb_true_iff in H. destruct H as [Hc Hds].
  cbn [span_digits]. rewrite Hc, (IH Hds). reflexivity.
Qed.

Lemma span_digits_point (ds rest : jsstring) :
  forallb is_digit ds = true ->
  span_digits (ds ++ chr "." :: rest) = (ds, chr "." :: rest).
Proof.
  induction ds as [|c ds IH]; intros H; [reflexivity|].
  cbn [forallb] in H. apply andb_true_iff in H. destruct H as [Hc Hds].
  cbn [app span_digits]. rewrite Hc, (IH Hds). reflexivity.
Qed.

Lemma parse_sign_digit (c : char) (s : jsstring) :
  is_digit c = true -> parse_sign (c :: s) = (false, c :: s).
Proof.
  intros H. unfold is_digit in H. apply andb_true_iff in H.
  destruct H as [H1 H2]. apply Z.leb_le in H1. apply Z.leb_le in H2.
  unfold parse_sign, char_eqb.
  replace (c =? chr "-") with false by (symmetry; apply Z.eqb_neq; change (chr "-") with 45; lia).
  replace (c =? chr "+") with false by (symmetry; apply Z.eqb_neq; change (chr "+") with 43; lia).
  reflexivity.
Qed.

Lemma not_infinity_digit (c : char) (s : jsstring) :
  is_digit c = true -> string_eqb (c :: s) (str "Infinity") = false.
Proof.
  intros H. unfold is_digit in H. apply andb_true_iff in H.
  destruct H as [H1 H2]. apply Z.leb_le in H1. apply Z.leb_le in H2.
  change (str "Infinity") with (chr "I" :: str "nfinity").
  cbn [string_eqb]. unfold char_eqb.
  replace (c =? chr "I") with false by (symmetry; apply Z.eqb_neq; change (chr "I") with 73; lia).
  reflexivity.
Qed.

(** The unary [+] on digits without a point. *)
Lemma StringToNumber_integer (neg : bool) (ip : jsstring) :
  ip <> [] -> forallb is_digit ip = true ->
  StringToNumber (sign_part neg ++ ip)
  = signed neg (of_Q (decimal (digits_value 0 ip) 0)).
Proof.
  intros Hne Hip. destruct ip as [|c ip']; [congruence|].
  pose proof Hip as Hall.
  cbn [forallb] in Hip. apply andb_true_iff in Hip. destruct Hip as [Hc _].
  assert (Hsign : parse_sign (sign_part neg ++ c :: ip') = (neg, c :: ip')).
  { destruct neg; [reflexivity | apply parse_sign_digit; exact Hc]. }
  unfold StringToNumber.
  destruct (sign_part neg ++ c :: ip') as [|x xs] eqn:E;
    [destruct neg; discriminate E|].
  cbv iota. rewrite Hsign, (not_infinity_digit c ip' Hc).
  rewrite (span_digits_all (c :: ip') Hall). rewrite app_nil_r.
  cbn [parse_exponent List.length]. reflexivity.
Qed.

(** The unary [+] on digits, a point and digits. *)
Lemma StringToNumber_point (neg : bool) (ip fp : jsstring) :
  ip <> [] -> forallb is_digit ip = true -> forallb is_digit fp = true ->
  StringToNumber (sign_part neg ++ ip ++ chr "." :: fp)
  = signed neg (of_Q (decimal (digits_value 0 (ip ++ fp))
                              (0 - Z.of_nat (List.length fp)))).
Proof.
  intros Hne Hip Hfp. destruct ip as [|c ip']; [congruence|].
  pose proof Hip as Hall.
  cbn [forallb] in Hip. apply andb_true_iff in Hip. destruct Hip as [Hc _].
  assert (Hsign : parse_sign (sign_part neg ++ (c :: ip') ++ chr "." :: fp)
                  = (neg, (c :: ip') ++ chr "." :: fp)).
  { destruct neg; [reflexivity | apply parse_sign_digit; exact Hc]. }
  unfold StringToNumber.
  destruct (sign_part neg ++ (c :: ip') ++ chr "." :: fp) as [|x xs] eqn:E;
    [destruct neg; discriminate E|].
  cbv iota. rewrite Hsign.
  change ((c :: ip') ++ chr "." :: fp) with (c :: (ip' ++ chr "." :: fp)) at 1.
  rewrite (not_infinity_digit c _ Hc).
  rewrite (span_digits_point (c :: ip') fp Hall).
  change (is_dot (chr ".")) with true. cbv iota.
  rewrite (span_digits_all fp Hfp).
  cbn [app parse_exponent]. reflexivity.
Qed.

Lemma forallb_firstn {A} (f : A -> bool) (k : nat) (l : list A) :
  forallb f l = true -> forallb f (firstn k l) = true.
Proof.
  intros H. rewrite <- (firstn_skipn k l), forallb_app in H.
  apply andb_true_iff in H. apply H.
Qed.

Lemma forallb_skipn {A} (f : A -> bool) (k : nat) (l : list A) :
  forallb f l = true -> forallb f (skipn k l) = true.
Proof.
  intros H. rewrite <- (firstn_skipn k l), forallb_app in H.
  apply andb_true_iff in H. apply H.
Qed.

(** The value of the string that [toPrecision(12)] returns: the twelve
    digits [n] with the decimal exponent [ex]. *)
Lemma toPrecision_value (s : bool) (m : positive) (e ex n : Z) :
  scientific 12 (magnitude m e) = (ex, n) ->
  10 ^ 11 <= n < 10 ^ 12 -> -6 <= ex <= 12 -> (ex = 12 -> n = 10 ^ 11) ->
  StringToNumber (toPrecision 12 (S754_finite s m e))
  = signed s (of_Q (decimal n (ex - 11))).
Proof.
  intros Esci Hn Hex Hcarry. unfold toPrecision.
  change (Z.of_nat 12) with 12. rewrite Esci.
  destruct (Z.eq_dec ex 12) as [E12 | Hne12].
  - rewrite (Hcarry E12). subst ex. destruct s; vm_compute; reflexivity.
  - replace ((ex <? -6) || (12 <=? ex))%bool with false.
    2:{ symmetry. apply orb_false_iff. split; [apply Z.ltb_ge | apply Z.leb_gt]; lia. }
    assert (Hn0 : 0 <= n) by lia.
    destruct (digits_spec n Hn0) as (Hdne & Hall & _).
    pose proof (digits_length n 12 Hn ltac:(lia)) as Hlen.
    pose proof (digits_value_digits n Hn0) as Hval.
    set (ds := digits n) in *.
    unfold fixed.
    destruct (ex =? 12 - 1) eqn:E11.
    + apply Z.eqb_eq in E11.
      rewrite (StringToNumber_integer s ds Hdne Hall), Hval.
      replace (ex - 11) with 0 by lia. reflexivity.
    + apply Z.eqb_neq in E11.
      destruct (0 <=? ex) eqn:E0.
      * apply Z.leb_le in E0.
        set (k := Z.to_nat (ex + 1)).
        assert (Hk : (0 < k < 12)%nat) by (unfold k; lia).
        rewrite (StringToNumber_point s (firstn k ds) (skipn k ds)).
        -- rewrite firstn_skipn, Hval, length_skipn.
           replace (0 - Z.of_nat (List.length ds - k)) with (ex - 11)
             by (unfold k; lia).
           reflexivity.
        -- intros Hc. apply (f_equal (@List.length _)) in Hc.
           rewrite length_firstn in Hc. cbn [List.length] in Hc. lia.
        -- apply forallb_firstn. exact Hall.
        -- apply forallb_skipn. exact Hall.
      * apply Z.leb_gt in E0.
        change (chr "0" :: chr "." :: zeros (Z.to_nat (- (ex + 1))) ++ ds)
          with ([chr "0"] ++ chr "." :: (zeros (Z.to_nat (- (ex + 1))) ++ ds)).
        rewrite (StringToNumber_point s [chr "0"]).
        -- rewrite !digits_value_app, digits_value_zeros.
           change (digits_value 0 [chr "0"]) with 0.
           rewrite Z.mul_0_l, Hval.
           rewrite length_app, zeros_length.
           replace (0 - Z.of_nat (Z.to_nat (- (ex + 1)) + List.length ds))
             with (ex - 11) by lia.
           reflexivity.
        -- discriminate.
        -- reflexivity.
        -- rewrite forallb_app, zeros_all_digits, Hall. reflexivity.
Qed.

(** ** Plain notation *)

Lemma re_point_zeros_cons (c : char) (s : jsstring) :
  match_here re_point_zeros (c :: s)
  = if is_dot c then
      match s with
      | z :: s' => if is_zero_digit z then star is_zero_digit end_only s' else None
      | [] => None
      end
    else None.
Proof. reflexivity. Qed.

Lemma star_zeros_end (s : jsstring) :
  star is_zero_digit end_only s
  = if forallb is_zero_digit s then Some [] else None.
Proof.
  induction s as [|c s IH]; [reflexivity|].
  cbn [star forallb]. rewrite IH.
  destruct (is_zero_digit c); [|reflexivity].
  destruct (forallb is_zero_digit s); reflexivity.
Qed.

(** A string without a point is left as it is. *)
Lemma replace_no_point (rep s : jsstring) :
  forallb (fun c => negb (is_dot c)) s = true ->
  replace re_point_zeros rep s = s.
Proof.
  induction s as [|c s IH]; intros Hs; [reflexivity|].
  cbn [forallb] in Hs. apply andb_true_iff in Hs. destruct Hs as [Hc Hs].
  apply negb_true_iff in Hc.
  cbn [replace]. rewrite re_point_zeros_cons, Hc, (IH Hs). reflexivity.
Qed.

Lemma digits_no_point (s : jsstring) :
  forallb is_digit s = true -> forallb (fun c => negb (is_dot c)) s = true.
Proof.
  induction s as [|c s IH]; intros Hs; [reflexivity|].
  cbn [forallb] in Hs |- *. apply andb_true_iff in Hs. destruct Hs as [Hc Hs].
  rewrite (digit_not_dot c Hc), (IH Hs). reflexivity.
Qed.

(** [replace(/\.0+$/, "")] on digits, a point and digits: a fraction of
    zeros goes, with the point. *)
Lemma replace_point_zeros (pre i f : jsstring) :
  forallb (fun c => negb (is_dot c)) pre = true ->
  forallb is_digit i = true -> forallb is_digit f = true -> f <> [] ->
  replace re_point_zeros [] (pre ++ i ++ chr "." :: f)
  = pre ++ i ++ (if forallb is_zero_digit f then [] else chr "." :: f).
Proof.
  intros Hpre Hi Hf Hne.
  assert (Hpoint : replace re_point_zeros [] (chr "." :: f)
                   = if forallb is_zero_digit f then [] else chr "." :: f).
  { cbn [replace]. rewrite re_point_zeros_cons.
    change (is_dot (chr ".")) with true. cbv iota.
    destruct f as [|z f']; [congruence|].
    cbn [forallb]. rewrite star_zeros_end.
    destruct (is_zero_digit z); cbn [andb].
    - destruct (forallb is_zero_digit f'); [reflexivity|].
      rewrite (replace_no_point _ _ (digits_no_point _ Hf)). reflexivity.
    - rewrite (replace_no_point _ _ (digits_no_point _ Hf)). reflexivity. }
  assert (Hskip : forall a rest,
             forallb (fun c => negb (is_dot c)) a = true ->
             replace re_point_zeros [] (a ++ rest)
             = a ++ replace re_point_zeros [] rest).
  { intros a rest. induction a as [|c a IH]; intros Ha; [reflexivity|].
    cbn [forallb] in Ha. apply andb_true_iff in Ha. destruct Ha as [Hc Ha].
    apply negb_true_iff in Hc.
    cbn [app replace]. rewrite re_point_zeros_cons, Hc, (IH Ha). reflexivity. }
  rewrite (Hskip pre _ Hpre), (Hskip i _ (digits_no_point i Hi)), Hpoint.
  reflexivity.
Qed.

Lemma sign_no_point (neg : bool) :
  forallb (fun c => negb (is_dot c)) (sign_part neg) = true.
Proof. destruct neg; reflexivity. Qed.

(** A valid run with a finite value, with or without a minus sign. *)
Lemma evaluate_signed (neg : bool) (raw : jsstring) (y : float64) :
  raw <> [] -> forallb is_digit_or_dot raw = true -> valid_run raw = true ->
  of_decimal raw = y -> isFinite y = true ->
  evaluate (sign_part neg ++ raw) = Ok (signed neg y).
Proof.
  intros. destruct neg; cbn [sign_part app signed].
  - apply evaluate_negative_number; assumption.
  - apply evaluate_number; assumption.
Qed.

Local Open Scope Q_scope.

(** Formatted digits without a point are read back. *)
Lemma evaluate_integer (neg : bool) (i : jsstring) (y : float64) :
  i <> [] -> forallb is_digit i = true ->
  of_Q (decimal (digits_value 0 i) 0) = y -> isFinite y = true ->
  evaluate (replace re_point_zeros [] (sign_part neg ++ i))
  = Ok (signed neg y).
Proof.
  intros Hne Hi Hy Hfin.
  rewrite replace_no_point
    by (rewrite forallb_app, sign_no_point, (digits_no_point i Hi); reflexivity).
  apply evaluate_signed; try assumption.
  - apply digits_are_digits_or_dots. exact Hi.
  - apply valid_run_digits; assumption.
  - unfold of_decimal. rewrite (fraction_length_digits i Hi). exact Hy.
Qed.

(** Formatted digits with a point are read back, with the same value. *)
Lemma evaluate_point (neg : bool) (i f : jsstring) (y : float64) :
  i <> [] -> f <> [] ->
  forallb is_digit i = true -> forallb is_digit f = true ->
  of_Q (decimal (digits_value 0 (i ++ f)) (- Z.of_nat (List.length f))) = y ->
  isFinite y = true ->
  evaluate (replace re_point_zeros [] (sign_part neg ++ i ++ chr "." :: f))
  = Ok (signed neg y).
Proof.
  intros Hi0 Hf0 Hi Hf Hy Hfin.
  rewrite (replace_point_zeros _ i f (sign_no_point neg) Hi Hf Hf0).
  destruct (forallb is_zero_digit f) eqn:Ez.
  - rewrite app_nil_r.
    apply evaluate_signed; try assumption.
    + apply digits_are_digits_or_dots. exact Hi.
    + apply valid_run_digits; assumption.
    + unfold of_decimal. rewrite (fraction_length_digits i Hi), <- Hy.
      apply of_Q_eq.
      rewrite digits_value_app, (all_zero_is_zeros f Ez), digits_value_zeros.
      rewrite zeros_length. change (- Z.of_nat 0)%Z with 0%Z.
      rewrite decimal_scale by lia.
      replace (- Z.of_nat (List.length f) + Z.of_nat (List.length f))%Z
        with 0%Z by lia.
      reflexivity.
  - apply evaluate_signed; try assumption.
    + destruct i; [congruence | discriminate].
    + apply forallb_digit_or_dot_point; assumption.
    + apply valid_run_point; assumption.
    + unfold of_decimal.
      rewrite digits_value_point, (fraction_length_point i f Hi). exact Hy.
Qed.

(** The plain notation of Number::toString is read back: the digits [sf]
    with the point after [nf] of them denote [sf * 10^(nf - kf)]. *)
Lemma evaluate_render (neg : bool) (nf kf sf : Z) (y : float64) :
  (10 ^ (kf - 1) <= sf < 10 ^ kf)%Z -> (1 <= kf)%Z -> (-5 <= nf <= 21)%Z ->
  of_Q (decimal sf (nf - kf)) = y -> isFinite y = true ->
  evaluate (replace re_point_zeros [] (sign_part neg ++ render nf kf sf))
  = Ok (signed neg y).
Proof.
  intros Hsf Hkf Hnf Hy Hfin.
  assert (Hpos : (0 < sf)%Z).
  { assert (0 < 10 ^ (kf - 1))%Z by (apply Z.pow_pos_nonneg; lia). lia. }
  destruct (digits_spec sf ltac:(lia)) as (Hdne & Hall & _).
  pose proof (digits_length sf kf Hsf ltac:(lia)) as Hlen.
  pose proof (digits_value_digits sf ltac:(lia)) as Hval.
  set (ds := digits sf) in *.
  unfold render. fold ds.
  replace ((-5 <=? nf) && (nf <=? 21))%bool with true.
  2:{ symmetry. apply andb_true_iff. split; apply Z.leb_le; lia. }
  destruct (kf <=? nf)%Z eqn:E1.
  - apply Z.leb_le in E1.
    apply evaluate_integer; try assumption.
    + destruct ds; [congruence | discriminate].
    + rewrite forallb_app, Hall, zeros_all_digits. reflexivity.
    + rewrite <- Hy. apply of_Q_eq.
      rewrite digits_value_app, digits_value_zeros, Hval.
      rewrite decimal_scale by lia.
      replace (0 + Z.of_nat (Z.to_nat (nf - kf)))%Z with (nf - kf)%Z by lia.
      reflexivity.
  - apply Z.leb_gt in E1. destruct (0 <? nf)%Z eqn:E2.
    + apply Z.ltb_lt in E2.
      apply evaluate_point; try assumption.
      * intros Hc. apply (f_equal (@List.length _)) in Hc.
        rewrite length_firstn in Hc. cbn [List.length] in Hc. lia.
      * intros Hc. apply (f_equal (@List.length _)) in Hc.
        rewrite length_skipn in Hc. cbn [List.length] in Hc. lia.
      * apply forallb_firstn. exact Hall.
      * apply forallb_skipn. exact Hall.
      * rewrite firstn_skipn, Hval, length_skipn.
        replace (- Z.of_nat (List.length ds - Z.to_nat nf))%Z with (nf - kf)%Z
          by lia.
        exact Hy.
    + apply Z.ltb_ge in E2.
      change (chr "0" :: chr "." :: zeros (Z.to_nat (- nf)) ++ ds)
        with ([chr "0"] ++ chr "." :: (zeros (Z.to_nat (- nf)) ++ ds)).
      apply evaluate_point; try assumption.
      * discriminate.
      * destruct ds; [congruence|]. destruct (zeros (Z.to_nat (- nf))); discriminate.
      * reflexivity.
      * rewrite forallb_app, Hall, zeros_all_digits. reflexivity.
      * rewrite !digits_value_app, digits_value_zeros.
        change (digits_value 0 [chr "0"]) with 0%Z.
        rewrite Z.mul_0_l, Hval, length_app, zeros_length.
        replace (- Z.of_nat (Z.to_nat (- nf) + List.length ds))%Z
          with (nf - kf)%Z by lia.
        exact Hy.
Qed.

Local Close Scope Q_scope.

(** ** The shortest digits *)

Lemma same_float_eq (a b : float64) : same_float a b = true -> a = b.
Proof.
  destruct a as [s1|s1| |s1 m1 e1], b as [s2|s2| |s2 m2 e2]; cbn [same_float];
    try discriminate; intros H.
  - apply eqb_prop in H. congruence.
  - apply eqb_prop in H. congruence.
  - apply andb_true_iff in H. destruct H as [H He].
    apply andb_true_iff in H. destruct H as [Hs Hm].
    apply eqb_prop in Hs. apply Pos.eqb_eq in Hm. apply Z.eqb_eq in He.
    congruence.
Qed.

Lemma same_float_refl (s : bool) (m : positive) (e : Z) :
  same_float (S754_finite s m e) (S754_finite s m e) = true.
Proof.
  cbn [same_float]. rewrite eqb_reflx, Pos.eqb_refl, Z.eqb_refl. reflexivity.
Qed.

Lemma represents_spec (x : float64) (k n s : Z) :
  represents x k n s = true ->
  10 ^ (k - 1) <= s < 10 ^ k /\ of_Q (decimal s (n - k)) = x.
Proof.
  unfold represents. intros H.
  apply andb_true_iff in H. destruct H as [H Hf].
  apply andb_true_iff in H. destruct H as [H1 H2].
  apply Z.leb_le in H1. apply Z.ltb_lt in H2. apply same_float_eq in Hf.
  repeat split; assumption.
Qed.

Lemma candidates_exponent (q : Q) (e0 k : Z) (c : Z * Z) :
  In c (candidates q e0 k) -> fst c = e0 + 1 \/ fst c = e0 + 2.
Proof.
  unfold candidates. intros H. apply in_app_or in H.
  destruct H as [H | H].
  - left. destruct (scaled_round q (k - (e0 + 1)) =? scaled_floor q (k - (e0 + 1)));
      cbn [In] in H; destruct H as [<- | [<- | []]]; reflexivity.
  - right. cbn [In] in H. destruct H as [<- | []]. cbn [fst]. lia.
Qed.

Lemma candidates_floor (q : Q) (e0 k s : Z) :
  s = scaled_floor q (k - (e0 + 1)) \/ s = scaled_floor q (k - (e0 + 1)) + 1 ->
  In (e0 + 1, s) (candidates q e0 k).
Proof.
  unfold candidates. intros H. apply in_or_app. left.
  destruct (scaled_round q (k - (e0 + 1)) =? scaled_floor q (k - (e0 + 1)));
    cbn [In]; destruct H as [-> | ->]; auto.
Qed.

Lemma candidates_power (q : Q) (e0 k : Z) :
  In (e0 + 1 + 1, 10 ^ (k - 1)) (candidates q e0 k).
Proof. unfold candidates. apply in_or_app. right. left. reflexivity. Qed.

Lemma shortest_from_sound (fuel : nat) (k : Z) (x : float64) (q : Q)
      (e0 n k' s : Z) :
  shortest_from fuel k x q e0 = Some (n, k', s) ->
  represents x k' n s = true /\
  k <= k' < k + Z.of_nat fuel /\
  (n = e0 + 1 \/ n = e0 + 2).
Proof.
  revert k. induction fuel as [|fuel IH]; intros k H; [discriminate H|].
  cbn [shortest_from] in H.
  destruct (find (fun c => represents x k (fst c) (snd c)) (candidates q e0 k))
    as [[n0 s0]|] eqn:Efind.
  - injection H as <- <- <-. apply find_some in Efind.
    destruct Efind as [Hin Hrep]. cbn [fst snd] in Hrep.
    split; [exact Hrep|]. split; [lia|].
    apply (candidates_exponent q e0 k (n0, s0) Hin).
  - destruct (IH (k + 1) H) as (Hrep & Hk & Hn).
    split; [exact Hrep|]. split; [lia | exact Hn].
Qed.

Lemma shortest_from_complete (fuel : nat) (k : Z) (x : float64) (q : Q)
      (e0 k0 : Z) (c : Z * Z) :
  k <= k0 < k + Z.of_nat fuel ->
  In c (candidates q e0 k0) -> represents x k0 (fst c) (snd c) = true ->
  exists r, shortest_from fuel k x q e0 = Some r.
Proof.
  revert k. induction fuel as [|fuel IH]; intros k Hk Hin Hrep; [lia|].
  cbn [shortest_from].
  destruct (find (fun c => represents x k (fst c) (snd c)) (candidates q e0 k))
    as [[n0 s0]|] eqn:Efind; [eauto|].
  destruct (Z.eq_dec k k0) as [-> | Hne].
  - exfalso. pose proof (find_none _ _ Efind c Hin) as Hc.
    cbn beta in Hc. congruence.
  - apply IH; [lia | assumption | assumption].
Qed.

Local Open Scope Q_scope.

Lemma Zlt_of_Qlt_succ (a b : Z) : inject_Z a < inject_Z b + 1 -> (a <= b)%Z.
Proof.
  intros H. change 1 with (inject_Z 1) in H.
  rewrite <- inject_Z_plus, <- Zlt_Qlt in H. lia.
Qed.

(** Number::toString on the Number value of twelve digits [n] with the
    exponent [ex]: at most twelve digits are found, in plain notation, that
    denote the same Number value. *)
Lemma shortest_plain (n ex : Z) (my : positive) (ey : Z) :
  (10 ^ 11 <= n < 10 ^ 12)%Z -> (-6 <= ex <= 12)%Z ->
  (ex = (-6)%Z -> n <> (10 ^ 11)%Z) ->
  of_Q (decimal n (ex - 11)) = S754_finite false my ey ->
  magnitude my ey <= decimal n (ex - 11) + decimal n (ex - 11) * (1 # 2 ^ 51) ->
  decimal n (ex - 11) - decimal n (ex - 11) * (1 # 2 ^ 51) <= magnitude my ey ->
  exists nf kf sf,
    shortest (S754_finite false my ey) (magnitude my ey) = (nf, kf, sf) /\
    (10 ^ (kf - 1) <= sf < 10 ^ kf)%Z /\ (1 <= kf)%Z /\ (-5 <= nf <= 21)%Z /\
    of_Q (decimal sf (nf - kf)) = S754_finite false my ey.
Proof.
  intros Hn Hex Hedge Hy Hup Hlo.
  set (qy := magnitude my ey) in *.
  set (y := S754_finite false my ey) in *.
  assert (Hqy : 0 < qy) by apply magnitude_pos.
  destruct (ilog10_spec qy Hqy) as [Hl1 Hl2].
  set (e0 := ilog10 qy) in *.
  set (p := pow10 (11 - ex)).
  assert (Hp : 0 < p) by apply pow10_pos.
  assert (HD : decimal n (ex - 11) * p == inject_Z n).
  { unfold decimal, p. rewrite <- Qmult_assoc, <- pow10_add.
    replace (ex - 11 + (11 - ex))%Z with 0%Z by lia. rewrite pow10_0. ring. }
  set (X := qy * p).
  assert (Hn1 : inject_Z (10 ^ 11) <= inject_Z n) by (rewrite <- Zle_Qle; lia).
  assert (Hn2 : inject_Z n <= inject_Z (10 ^ 12 - 1)) by (rewrite <- Zle_Qle; lia).
  change (inject_Z (10 ^ 11)) with (100000000000 # 1) in Hn1.
  change (inject_Z (10 ^ 12 - 1)) with (999999999999 # 1) in Hn2.
  change (1 # 2 ^ 51) with (1 # 2251799813685248) in Hup, Hlo.
  assert (HX1 : inject_Z n - inject_Z n * (1 # 2251799813685248) <= X).
  { rewrite <- HD. unfold X.
    assert ((decimal n (ex - 11)
             - decimal n (ex - 11) * (1 # 2251799813685248)) * p <= qy * p)
      by (apply Qmult_le_compat_r; [exact Hlo | lra]).
    lra. }
  assert (HX2 : X <= inject_Z n + inject_Z n * (1 # 2251799813685248)).
  { rewrite <- HD. unfold X.
    assert (qy * p <= (decimal n (ex - 11)
                      + decimal n (ex - 11) * (1 # 2251799813685248)) * p)
      by (apply Qmult_le_compat_r; [exact Hup | lra]).
    lra. }
  assert (HXl : pow10 (e0 + (11 - ex)) <= X).
  { rewrite pow10_add. unfold X, p.
    apply Qmult_le_compat_r; [exact Hl1 | apply Qlt_le_weak, pow10_pos]. }
  assert (HXu : X < pow10 (e0 + 1 + (11 - ex))).
  { rewrite pow10_add. unfold X, p.
    apply Qmult_lt_compat_r; [apply pow10_pos | exact Hl2]. }
  assert (He0 : (e0 = ex - 1 \/ e0 = ex)%Z).
  { assert (ex - 2 < e0)%Z.
    { destruct (Z_lt_le_dec (ex - 2) e0) as [|Hc]; [assumption | exfalso].
      assert (H10 : pow10 (e0 + 1 + (11 - ex)) <= pow10 10)
        by (apply pow10_le; lia).
      assert (E10 : pow10 10 == 10000000000 # 1) by reflexivity.
      rewrite E10 in H10. lra. }
    assert (e0 < ex + 1)%Z.
    { destruct (Z_lt_le_dec e0 (ex + 1)) as [|Hc]; [assumption | exfalso].
      assert (H12 : pow10 12 <= pow10 (e0 + (11 - ex)))
        by (apply pow10_le; lia).
      assert (E12 : pow10 12 == 1000000000000 # 1) by reflexivity.
      rewrite E12 in H12. lra. }
    lia. }
  assert (Hedge' : (e0 = ex - 1)%Z -> n = (10 ^ 11)%Z).
  { intros E. rewrite E in HXu.
    replace (ex - 1 + 1 + (11 - ex))%Z with 11%Z in HXu by lia.
    assert (E11 : pow10 11 == 100000000000 # 1) by reflexivity.
    rewrite E11 in HXu.
    assert (Hlt : inject_Z n < inject_Z (10 ^ 11) + 1).
    { change (inject_Z (10 ^ 11)) with (100000000000 # 1). lra. }
    apply Zlt_of_Qlt_succ in Hlt. lia. }
  (* the twelve digits are among the candidates *)
  assert (Hcand : exists c, In c (candidates qy e0 12)
                            /\ fst c = (ex + 1)%Z /\ snd c = n).
  { destruct He0 as [E | E].
    - exists ((e0 + 1 + 1)%Z, (10 ^ (12 - 1))%Z).
      split; [apply candidates_power|]. cbn [fst snd].
      split; [lia | symmetry; apply Hedge'; exact E].
    - exists ((e0 + 1)%Z, n). split; [|cbn [fst snd]; split; [lia | reflexivity]].
      apply candidates_floor.
      destruct (scaled_floor_bounds qy (12 - (e0 + 1))) as [Hf1 Hf2].
      replace (12 - (e0 + 1))%Z with (11 - ex)%Z in * by lia.
      fold p in Hf1, Hf2. fold X in Hf1, Hf2.
      set (lo := scaled_floor qy (11 - ex)) in *.
      assert (H1 : inject_Z lo < inject_Z n + 1) by lra.
      assert (H2 : inject_Z n < inject_Z (lo + 1) + 1).
      { rewrite inject_Z_plus. change (inject_Z 1) with 1. lra. }
      apply Zlt_of_Qlt_succ in H1. apply Zlt_of_Qlt_succ in H2. lia. }
  destruct Hcand as (c & Hin & Hc1 & Hc2).
  assert (Hrep : represents y 12 (fst c) (snd c) = true).
  { rewrite Hc1, Hc2. unfold represents.
    replace (ex + 1 - 12)%Z with (ex - 11)%Z by lia. rewrite Hy.
    apply andb_true_iff. split; [|apply same_float_refl].
    apply andb_true_iff. split; [apply Z.leb_le | apply Z.ltb_lt]; lia. }
  destruct (shortest_from_complete 17 1 y qy e0 12 c ltac:(lia) Hin Hrep)
    as [[[nf kf] sf] Efound].
  exists nf, kf, sf.
  destruct (shortest_from_sound 17 1 y qy e0 nf kf sf Efound)
    as (Hr & Hkf & Hnf).
  destruct (represents_spec y kf nf sf Hr) as [Hsf Hval].
  split; [unfold shortest; fold e0; rewrite Efound; reflexivity|].
  split; [exact Hsf|]. split; [lia|]. split; [|exact Hval].
  destruct He0 as [E | E].
  - pose proof (Hedge' E) as En.
    assert (ex <> (-6)%Z) by (intros Hc; apply (Hedge Hc En)).
    lia.
  - lia.
Qed.

Local Close Scope Q_scope.

(** ** Display in plain notation, and evaluation *)

Local Open Scope Q_scope.

Lemma of_Q_close_decimal (q : Q) :
  pow10 (-7) <= q -> q < pow10 14 ->
  exists m e,
    of_Q q = S754_finite false m e /\
    magnitude m e <= q + q * (1 # 2 ^ 51) /\
    q - q * (1 # 2 ^ 51) <= magnitude m e.
Proof.
  intros Hl Hh.
  assert (H1 : 1 <= q * inject_Z (2 ^ 1020)).
  { apply Qle_trans with (pow10 (-7) * inject_Z (2 ^ 1020)).
    - unfold Qle. vm_compute. discriminate.
    - apply Qmult_le_compat_r; [exact Hl|]. unfold Qle. vm_compute. discriminate. }
  assert (H2 : q < inject_Z (2 ^ 49)).
  { apply Qlt_trans with (pow10 14); [exact Hh|]. unfold Qlt. vm_compute. reflexivity. }
  destruct (of_Q_close q H1 H2) as (m & e & E & _ & _ & Ha & Hb).
  exists m, e. repeat split; assumption.
Qed.

Lemma signed_finite (s : bool) (m : positive) (e : Z) :
  signed s (S754_finite false m e) = S754_finite s m e.
Proof. destruct s; reflexivity. Qed.

Lemma signed_is_finite (s : bool) (y : float64) :
  isFinite (signed s y) = isFinite y.
Proof. destruct s; [apply neg_finite | reflexivity]. Qed.

(** The plain notation of the Number value of twelve digits [n] with the
    exponent [ex] is read back as that value. *)
Lemma read_back (s : bool) (n ex : Z) :
  (10 ^ 11 <= n < 10 ^ 12)%Z -> (-6 <= ex <= 12)%Z ->
  (ex = (-6)%Z -> n <> (10 ^ 11)%Z) ->
  evaluate (replace re_point_zeros []
              (toString (signed s (of_Q (decimal n (ex - 11))))))
  = Ok (signed s (of_Q (decimal n (ex - 11)))).
Proof.
  intros Hn Hex Hedge.
  assert (Hl : pow10 (-7) <= decimal n (ex - 11)).
  { apply Qle_trans with (pow10 ex); [apply pow10_le; lia|].
    apply Qle_trans with (decimal (10 ^ 11) (ex - 11)); [|apply decimal_le; lia].
    rewrite decimal_pow10 by lia.
    replace (11 + (ex - 11))%Z with ex by lia. apply Qle_refl. }
  assert (Hh : decimal n (ex - 11) < pow10 14).
  { apply Qlt_le_trans with (decimal (10 ^ 12) (ex - 11));
      [apply decimal_lt; lia|].
    rewrite decimal_pow10 by lia. apply pow10_le. lia. }
  destruct (of_Q_close_decimal _ Hl Hh) as (my & ey & Ey & Hup & Hlo).
  destruct (shortest_plain n ex my ey Hn Hex Hedge Ey Hup Hlo)
    as (nf & kf & sf & Eshort & Hsf & Hkf & Hnf & Hval).
  rewrite Ey, signed_finite. cbn [toString]. rewrite Eshort.
  rewrite <- (signed_finite s my ey).
  apply evaluate_render; try assumption. reflexivity.
Qed.

Lemma rounding_distance (q d qy p : Q) :
  0 < q -> p * (100000000000 # 1) <= q ->
  d - q <= (1 # 2) * p -> q - d <= (1 # 2) * p ->
  qy <= d + d * (1 # 2251799813685248) ->
  d - d * (1 # 2251799813685248) <= qy ->
  - ((1 # 100000000000) * q) <= qy - q /\ qy - q <= (1 # 100000000000) * q.
Proof. intros. split; lra. Qed.

Lemma close_to_signed (s : bool) (m my : positive) (e ey : Z) :
  - ((1 # 100000000000) * magnitude m e) <= magnitude my ey - magnitude m e ->
  magnitude my ey - magnitude m e <= (1 # 100000000000) * magnitude m e ->
  close_to (S754_finite s my ey) (S754_finite s m e).
Proof.
  intros H1 H2. pose proof (magnitude_pos m e) as Hq.
  unfold close_to. cbn [value_of].
  change (1 # 10 ^ 11) with (1 # 100000000000).
  destruct s.
  - rewrite (Qabs_neg (- magnitude m e)) by lra.
    apply Qabs_Qle_condition. split; lra.
  - rewrite (Qabs_pos (magnitude m e)) by lra.
    apply Qabs_Qle_condition. split; lra.
Qed.

Lemma close_to_refl (v : float64) : close_to v v.
Proof.
  unfold close_to.
  assert (E : value_of v - value_of v == 0) by ring.
  rewrite E. change (Qabs 0) with 0.
  apply Qmult_le_0_compat; [discriminate | apply Qabs_nonneg].
Qed.

(** A number shown in plain notation is read back as its value rounded to
    twelve significant digits, a finite number close to it. *)
Lemma format_plain (s : bool) (m : positive) (e : Z) :
  valid_binary prec emax (S754_finite s m e) = true ->
  exponential_display (S754_finite s m e) = false ->
  evaluate (formatNumber (S754_finite s m e))
  = Ok (StringToNumber (toPrecision 12 (S754_finite s m e))) /\
  isFinite (StringToNumber (toPrecision 12 (S754_finite s m e))) = true /\
  close_to (StringToNumber (toPrecision 12 (S754_finite s m e)))
           (S754_finite s m e).
Proof.
  intros Hvalid Hexp.
  destruct (plain_range s m e Hvalid Hexp) as [Hlt [Hge | Hedge]].
  2:{ (* the Number value of 1e-6 *)
      rewrite lit_1e_6_eq in Hedge. injection Hedge as -> ->.
      assert (E : StringToNumber
                    (toPrecision 12 (S754_finite s 4722366482869645 (-72)))
                  = S754_finite s 4722366482869645 (-72))
        by (destruct s; vm_compute; reflexivity).
      rewrite E. split; [|split; [reflexivity | apply close_to_refl]].
      destruct s; vm_compute; reflexivity. }
  unfold formatNumber. cbn [isFinite negb]. rewrite Hexp.
  set (q := magnitude m e) in *.
  assert (Hq : 0 < q) by apply magnitude_pos.
  destruct (scientific 12 q) as [ex n] eqn:Esci.
  destruct (scientific_spec 12 q ex n Hq ltac:(lia) Esci)
    as (Hn & Hcase & Hd1 & Hd2).
  change (12 - 1)%Z with 11%Z in Hn, Hcase.
  replace (ex - 12 + 1)%Z with (ex - 11)%Z in Hd1, Hd2 by lia.
  destruct (ilog10_spec q Hq) as [Hl1 Hl2].
  set (e0 := ilog10 q) in *.
  replace (e0 - 12 + 1)%Z with (e0 - 11)%Z in Hd1, Hd2 by lia.
  assert (He0 : (-6 <= e0 <= 11)%Z).
  { split.
    - assert (Hc : pow10 (-6) < pow10 (e0 + 1))
        by (eapply Qle_lt_trans; eassumption).
      apply pow10_lt_inv in Hc. lia.
    - assert (Hc : pow10 e0 < pow10 12)
        by (eapply Qle_lt_trans; eassumption).
      apply pow10_lt_inv in Hc. lia. }
  assert (Hex : (-6 <= ex <= 12)%Z) by (destruct Hcase as [-> | [-> _]]; lia).
  assert (Hcarry : ex = 12%Z -> n = (10 ^ 11)%Z)
    by (intros E; destruct Hcase as [Hc | [_ Hc]]; [lia | exact Hc]).
  unfold q in Esci.
  rewrite (toPrecision_value s m e ex n Esci Hn Hex Hcarry).
  (* the value read from the twelve digits *)
  assert (Hl : pow10 (-7) <= decimal n (ex - 11)).
  { apply Qle_trans with (pow10 ex); [apply pow10_le; lia|].
    apply Qle_trans with (decimal (10 ^ 11) (ex - 11)); [|apply decimal_le; lia].
    rewrite decimal_pow10 by lia.
    replace (11 + (ex - 11))%Z with ex by lia. apply Qle_refl. }
  assert (Hh : decimal n (ex - 11) < pow10 14).
  { apply Qlt_le_trans with (decimal (10 ^ 12) (ex - 11));
      [apply decimal_lt; lia|].
    rewrite decimal_pow10 by lia. apply pow10_le. lia. }
  destruct (of_Q_close_decimal _ Hl Hh) as (my & ey & Ey & Hup & Hlo).
  assert (Hp : pow10 (e0 - 11) * (100000000000 # 1) <= q).
  { assert (E : pow10 (e0 - 11) * (100000000000 # 1) == pow10 e0).
    { replace e0 with ((e0 - 11) + 11)%Z at 2 by lia. rewrite pow10_add.
      reflexivity. }
    rewrite E. exact Hl1. }
  change (1 # 2 ^ 51) with (1 # 2251799813685248) in Hup, Hlo.
  destruct (rounding_distance q _ (magnitude my ey) _ Hq Hp Hd1 Hd2 Hup Hlo)
    as [Hc1 Hc2].
  split; [|split].
  - destruct (Z.eq_dec ex (-6)) as [Eex | Hex6].
    + destruct (Z.eq_dec n (10 ^ 11)) as [En | Hn11].
      * (* the decimal 10^-6 *)
        subst n ex. destruct s; vm_compute; reflexivity.
      * apply read_back; [exact Hn | exact Hex | intros _; exact Hn11].
    + apply read_back; [exact Hn | exact Hex | intros Hc; contradiction].
  - rewrite Ey, signed_is_finite. reflexivity.
  - rewrite Ey, signed_finite. apply close_to_signed; assumption.
Qed.

Local Close Scope Q_scope.

(** * The claims *)

(** ** Numeric literals *)

(** C1, as stated, fails: the run ["1."] contains a digit and a single
    decimal point, and the tokenizer rejects it with [InvalidNumber]. *)
Lemma trailing_point_rejected :
  forallb is_digit_or_dot (str "1.") = true /\
  existsb is_digit (str "1.") = true /\
  (count_dots (str "1.") <= 1)%nat /\
  test_anchored re_number (str "1.") = false /\
  tokenize (str "1.") = Err InvalidNumber.
Proof. repeat split; vm_compute; reflexivity. Qed.

(** C1, amended: a maximal run of digits and points passes the validation
    of the tokenizer if and only if it has at most one decimal point and its
    last character is a digit.  A run that does not makes the scan fail with
    [InvalidNumber]; a run that does becomes one Number token, unless its
    value is not finite, and then the scan fails with [NumberTooLarge]. *)
Theorem number_run_validation
        (raw rest : jsstring) (tokens : list token) (fuel : nat) :
  raw <> [] -> forallb is_digit_or_dot raw = true -> run_ends rest ->
  test_anchored re_number raw = valid_run raw /\
  (valid_run raw = true <->
   (count_dots raw <= 1)%nat /\ is_digit (last raw (chr ".")) = true) /\
  tokenize_loop (S fuel) (raw ++ rest) tokens
  = (if valid_run raw then
       if isFinite (of_decimal raw) then
         tokenize_loop fuel rest (tokens ++ [TNum (of_decimal raw)])
       else Err NumberTooLarge
     else Err InvalidNumber) /\
  tokenize raw
  = (if valid_run raw then
       if isFinite (of_decimal raw) then Ok [TNum (of_decimal raw)]
       else Err NumberTooLarge
     else Err InvalidNumber).
Proof.
  intros Hne Hall Hrest.
  pose proof (re_number_spec raw Hall) as Hre. fold (valid_run raw) in Hre.
  split; [exact Hre|]. split.
  - unfold valid_run, ends_with_digit. rewrite andb_true_iff, Nat.leb_le.
    reflexivity.
  - split.
    + rewrite tokenize_loop_run by assumption. rewrite Hre. reflexivity.
    + rewrite tokenize_no_space by (apply filter_not_space_id; exact Hall).
      destruct raw as [|ch run] eqn:Eraw; [congruence|]. rewrite <- Eraw in *.
      replace (List.length raw) with (S (List.length run))
        by (rewrite Eraw; reflexivity).
      rewrite <- (app_nil_r raw) at 1.
      rewrite tokenize_loop_run by (assumption || exact I).
      rewrite Hre.
      destruct (valid_run raw); [|reflexivity].
      destruct (isFinite (of_decimal raw)); [|reflexivity].
      destruct (List.length run); reflexivity.
Qed.

Lemma number_run_validation_witness :
  test_anchored re_number (str ".5") = valid_run (str ".5") /\
  (valid_run (str ".5") = true <->
   (count_dots (str ".5") <= 1)%nat /\
   is_digit (last (str ".5") (chr ".")) = true) /\
  tokenize_loop 3 (str ".5" ++ str "+1") []
  = (if valid_run (str ".5") then
       if isFinite (of_decimal (str ".5")) then
         tokenize_loop 2 (str "+1") ([] ++ [TNum (of_decimal (str ".5"))])
       else Err NumberTooLarge
     else Err InvalidNumber) /\
  tokenize (str ".5")
  = (if valid_run (str ".5") then
       if isFinite (of_decimal (str ".5")) then Ok [TNum (of_decimal (str ".5"))]
       else Err NumberTooLarge
     else Err InvalidNumber).
Proof.
  apply (number_run_validation (str ".5") (str "+1") [] 2).
  - discriminate.
  - reflexivity.
  - reflexivity.
Defined.

(** ** Precedence and associativity *)

(** C2: [evaluate("2+3*4")] is 14, [evaluate("(2+3)*4")] is 20 and
    [evaluate("10-2-3")] is 5, not 11. *)
Theorem precedence_and_associativity :
  evaluate (str "2+3*4") = Ok (of_Z 14) /\
  evaluate (str "(2+3)*4") = Ok (of_Z 20) /\
  evaluate (str "10-2-3") = Ok (of_Z 5) /\
  evaluate (str "10-2-3") <> Ok (of_Z 11).
Proof.
  repeat split; try (vm_compute; reflexivity).
  vm_compute. discriminate.
Qed.

(** ** Unary operators *)

Lemma pushOp_top (a : opname) (st : rpn_state) :
  exists out ops, pushOp a st = (out, TOp a :: ops).
Proof.
  unfold pushOp. destruct (pushOp_loop a (fst st) (snd st)) as [out ops].
  eauto.
Qed.

Lemma pushOp_injective (a b : opname) (st : rpn_state) :
  pushOp a st = pushOp b st -> a = b.
Proof.
  intros H.
  destruct (pushOp_top a st) as [out1 [ops1 E1]].
  destruct (pushOp_top b st) as [out2 [ops2 E2]].
  rewrite E1, E2 in H. congruence.
Qed.

Lemma unary_position_spec (tokens : list token) (idx : nat) (t : token) :
  nth_error tokens idx = Some t ->
  unary_position (prev_token tokens idx) = true <-> unary_context tokens idx.
Proof.
  intros Ht. unfold unary_context. destruct idx as [|i].
  - simpl. split; auto.
  - cbn [prev_token]. replace (S i - 1)%nat with i by lia.
    destruct (nth_error tokens i) as [p|] eqn:Ep.
    + assert (Hiff : (S i = O \/
                      exists p0, Some p = Some p0 /\
                                 (p0 = TLParen \/ exists o, p0 = TOp o))
                     <-> (p = TLParen \/ exists o, p = TOp o)).
      { split.
        - intros [H | [p0 [Hp H]]]; [discriminate H|].
          injection Hp as <-. exact H.
        - intros H. right. exists p. split; [reflexivity | exact H]. }
      rewrite Hiff. clear Hiff.
      destruct p; cbn [unary_position]; split; intros H;
        try reflexivity; try discriminate H; eauto.
      * destruct H as [H | [o H]]; discriminate H.
      * destruct H as [H | [o H]]; discriminate H.
    + apply nth_error_None in Ep.
      assert (S i < List.length tokens)%nat
        by (apply nth_error_Some; congruence).
      lia.
Qed.


(** ** Finite values *)

(** C4: the Number tokens of an input hold finite values, every value on
    the operand stack during the evaluation is finite, and so is a number
    that [evaluate] returns.  A unary operator keeps a finite operand
    finite; a literal or a binary result that is not finite ends the
    evaluation with [NumberTooLarge] or [ResultNotFinite]. *)
Theorem finite_values (input : jsstring) :
  (forall tokens, tokenize input = Ok tokens ->
                  forallb token_finite tokens = true) /\
  (forall st, stack_during input st -> forallb isFinite st = true) /\
  (forall v, evaluate input = Ok v -> isFinite v = true) /\
  (forall o a st,
      o = UPlus \/ o = UMinus -> isFinite a = true ->
      exists v, evalRpn_step (TOp o) (a :: st) = Ok (v :: st) /\
                isFinite v = true) /\
  (forall o a b st,
      is_binary o = true -> isFinite (binop o a b) = false ->
      evalRpn_step (TOp o) (b :: a :: st) = Err ResultNotFinite \/
      evalRpn_step (TOp o) (b :: a :: st) = Err DivisionByZero) /\
  (forall raw rest tokens fuel,
      raw <> [] -> forallb is_digit_or_dot raw = true -> run_ends rest ->
      valid_run raw = true -> isFinite (of_decimal raw) = false ->
      tokenize_loop (S fuel) (raw ++ rest) tokens = Err NumberTooLarge).
Proof.
  split; [|split; [|split; [|split; [|split]]]].
  - intros tokens. apply tokenize_finite.
  - intros st (tokens & rpn & pre & post & Htok & _ & Hrpn & Hsplit & Hloop).
    apply tokenize_finite in Htok.
    pose proof (toRpn_finite _ _ Htok Hrpn) as Hfin.
    rewrite Hsplit, forallb_app in Hfin. apply andb_true_iff in Hfin.
    apply (evalRpn_loop_finite pre [] st (proj1 Hfin) eq_refl Hloop).
  - intros v H. unfold evaluate in H.
    apply bind_ok in H. destruct H as [tokens [Htok H]].
    destruct tokens as [|t tokens]; [injection H as <-; reflexivity|].
    apply bind_ok in H. destruct H as [rpn [Hrpn H]].
    unfold evalRpn in H. apply bind_ok in H. destruct H as [st [Hloop H]].
    apply tokenize_finite in Htok.
    pose proof (toRpn_finite _ _ Htok Hrpn) as Hfin.
    pose proof (evalRpn_loop_finite rpn [] st Hfin eq_refl Hloop) as Hst.
    destruct st as [|v' [|? ?]]; try discriminate H. injection H as <-.
    cbn [forallb] in Hst. rewrite andb_true_r in Hst. exact Hst.
  - intros o a st [-> | ->] Ha.
    + exists a. split; [reflexivity | exact Ha].
    + exists (neg a). split; [reflexivity | rewrite neg_finite; exact Ha].
  - intros o a b st Ho Hv. rewrite evalRpn_step_binary by exact Ho.
    rewrite Hv.
    destruct (match o with Div => strict_eqb b zero | _ => false end);
      [right | left]; reflexivity.
  - intros raw rest tokens fuel Hne Hall Hrest Hvalid Hinf.
    rewrite tokenize_loop_run by assumption.
    rewrite re_number_spec by exact Hall. fold (valid_run raw).
    rewrite Hvalid, Hinf. reflexivity.
Qed.

(** The stack of ["-(3+4)"] before the unary minus, and the result. *)
Lemma finite_values_witness :
  forallb isFinite [of_Z 7] = true /\
  isFinite (of_Z (-7)) = true.
Proof.
  destruct (finite_values (str "-(3+4)")) as (_ & Hstack & Hres & _).
  split.
  - apply Hstack.
    exists [TOp Sub; TLParen; TNum (of_Z 3); TOp Add; TNum (of_Z 4); TRParen].
    exists [TNum (of_Z 3); TNum (of_Z 4); TOp Add; TOp UMinus].
    exists [TNum (of_Z 3); TNum (of_Z 4); TOp Add].
    exists [TOp UMinus].
    repeat split; try (vm_compute; reflexivity). discriminate.
  - apply Hres. vm_compute. reflexivity.
Defined.

(** ** Division by zero *)

Lemma strict_eqb_zero (s : bool) : strict_eqb (S754_zero s) zero = true.
Proof. reflexivity. Qed.

(** C5: a division whose right operand equals zero fails with
    [DivisionByZero]: the step pushes no value, the evaluation stops there,
    and [evaluate("5/0")] fails with [DivisionByZero]. *)
Theorem division_by_zero :
  (forall a b st,
      strict_eqb b zero = true ->
      evalRpn_step (TOp Div) (b :: a :: st) = Err DivisionByZero) /\
  (forall pre post a b st,
      evalRpn_loop pre [] = Ok (b :: a :: st) ->
      strict_eqb b zero = true ->
      evalRpn (pre ++ TOp Div :: post) = Err DivisionByZero) /\
  evaluate (str "5/0") = Err DivisionByZero.
Proof.
  split; [|split].
  - intros a b st Hb. rewrite evalRpn_step_binary by reflexivity.
    rewrite Hb. reflexivity.
  - intros pre post a b st. apply evalRpn_division_stops.
  - vm_compute. reflexivity.
Qed.

Lemma division_by_zero_witness :
  evalRpn ([TNum (of_Z 5); TNum zero] ++ TOp Div :: [TNum (of_Z 1); TOp Add])
  = Err DivisionByZero.
Proof.
  destruct division_by_zero as (_ & H & _).
  apply (H [TNum (of_Z 5); TNum zero] [TNum (of_Z 1); TOp Add]
           (of_Z 5) zero []); reflexivity.
Defined.

(** C9: the guard fires on negative zero as well, which the comparison
    takes for equal to zero: the division step fails with [DivisionByZero]
    where the division would give minus infinity, and [evaluate("5/-0")]
    fails with [DivisionByZero]. *)
Theorem division_by_negative_zero :
  strict_eqb (S754_zero true) zero = true /\
  (forall a st,
      evalRpn_step (TOp Div) (S754_zero true :: a :: st) = Err DivisionByZero) /\
  (forall pre post a st,
      evalRpn_loop pre [] = Ok (S754_zero true :: a :: st) ->
      evalRpn (pre ++ TOp Div :: post) = Err DivisionByZero) /\
  evalRpn_loop [TNum (of_Z 5); TNum zero; TOp UMinus] []
  = Ok [S754_zero true; of_Z 5] /\
  div (of_Z 5) (S754_zero true) = S754_infinity true /\
  evaluate (str "5/-0") = Err DivisionByZero.
Proof.
  split; [reflexivity|]. split; [|split; [|split; [|split]]].
  - intros a st. rewrite evalRpn_step_binary by reflexivity. reflexivity.
  - intros pre post a st Hpre.
    eapply evalRpn_division_stops; [exact Hpre | reflexivity].
  - vm_compute. reflexivity.
  - vm_compute. reflexivity.
  - vm_compute. reflexivity.
Qed.

Lemma division_by_negative_zero_witness :
  evalRpn ([TNum (of_Z 5); TNum zero; TOp UMinus] ++ TOp Div :: [])
  = Err DivisionByZero.
Proof.
  destruct division_by_negative_zero as (_ & _ & H & _).
  apply (H [TNum (of_Z 5); TNum zero; TOp UMinus] [] (of_Z 5) []).
  vm_compute. reflexivity.
Defined.

(** ** Parentheses *)

(** C6: the converter fails with [MismatchedParentheses] when it reaches a
    closing parenthesis and the operator stack holds no opening one, and
    when an opening parenthesis is left on the stack at the end of the
    input; [evaluate("(1+2")] and [evaluate("1+2)")] both fail with
    [MismatchedParentheses]. *)
Theorem mismatched_parentheses :
  (forall tokens idx out ops,
      toRpn_for tokens idx 0 ([], []) = Ok (out, ops) ->
      nth_error tokens idx = Some TRParen ->
      existsb is_lparen ops = false ->
      toRpn tokens = Err MismatchedParentheses) /\
  (forall tokens out ops,
      toRpn_for tokens (List.length tokens) 0 ([], []) = Ok (out, ops) ->
      existsb is_lparen ops = true ->
      toRpn tokens = Err MismatchedParentheses) /\
  evaluate (str "(1+2") = Err MismatchedParentheses /\
  evaluate (str "1+2)") = Err MismatchedParentheses.
Proof.
  split; [|split; [|split]].
  - intros tokens idx out ops Hfor Ht Hops.
    assert (Hlt : (idx < List.length tokens)%nat)
      by (apply nth_error_Some; congruence).
    unfold toRpn.
    replace (List.length tokens)
      with (idx + S (List.length tokens - S idx))%nat by lia.
    rewrite toRpn_for_app, Hfor. cbn [bind toRpn_for].
    rewrite Nat.add_0_l.
    rewrite (toRpn_step_rparen tokens idx out ops Ht Hops). reflexivity.
  - intros tokens out ops Hfor Hops. unfold toRpn. rewrite Hfor.
    cbn [bind fst snd]. apply drain_lparen. exact Hops.
  - vm_compute. reflexivity.
  - vm_compute. reflexivity.
Qed.

(** The tokens of ["1+2)"] and of ["(1+2"]. *)
Lemma mismatched_parentheses_witness :
  toRpn [TNum (of_Z 1); TOp Add; TNum (of_Z 2); TRParen]
  = Err MismatchedParentheses /\
  toRpn [TLParen; TNum (of_Z 1); TOp Add; TNum (of_Z 2)]
  = Err MismatchedParentheses.
Proof.
  destruct mismatched_parentheses as (H1 & H2 & _). split.
  - apply (H1 [TNum (of_Z 1); TOp Add; TNum (of_Z 2); TRParen] 3%nat
              [TNum (of_Z 1); TNum (of_Z 2)] [TOp Add]); reflexivity.
  - apply (H2 [TLParen; TNum (of_Z 1); TOp Add; TNum (of_Z 2)]
              [TNum (of_Z 1); TNum (of_Z 2)] [TOp Add; TLParen]); reflexivity.
Defined.

(** C10: [evaluate("()")] fails with [InvalidExpression]: the converter
    accepts the pair and produces an empty postfix sequence, and the stack
    of the evaluator does not hold exactly one value at the end. *)
Theorem empty_parentheses :
  tokenize (str "()") = Ok [TLParen; TRParen] /\
  toRpn [TLParen; TRParen] = Ok [] /\
  evalRpn [] = Err InvalidExpression /\
  evaluate (str "()") = Err InvalidExpression /\
  evaluate (str "()") <> Err MismatchedParentheses.
Proof.
  repeat split; try (vm_compute; reflexivity).
  vm_compute. discriminate.
Qed.

(** ** Empty input *)

Lemma filter_all_spaces (input : jsstring) :
  forallb is_space input = true -> filter not_space input = [].
Proof.
  induction input as [|c s IH]; [reflexivity|].
  cbn [forallb filter]. intros H. apply andb_true_iff in H.
  destruct H as [Hc Hs]. unfold not_space at 1. rewrite Hc. cbn [negb].
  apply IH. exact Hs.
Qed.

(** C7: on an input of whitespace only, the empty string included, the
    token sequence is empty and [evaluate] returns 0. *)
Theorem whitespace_only_input (input : jsstring) :
  forallb is_space input = true ->
  tokenize input = Ok [] /\ evaluate input = Ok zero.
Proof.
  intros H.
  assert (Htok : tokenize input = Ok []).
  { unfold tokenize. rewrite replace_all_spaces, (filter_all_spaces input H).
    reflexivity. }
  split; [exact Htok|]. unfold evaluate. rewrite Htok. reflexivity.
Qed.

Lemma whitespace_only_input_witness :
  (tokenize (str "") = Ok [] /\ evaluate (str "") = Ok zero) /\
  (tokenize (str "   ") = Ok [] /\ evaluate (str "   ") = Ok zero).
Proof.
  split.
  - apply (whitespace_only_input (str "")). reflexivity.
  - apply (whitespace_only_input (str "   ")). reflexivity.
Defined.

(** ** Display and evaluation *)

(** C8, as stated, fails: [1000000*1000000] evaluates to [10^12], which is
    displayed as ["1e+12"], and that string is not an expression of the
    evaluator. *)
Lemma exponent_not_read_back :
  evaluate (str "1000000*1000000") = Ok (of_Z (10 ^ 12)) /\
  isFinite (of_Z (10 ^ 12)) = true /\
  formatNumber (of_Z (10 ^ 12)) = str "1e+12" /\
  evaluate (formatNumber (of_Z (10 ^ 12)))
  = Err (UnexpectedCharacter (chr "e")).
Proof. repeat split; vm_compute; reflexivity. Qed.

(** C8, amended: a finite binary64 value [v] that [formatNumber] shows in
    plain notation (zero, or a magnitude from [1e-6] up to [1e12] excluded,
    the test of [formatNumber] itself) is read back by [evaluate] from its
    display as the value of [+v.toPrecision(12)], that is [v] rounded to
    twelve significant digits: a finite number at a relative distance of
    [10^-11] from [v] at most.  The display of any other finite [v] is in
    exponential notation, and [evaluate] fails on it with
    [UnexpectedCharacter] at the letter [e]. *)
Theorem format_round_trip (v : float64) :
  isFinite v = true -> valid_binary prec emax v = true ->
  if exponential_display v then
    evaluate (formatNumber v) = Err (UnexpectedCharacter (chr "e"))
  else
    evaluate (formatNumber v) = Ok (StringToNumber (toPrecision 12 v)) /\
    isFinite (StringToNumber (toPrecision 12 v)) = true /\
    close_to (StringToNumber (toPrecision 12 v)) v.
Proof.
  intros Hfin Hvalid.
  destruct v as [s | s | | s m e]; try discriminate Hfin.
  - (* the zeros *)
    change (exponential_display (S754_zero s)) with false. cbv iota.
    destruct s; (split; [vm_compute; reflexivity|]);
      (split; [reflexivity|]);
      unfold close_to, Qle; vm_compute; discriminate.
  - destruct (exponential_display (S754_finite s m e)) eqn:Edisplay.
    + apply format_exponential. exact Edisplay.
    + apply format_plain; assumption.
Qed.

(** The results of ["2+3*4"], in plain notation, and of ["1000000*1000000"],
    in exponential notation. *)
Lemma format_round_trip_witness :
  (evaluate (formatNumber (of_Z 14))
   = Ok (StringToNumber (toPrecision 12 (of_Z 14))) /\
   isFinite (StringToNumber (toPrecision 12 (of_Z 14))) = true /\
   close_to (StringToNumber (toPrecision 12 (of_Z 14))) (of_Z 14)) /\
  evaluate (formatNumber (of_Z (10 ^ 12)))
  = Err (UnexpectedCharacter (chr "e")).
Proof.
  split.
  - apply (format_round_trip (of_Z 14)); reflexivity.
  - apply (format_round_trip (of_Z (10 ^ 12))); reflexivity.
Defined.

(** * Further properties of the evaluator *)

(** ** The loop of the converter, token by token *)

Lemma toRpn_step_token (tokens : list token) (idx : nat) (t : token)
      (st : rpn_state) :
  nth_error tokens idx = Some t ->
  toRpn_step tokens idx st = toRpn_token (prev_token tokens idx) t st.
Proof.
  intros Hn. unfold toRpn_step, toRpn_token. rewrite Hn. reflexivity.
Qed.

Lemma prev_token_last (pre : list token) (t : token) (post : list token) :
  prev_token (pre ++ t :: post) (S (List.length pre)) = Some t.
Proof.
  cbn [prev_token]. rewrite nth_error_app2 by lia.
  rewrite Nat.sub_diag. reflexivity.
Qed.

Lemma last_token_snoc (prev : option token) (ts : list token) (t : token) :
  last_token prev (ts ++ [t]) = Some t.
Proof.
  destruct ts as [|a ts']; [reflexivity|].
  cbn [app last_token]. f_equal. apply last_last.
Qed.

Lemma prev_token_app (pre post : list token) :
  prev_token (pre ++ post) (List.length pre) = last_token None pre.
Proof.
  destruct pre as [|t pre _] using rev_ind.
  - reflexivity.
  - rewrite <- app_assoc. rewrite length_app. cbn [List.length app].
    replace (List.length pre + 1)%nat with (S (List.length pre)) by lia.
    rewrite prev_token_last. rewrite last_token_snoc. reflexivity.
Qed.

Lemma toRpn_for_run (ts pre post : list token) (st : rpn_state) :
  toRpn_for (pre ++ ts ++ post) (List.length ts) (List.length pre) st
  = toRpn_run (last_token None pre) ts st.
Proof.
  revert pre st. induction ts as [|t ts IH]; intros pre st.
  - reflexivity.
  - cbn [List.length toRpn_for toRpn_run].
    rewrite (toRpn_step_token _ _ t).
    2:{ rewrite nth_error_app2 by lia. rewrite Nat.sub_diag. reflexivity. }
    rewrite prev_token_app.
    destruct (toRpn_token (last_token None pre) t st) as [st'|err];
      cbn [bind]; [|reflexivity].
    specialize (IH (pre ++ [t]) st').
    rewrite <- app_assoc in IH. cbn [app] in IH.
    rewrite length_app in IH. cbn [List.length] in IH.
    replace (List.length pre + 1)%nat with (S (List.length pre)) in IH by lia.
    cbn [app]. rewrite IH. rewrite last_token_snoc. reflexivity.
Qed.

Lemma toRpn_as_run (tokens : list token) :
  toRpn tokens
  = (st <- toRpn_run None tokens ([], []) ;; drain (fst st) (snd st)).
Proof.
  unfold toRpn.
  pose proof (toRpn_for_run tokens [] [] ([], [])) as H.
  cbn [app List.length last_token] in H. rewrite app_nil_r in H.
  rewrite H. reflexivity.
Qed.

Lemma last_token_app (prev : option token) (a b : list token) :
  last_token prev (a ++ b) = last_token (last_token prev a) b.
Proof.
  destruct b as [|t b] using rev_ind.
  - rewrite app_nil_r. reflexivity.
  - rewrite app_assoc. rewrite !last_token_snoc. reflexivity.
Qed.

Lemma toRpn_run_app (prev : option token) (a b : list token) (st : rpn_state) :
  toRpn_run prev (a ++ b) st
  = (st' <- toRpn_run prev a st ;; toRpn_run (last_token prev a) b st').
Proof.
  revert prev st. induction a as [|t a IH]; intros prev st.
  - reflexivity.
  - cbn [app toRpn_run].
    destruct (toRpn_token prev t st) as [st'|err]; cbn [bind]; [|reflexivity].
    rewrite IH. change (t :: a) with ([t] ++ a). rewrite last_token_app.
    reflexivity.
Qed.

Lemma toRpn_token_prev (p q : option token) (t : token) (st : rpn_state) :
  unary_position p = unary_position q ->
  toRpn_token p t st = toRpn_token q t st.
Proof.
  intros H. destruct t; try reflexivity. cbn [toRpn_token]. rewrite H.
  reflexivity.
Qed.

Lemma toRpn_run_prev (p q : option token) (ts : list token) (st : rpn_state) :
  unary_position p = unary_position q ->
  toRpn_run p ts st = toRpn_run q ts st.
Proof.
  intros H. destruct ts as [|t ts]; [reflexivity|].
  cbn [toRpn_run]. rewrite (toRpn_token_prev p q) by exact H. reflexivity.
Qed.

(** ** Moving operators to the output *)

Lemma flush_top_below (p : Z) (out ops : list token) :
  top_below p ops = true -> flush p out ops = (out, ops).
Proof.
  destruct ops as [|[v|b| |] ops]; try reflexivity.
  cbn [top_below flush]. intros H. apply Z.ltb_lt in H.
  destruct (p <=? prec_of b) eqn:E; [apply Z.leb_le in E; lia|reflexivity].
Qed.

Lemma flush_flush (p q : Z) (out ops : list token) :
  p <= q ->
  flush p (fst (flush q out ops)) (snd (flush q out ops)) = flush p out ops.
Proof.
  intros Hpq. revert out. induction ops as [|t ops IH]; intros out.
  - reflexivity.
  - destruct t as [v|b| |]; try reflexivity.
    cbn [flush]. destruct (q <=? prec_of b) eqn:E.
    + apply Z.leb_le in E.
      replace (p <=? prec_of b) with true by (symmetry; apply Z.leb_le; lia).
      apply IH.
    + reflexivity.
Qed.

Lemma flush_eq (p q : Z) (st st' : rpn_state) :
  p <= q ->
  flush q (fst st) (snd st) = flush q (fst st') (snd st') ->
  flush p (fst st) (snd st) = flush p (fst st') (snd st').
Proof.
  intros Hpq H.
  rewrite <- (flush_flush p q (fst st)) by exact Hpq.
  rewrite <- (flush_flush p q (fst st')) by exact Hpq.
  rewrite H. reflexivity.
Qed.

Lemma pushOp_loop_binary (a : opname) (out ops : list token) :
  is_binary a = true -> pushOp_loop a out ops = flush (prec_of a) out ops.
Proof.
  intros Ha. revert out. induction ops as [|t ops IH]; intros out.
  - reflexivity.
  - destruct t as [v|b| |]; try reflexivity.
    cbn [pushOp_loop flush]. unfold pops.
    replace (rightAssoc a) with false by (destruct a; try discriminate; reflexivity).
    cbn [andb orb negb]. destruct (prec_of a <=? prec_of b); [apply IH|reflexivity].
Qed.

Lemma pushOp_loop_unary (a : opname) (out ops : list token) :
  is_binary a = false -> pushOp_loop a out ops = (out, ops).
Proof.
  intros Ha. destruct ops as [|t ops]; [reflexivity|].
  destruct t as [v|b| |]; try reflexivity.
  cbn [pushOp_loop]. unfold pops.
  destruct a; try discriminate; destruct b; reflexivity.
Qed.

Lemma pop_to_paren_flush (p : Z) (out ops : list token) :
  pop_to_paren (fst (flush p out ops)) (snd (flush p out ops))
  = pop_to_paren out ops.
Proof.
  revert out. induction ops as [|t ops IH]; intros out.
  - reflexivity.
  - destruct t as [v|b| |]; try reflexivity.
    cbn [flush]. destruct (p <=? prec_of b); [|reflexivity].
    rewrite IH. reflexivity.
Qed.

Lemma drain_flush (p : Z) (out ops : list token) :
  drain (fst (flush p out ops)) (snd (flush p out ops)) = drain out ops.
Proof.
  revert out. induction ops as [|t ops IH]; intros out.
  - reflexivity.
  - destruct t as [v|b| |]; try reflexivity.
    cbn [flush]. destruct (p <=? prec_of b); [|reflexivity].
    rewrite IH. reflexivity.
Qed.

Lemma top_below_mono (p q : Z) (ops : list token) :
  p <= q -> top_below p ops = true -> top_below q ops = true.
Proof.
  intros Hpq. destruct ops as [|[v|b| |] ops]; try reflexivity.
  cbn [top_below]. rewrite !Z.ltb_lt. lia.
Qed.

(** ** The converter on the tokens of an expression *)

Lemma tokens_of_last (e : expr) (prev : option token) :
  unary_position (last_token prev (tokens_of e)) = false.
Proof.
  revert prev. induction e as [raw|e IH|minus e IH|o a IHa b IHb]; intros prev.
  - reflexivity.
  - cbn [tokens_of]. rewrite app_comm_cons. rewrite last_token_snoc.
    reflexivity.
  - cbn [tokens_of].
    change (TOp (if minus then Sub else Add) :: tokens_of e)
      with ([TOp (if minus then Sub else Add)] ++ tokens_of e).
    rewrite last_token_app. apply IH.
  - cbn [tokens_of].
    change (tokens_of a ++ TOp o :: tokens_of b)
      with (tokens_of a ++ [TOp o] ++ tokens_of b).
    rewrite !last_token_app. apply IHb.
Qed.

Lemma level_range (e : expr) : 1 <= level e <= 3.
Proof. destruct e as [| | |o a b]; cbn; try lia. destruct o; cbn; lia. Qed.

Lemma toRpn_run_expr (e : expr) :
  grammatical e = true ->
  forall prev out ops,
    unary_position prev = true ->
    (level e < 3 -> top_below (level e) ops = true) ->
    exists st,
      toRpn_run prev (tokens_of e) (out, ops) = Ok st /\
      flush (level e) (fst st) (snd st)
      = flush (level e) (out ++ postfix e) ops.
Proof.
  induction e as [raw|e IH|minus e IH|o a IHa b IHb];
    intros Hg prev out ops Hprev Htop.
  - eexists. split; reflexivity.
  - cbn [grammatical] in Hg. cbn [tokens_of toRpn_run toRpn_token bind fst snd].
    destruct (IH Hg (Some TLParen) out (TLParen :: ops) eq_refl
                 (fun _ => eq_refl)) as [st [Hrun Hfl]].
    rewrite toRpn_run_app, Hrun. cbn [bind toRpn_run toRpn_token].
    rewrite <- (pop_to_paren_flush (level e)). rewrite Hfl.
    cbn [flush fst snd pop_to_paren].
    eexists. split; [reflexivity|]. reflexivity.
  - cbn [grammatical] in Hg. apply andb_true_iff in Hg as [Hg Hl].
    apply Z.eqb_eq in Hl.
    cbn [tokens_of toRpn_run toRpn_token]. rewrite Hprev.
    assert (Hpush : forall u, is_binary u = false ->
              pushOp u (out, ops) = (out, TOp u :: ops)).
    { intros u Hu. unfold pushOp. cbn [fst snd].
      rewrite pushOp_loop_unary by exact Hu. reflexivity. }
    set (u := if minus then UMinus else UPlus).
    assert (Hstep : (if minus
                     then Ok (pushOp (if true then UMinus else Sub) (out, ops))
                     else Ok (pushOp (if true then UPlus else Add) (out, ops)))
                    = Ok (out, TOp u :: ops)).
    { unfold u. destruct minus; rewrite Hpush; reflexivity. }
    replace (match (if minus then Sub else Add) with
             | Add => Ok (pushOp (if true then UPlus else Add) (out, ops))
             | Sub => Ok (pushOp (if true then UMinus else Sub) (out, ops))
             | _ => Ok (pushOp (if minus then Sub else Add) (out, ops))
             end) with (Ok (out, TOp u :: ops) : result rpn_state)
      by (destruct minus; symmetry; exact Hstep).
    cbn [bind].
    destruct (IH Hg (Some (TOp (if minus then Sub else Add))) out
                 (TOp u :: ops) eq_refl) as [st [Hrun Hfl]].
    { intros H. lia. }
    exists st. split; [exact Hrun|].
    change (level (Sign minus e)) with 3. rewrite Hl in Hfl. rewrite Hfl.
    cbn [flush postfix].
    replace (3 <=? prec_of u) with true by (unfold u; destruct minus; reflexivity).
    rewrite app_assoc. reflexivity.
  - cbn [grammatical] in Hg.
    apply andb_true_iff in Hg as [Hg Hlb]. apply andb_true_iff in Hg as [Hg Hla].
    apply andb_true_iff in Hg as [Hg Hgb]. apply andb_true_iff in Hg as [Ho Hga].
    apply Z.leb_le in Hla. apply Z.ltb_lt in Hlb.
    change (level (Bin o a b)) with (prec_of o) in *.
    assert (Ho3 : prec_of o < 3) by (destruct o; try discriminate; cbn; lia).
    specialize (Htop Ho3).
    cbn [tokens_of]. rewrite toRpn_run_app.
    destruct (IHa Hga prev out ops Hprev) as [sta [Hruna Hfla]].
    { intros _. apply (top_below_mono (prec_of o)); assumption. }
    rewrite Hruna. cbn [bind toRpn_run].
    assert (Hstep : toRpn_token (last_token prev (tokens_of a)) (TOp o) sta
                    = Ok (out ++ postfix a, TOp o :: ops)).
    { unfold toRpn_token. rewrite tokens_of_last.
      assert (Hp : pushOp o sta = (out ++ postfix a, TOp o :: ops)).
      { unfold pushOp. rewrite pushOp_loop_binary by exact Ho.
        rewrite (flush_eq (prec_of o) (level a) sta (out ++ postfix a, ops))
          by assumption.
        cbn [fst snd]. rewrite flush_top_below by exact Htop. reflexivity. }
      destruct o; try discriminate; rewrite Hp; reflexivity. }
    rewrite Hstep. cbn [bind].
    destruct (IHb Hgb (Some (TOp o)) (out ++ postfix a) (TOp o :: ops) eq_refl)
      as [stb [Hrunb Hflb]].
    { intros _. cbn [top_below]. apply Z.ltb_lt. exact Hlb. }
    exists stb. split; [exact Hrunb|].
    rewrite (flush_eq (prec_of o) (level b) stb
               ((out ++ postfix a) ++ postfix b, TOp o :: ops)).
    + cbn [fst snd flush postfix]. rewrite Z.leb_refl.
      rewrite <- !app_assoc. reflexivity.
    + lia.
    + rewrite Hflb. cbn [fst snd].
      symmetry. rewrite flush_top_below; [reflexivity|].
      cbn [top_below]. apply Z.ltb_lt. exact Hlb.
Qed.

Lemma toRpn_tokens_of (e : expr) :
  grammatical e = true -> toRpn (tokens_of e) = Ok (postfix e).
Proof.
  intros Hg. rewrite toRpn_as_run.
  destruct (toRpn_run_expr e Hg None [] [] eq_refl (fun _ => eq_refl))
    as [st [Hrun Hfl]].
  rewrite Hrun. cbn [bind].
  rewrite <- (drain_flush (level e)). rewrite Hfl. reflexivity.
Qed.

(** ** The evaluation of a postfix form *)

Lemma evalRpn_loop_postfix (e : expr) :
  grammatical e = true ->
  forall st,
    evalRpn_loop (postfix e) st = (v <- eval e ;; Ok (v :: st)).
Proof.
  induction e as [raw|e IH|minus e IH|o a IHa b IHb]; intros Hg st.
  - reflexivity.
  - apply IH. exact Hg.
  - cbn [grammatical] in Hg. apply andb_true_iff in Hg as [Hg _].
    cbn [postfix eval]. rewrite evalRpn_loop_app, IH by exact Hg.
    destruct (eval e) as [v|err]; cbn [bind]; [|reflexivity].
    destruct minus; reflexivity.
  - cbn [grammatical] in Hg.
    apply andb_true_iff in Hg as [Hg _]. apply andb_true_iff in Hg as [Hg _].
    apply andb_true_iff in Hg as [Hg Hgb]. apply andb_true_iff in Hg as [Ho Hga].
    cbn [postfix eval]. rewrite evalRpn_loop_app, IHa by exact Hga.
    destruct (eval a) as [x|err]; cbn [bind]; [|reflexivity].
    rewrite evalRpn_loop_app, IHb by exact Hgb.
    destruct (eval b) as [y|err]; cbn [bind]; [|reflexivity].
    cbn [evalRpn_loop]. rewrite evalRpn_step_binary by exact Ho.
    destruct (match o with Div => strict_eqb y zero | _ => false end);
      [reflexivity|].
    destruct (isFinite (binop o x y)); reflexivity.
Qed.

Lemma evalRpn_postfix (e : expr) :
  grammatical e = true -> evalRpn (postfix e) = eval e.
Proof.
  intros Hg. unfold evalRpn. rewrite evalRpn_loop_postfix by exact Hg.
  destruct (eval e); reflexivity.
Qed.

(** ** The scan, piece by piece *)

Lemma tokenize_loop_nil (fuel : nat) (acc : list token) :
  tokenize_loop fuel [] acc = Ok acc.
Proof. destruct fuel; reflexivity. Qed.

Lemma tokenize_as_tokens_from (input : jsstring) :
  tokenize input = tokens_from (filter not_space input) [].
Proof. unfold tokenize, tokens_from. rewrite replace_all_spaces. reflexivity. Qed.

Lemma test_number_char (c : char) :
  test re_number_char [c] = is_digit_or_dot c.
Proof. apply test_one_char. Qed.

Lemma test_number_start (c : char) :
  test re_number_start [c] = is_digit_or_dot c.
Proof. apply test_one_char. Qed.

Lemma scan_run_spec (s : jsstring) :
  s = fst (scan_run s) ++ snd (scan_run s) /\
  forallb is_digit_or_dot (fst (scan_run s)) = true /\
  run_ends (snd (scan_run s)).
Proof.
  induction s as [|c s IH].
  - repeat split.
  - cbn [scan_run]. rewrite test_number_char.
    destruct (is_digit_or_dot c) eqn:Ec.
    + destruct (scan_run s) as [run rest]. cbn [fst snd] in *.
      destruct IH as [IH1 [IH2 IH3]]. repeat split.
      * cbn [app]. f_equal. exact IH1.
      * cbn [forallb]. rewrite Ec, IH2. reflexivity.
      * exact IH3.
    + cbn [fst snd app forallb run_ends]. repeat split. exact Ec.
Qed.

Lemma scan_run_rest (s rest : jsstring) :
  run_ends rest ->
  scan_run (s ++ rest) = (fst (scan_run s), snd (scan_run s) ++ rest).
Proof.
  intros Hrest.
  destruct (scan_run_spec s) as [Hs [Hall Hends]].
  rewrite Hs at 1. rewrite <- app_assoc.
  apply scan_run_app; [exact Hall|].
  destruct (snd (scan_run s)) as [|c r]; [exact Hrest|exact Hends].
Qed.

Lemma tokenize_loop_app (n : nat) :
  forall (s rest : jsstring) (acc : list token) (f1 f2 f3 : nat),
    (List.length s <= n)%nat ->
    (List.length (s ++ rest) <= f1)%nat -> (List.length s <= f2)%nat ->
    (List.length rest <= f3)%nat -> run_ends rest ->
    tokenize_loop f1 (s ++ rest) acc
    = (ts <- tokenize_loop f2 s acc ;; tokenize_loop f3 rest ts).
Proof.
  induction n as [|n IH]; intros s rest acc f1 f2 f3 Hn H1 H2 H3 Hrest.
  - destruct s; [|cbn in Hn; lia].
    rewrite tokenize_loop_nil. cbn [app bind].
    apply tokenize_loop_fuel; [exact H1|exact H3].
  - destruct s as [|ch s'].
    + rewrite tokenize_loop_nil. cbn [app bind].
      apply tokenize_loop_fuel; [exact H1|exact H3].
    + cbn [List.length app] in *.
      destruct f1 as [|f1]; [lia|]. destruct f2 as [|f2]; [lia|].
      cbn [tokenize_loop].
      destruct (test re_number_start [ch]).
      * rewrite scan_run_rest by exact Hrest.
        destruct (scan_run_spec s') as [Hs' _].
        pose proof (scan_run_length s') as Hlen.
        destruct (scan_run s') as [run r]. cbn [fst snd] in *.
        destruct (negb (test_anchored re_number (ch :: run))); [reflexivity|].
        destruct (negb (isFinite (of_decimal (ch :: run)))); [reflexivity|].
        apply IH; try assumption; try lia.
        rewrite Hs' in H1. rewrite <- app_assoc in H1.
        rewrite length_app in H1. lia.
      * destruct (char_eqb ch (chr "(") || char_eqb ch (chr ")"))%bool.
        -- apply IH; try assumption; lia.
        -- destruct (operator_of ch); [|reflexivity].
           apply IH; try assumption; lia.
Qed.

Lemma tokens_from_app (s rest : jsstring) (acc : list token) :
  run_ends rest ->
  tokens_from (s ++ rest) acc
  = (ts <- tokens_from s acc ;; tokens_from rest ts).
Proof.
  intros Hrest. unfold tokens_from.
  apply (tokenize_loop_app (List.length s)); auto.
Qed.

Lemma tokens_from_nil (acc : list token) : tokens_from [] acc = Ok acc.
Proof. reflexivity. Qed.

Lemma tokens_from_lparen (s : jsstring) (acc : list token) :
  tokens_from (chr "(" :: s) acc = tokens_from s (acc ++ [TLParen]).
Proof. reflexivity. Qed.

Lemma tokens_from_rparen (s : jsstring) (acc : list token) :
  tokens_from (chr ")" :: s) acc = tokens_from s (acc ++ [TRParen]).
Proof. reflexivity. Qed.

Lemma operator_not_number (c : char) (o : opname) :
  operator_of c = Some o -> is_digit_or_dot c = false.
Proof.
  unfold operator_of, char_eqb.
  destruct (Z.eqb_spec c (chr "+")) as [->|_]; [reflexivity|].
  destruct (Z.eqb_spec c (chr "-")) as [->|_]; [reflexivity|].
  destruct (Z.eqb_spec c (chr "*")) as [->|_]; [reflexivity|].
  destruct (Z.eqb_spec c (chr "/")) as [->|_]; [reflexivity|].
  discriminate.
Qed.

Lemma operator_not_paren (c : char) (o : opname) :
  operator_of c = Some o ->
  (char_eqb c (chr "(") || char_eqb c (chr ")"))%bool = false.
Proof.
  unfold operator_of, char_eqb.
  destruct (Z.eqb_spec c (chr "+")) as [->|_]; [reflexivity|].
  destruct (Z.eqb_spec c (chr "-")) as [->|_]; [reflexivity|].
  destruct (Z.eqb_spec c (chr "*")) as [->|_]; [reflexivity|].
  destruct (Z.eqb_spec c (chr "/")) as [->|_]; [reflexivity|].
  discriminate.
Qed.

Lemma tokens_from_operator (c : char) (o : opname) (s : jsstring)
      (acc : list token) :
  operator_of c = Some o ->
  tokens_from (c :: s) acc = tokens_from s (acc ++ [TOp o]).
Proof.
  intros Ho. unfold tokens_from. cbn [List.length tokenize_loop].
  rewrite test_number_start, (operator_not_number c o Ho).
  rewrite (operator_not_paren c o Ho), Ho. reflexivity.
Qed.

Lemma tokens_from_other (c : char) (s : jsstring) (acc : list token) :
  is_digit_or_dot c = false ->
  (char_eqb c (chr "(") || char_eqb c (chr ")"))%bool = false ->
  operator_of c = None ->
  tokens_from (c :: s) acc = Err (UnexpectedCharacter c).
Proof.
  intros Hd Hp Ho. unfold tokens_from. cbn [List.length tokenize_loop].
  rewrite test_number_start, Hd, Hp, Ho. reflexivity.
Qed.

Lemma tokens_from_number (raw rest : jsstring) (acc : list token) :
  raw <> [] -> forallb is_digit_or_dot raw = true -> run_ends rest ->
  tokens_from (raw ++ rest) acc
  = if valid_run raw then
      if isFinite (of_decimal raw) then
        tokens_from rest (acc ++ [TNum (of_decimal raw)])
      else Err NumberTooLarge
    else Err InvalidNumber.
Proof.
  intros Hne Hall Hrest. unfold tokens_from.
  destruct raw as [|ch run] eqn:Eraw; [congruence|]. rewrite <- Eraw in *.
  replace (List.length (raw ++ rest))
    with (S (List.length (run ++ rest)))
    by (rewrite Eraw; reflexivity).
  rewrite tokenize_loop_run by assumption.
  rewrite re_number_spec by exact Hall. fold (valid_run raw).
  destruct (valid_run raw); [|reflexivity].
  destruct (isFinite (of_decimal raw)); [|reflexivity].
  apply tokenize_loop_fuel; [rewrite length_app; lia|lia].
Qed.

(** ** The scan of the text of an expression *)

Lemma symbol_operator (o : opname) :
  is_binary o = true -> operator_of (symbol o) = Some o.
Proof. destruct o; try discriminate; reflexivity. Qed.

Lemma symbol_ends (o : opname) (s : jsstring) : run_ends (symbol o :: s).
Proof. destruct o; reflexivity. Qed.

Lemma tokens_from_show (e : expr) :
  grammatical e = true -> literals_valid e = true ->
  forall acc, tokens_from (show e) acc = Ok (acc ++ tokens_of e).
Proof.
  induction e as [raw|e IH|minus e IH|o a IHa b IHb]; intros Hg Hl acc.
  - cbn [literals_valid] in Hl.
    apply andb_true_iff in Hl as [Hl Hfin]. apply andb_true_iff in Hl as [Hl Hval].
    apply andb_true_iff in Hl as [Hne Hall].
    cbn [show tokens_of].
    pose proof (tokens_from_number raw [] acc) as H.
    rewrite app_nil_r in H. rewrite H; [|destruct raw; [discriminate|congruence]|exact Hall|exact I].
    rewrite Hval, Hfin. reflexivity.
  - cbn [show tokens_of grammatical literals_valid] in *.
    rewrite tokens_from_lparen.
    rewrite tokens_from_app by reflexivity.
    rewrite IH by assumption. cbn [bind].
    rewrite tokens_from_rparen. rewrite tokens_from_nil.
    rewrite <- !app_assoc. reflexivity.
  - cbn [show tokens_of grammatical literals_valid] in *.
    apply andb_true_iff in Hg as [Hg _].
    rewrite (tokens_from_operator _ (if minus then Sub else Add))
      by (destruct minus; reflexivity).
    rewrite IH by assumption. rewrite <- app_assoc. reflexivity.
  - cbn [show tokens_of grammatical literals_valid] in *.
    apply andb_true_iff in Hg as [Hg _]. apply andb_true_iff in Hg as [Hg _].
    apply andb_true_iff in Hg as [Hg Hgb]. apply andb_true_iff in Hg as [Ho Hga].
    apply andb_true_iff in Hl as [Hla Hlb].
    rewrite tokens_from_app by apply symbol_ends.
    rewrite IHa by assumption. cbn [bind].
    rewrite (tokens_from_operator _ o) by (apply symbol_operator; exact Ho).
    rewrite IHb by assumption. rewrite <- !app_assoc. reflexivity.
Qed.

Lemma show_no_space (e : expr) :
  grammatical e = true -> literals_valid e = true ->
  forallb not_space (show e) = true.
Proof.
  induction e as [raw|e IH|minus e IH|o a IHa b IHb]; intros Hg Hl.
  - cbn [literals_valid] in Hl.
    apply andb_true_iff in Hl as [Hl _]. apply andb_true_iff in Hl as [Hl _].
    apply andb_true_iff in Hl as [_ Hall].
    apply digit_or_dot_not_space. exact Hall.
  - cbn [show grammatical literals_valid] in *. cbn [forallb].
    rewrite forallb_app, IH by assumption. reflexivity.
  - cbn [show grammatical literals_valid] in *.
    apply andb_true_iff in Hg as [Hg _]. cbn [forallb].
    rewrite IH by assumption. destruct minus; reflexivity.
  - cbn [show grammatical literals_valid] in *.
    apply andb_true_iff in Hg as [Hg _]. apply andb_true_iff in Hg as [Hg _].
    apply andb_true_iff in Hg as [Hg Hgb]. apply andb_true_iff in Hg as [Ho Hga].
    apply andb_true_iff in Hl as [Hla Hlb].
    rewrite forallb_app. cbn [forallb].
    rewrite IHa, IHb by assumption. destruct o; reflexivity.
Qed.

Lemma tokenize_show (e : expr) :
  grammatical e = true -> literals_valid e = true ->
  tokenize (show e) = Ok (tokens_of e).
Proof.
  intros Hg Hl. rewrite tokenize_as_tokens_from.
  rewrite filter_not_space_all by (apply show_no_space; assumption).
  apply (tokens_from_show e Hg Hl []).
Qed.

Lemma tokens_of_nonempty (e : expr) : tokens_of e <> [].
Proof.
  induction e as [raw|e IH|minus e IH|o a IHa b IHb]; cbn [tokens_of];
    try discriminate.
  destruct (tokens_of a); discriminate.
Qed.

Lemma evaluate_show (e : expr) :
  grammatical e = true -> literals_valid e = true ->
  evaluate (show e) = eval e.
Proof.
  intros Hg Hl. unfold evaluate. rewrite tokenize_show by assumption.
  cbn [bind]. pose proof (tokens_of_nonempty e) as Hne.
  destruct (tokens_of e) eqn:E; [congruence|]. rewrite <- E.
  rewrite toRpn_tokens_of by exact Hg. cbn [bind].
  apply evalRpn_postfix. exact Hg.
Qed.

(** ** What the converter moves *)

Lemma pushOp_loop_moves (a : opname) (out ops : list token) :
  exists moved rest,
    pushOp_loop a out ops = (out ++ moved, rest) /\
    ops = moved ++ rest /\ forallb is_op moved = true.
Proof.
  revert out. induction ops as [|t ops IH]; intros out.
  - exists [], []. cbn. rewrite app_nil_r. auto.
  - destruct t as [v|b| |];
      try (exists [], (TNum v :: ops); cbn; rewrite app_nil_r; auto; fail);
      try (exists [], (TLParen :: ops); cbn; rewrite app_nil_r; auto; fail);
      try (exists [], (TRParen :: ops); cbn; rewrite app_nil_r; auto; fail).
    cbn [pushOp_loop]. destruct (pops a b).
    + destruct (IH (out ++ [TOp b])) as [moved [rest [H1 [H2 H3]]]].
      exists (TOp b :: moved), rest. rewrite H1, <- app_assoc, H2.
      cbn [app forallb is_op]. rewrite H3. auto.
    + exists [], (TOp b :: ops). cbn. rewrite app_nil_r. auto.
Qed.

Lemma pop_to_paren_moves (out ops : list token) :
  exists moved rest,
    pop_to_paren out ops = (out ++ moved, rest) /\
    ops = moved ++ rest /\ existsb is_lparen moved = false /\
    (rest = [] \/ exists rest', rest = TLParen :: rest').
Proof.
  revert out. induction ops as [|t ops IH]; intros out.
  - exists [], []. cbn. rewrite app_nil_r. auto.
  - destruct t as [v|b| |].
    + destruct (IH (out ++ [TNum v])) as [moved [rest [H1 [H2 [H3 H4]]]]].
      exists (TNum v :: moved), rest. cbn [pop_to_paren].
      rewrite H1, <- app_assoc, H2. cbn [app existsb is_lparen orb]. auto.
    + destruct (IH (out ++ [TOp b])) as [moved [rest [H1 [H2 [H3 H4]]]]].
      exists (TOp b :: moved), rest. cbn [pop_to_paren].
      rewrite H1, <- app_assoc, H2. cbn [app existsb is_lparen orb]. auto.
    + exists [], (TLParen :: ops). cbn. rewrite app_nil_r.
      repeat split; eauto.
    + destruct (IH (out ++ [TRParen])) as [moved [rest [H1 [H2 [H3 H4]]]]].
      exists (TRParen :: moved), rest. cbn [pop_to_paren].
      rewrite H1, <- app_assoc, H2. cbn [app existsb is_lparen orb]. auto.
Qed.

Lemma drain_ok (out ops rpn : list token) :
  drain out ops = Ok rpn ->
  existsb is_lparen ops = false /\ rpn = out ++ ops.
Proof.
  revert out. induction ops as [|t ops IH]; intros out H.
  - cbn in H. injection H as <-. rewrite app_nil_r. auto.
  - destruct t as [v|b| |]; cbn [drain] in H; try discriminate;
      apply IH in H as [H1 H2]; rewrite <- app_assoc in H2;
      cbn [existsb is_lparen orb]; auto.
Qed.

Lemma drain_no_lparen (out ops : list token) :
  existsb is_lparen ops = false -> drain out ops = Ok (out ++ ops).
Proof.
  revert out. induction ops as [|t ops IH]; intros out H.
  - cbn. rewrite app_nil_r. reflexivity.
  - destruct t as [v|b| |]; cbn [existsb is_lparen orb] in H; try discriminate;
      cbn [drain]; rewrite IH by exact H; rewrite <- app_assoc; reflexivity.
Qed.

Lemma only_ops (m : list token) :
  forallb (fun t => is_op t || is_lparen t)%bool m = true ->
  existsb is_lparen m = false -> forallb is_op m = true.
Proof.
  induction m as [|x m IH]; [reflexivity|].
  cbn [forallb existsb]. intros H1 H2.
  apply andb_true_iff in H1 as [Hx Hm]. apply orb_false_iff in H2 as [Hlx Hlm].
  rewrite IH by assumption. destruct x; try discriminate; reflexivity.
Qed.

Lemma ops_no_paren (m : list token) :
  forallb is_op m = true -> existsb is_paren m = false.
Proof.
  induction m as [|x m IH]; [reflexivity|].
  cbn [forallb existsb]. intros H. apply andb_true_iff in H as [Hx Hm].
  rewrite IH by assumption. destruct x; try discriminate; reflexivity.
Qed.

Lemma ops_no_num (m : list token) :
  forallb is_op m = true -> filter is_num m = [].
Proof.
  induction m as [|x m IH]; [reflexivity|].
  cbn [forallb]. intros H. apply andb_true_iff in H as [Hx Hm].
  destruct x; try discriminate. cbn [filter is_num]. apply IH. exact Hm.
Qed.

Lemma pushOp_keeps (a : opname) (b : opname) (seen : list token)
      (st : rpn_state) :
  keeps seen st -> keeps (seen ++ [TOp b]) (pushOp a st).
Proof.
  destruct st as [out ops]. unfold keeps. cbn [fst snd].
  intros [Ha [Hb [Hc Hd]]]. unfold pushOp. cbn [fst snd].
  destruct (pushOp_loop_moves a out ops) as [moved [rest [H1 [H2 H3]]]].
  rewrite H1. cbn [fst snd]. subst ops.
  rewrite forallb_app in Hc. apply andb_true_iff in Hc as [Hc1 Hc2].
  rewrite existsb_app, Ha, (ops_no_paren moved H3).
  rewrite !filter_app, (ops_no_num moved H3), ?app_nil_r, Hb.
  cbn [forallb is_op is_lparen orb andb filter is_num]. rewrite Hc2, ?app_nil_r.
  rewrite !length_app in *. cbn [List.length].
  rewrite filter_app, length_app in Hd. repeat split; lia.
Qed.

Lemma toRpn_token_keeps (prev : option token) (t : token)
      (seen : list token) (st st' : rpn_state) :
  keeps seen st -> toRpn_token prev t st = Ok st' -> keeps (seen ++ [t]) st'.
Proof.
  intros Hk Hstep. destruct t as [v|b| |]; cbn [toRpn_token] in Hstep.
  - injection Hstep as <-. destruct st as [out ops]. unfold keeps in *.
    cbn [fst snd] in *. destruct Hk as [Ha [Hb [Hc Hd]]].
    rewrite existsb_app, Ha, !filter_app, Hb, !length_app.
    cbn [existsb is_paren filter is_num is_op List.length orb].
    repeat split; auto; lia.
  - destruct b; destruct (unary_position prev); injection Hstep as <-;
      apply pushOp_keeps; exact Hk.
  - injection Hstep as <-. destruct st as [out ops]. unfold keeps in *.
    cbn [fst snd] in *. destruct Hk as [Ha [Hb [Hc Hd]]].
    rewrite !filter_app, !length_app.
    cbn [filter is_num is_op List.length forallb is_lparen orb andb].
    rewrite app_nil_r. repeat split; auto; lia.
  - destruct st as [out ops]. unfold keeps in *.
    cbn [fst snd] in *. destruct Hk as [Ha [Hb [Hc Hd]]].
    destruct (pop_to_paren_moves out ops) as [moved [rest [H1 [H2 [H3 H4]]]]].
    rewrite H1 in Hstep. destruct rest as [|x rest]; [discriminate|].
    injection Hstep as <-. cbn [fst snd]. subst ops.
    destruct H4 as [H4|[rest' H4]]; [discriminate|]. injection H4 as -> ->.
    rewrite forallb_app in Hc. apply andb_true_iff in Hc as [Hc1 Hc2].
    cbn [forallb] in Hc2. apply andb_true_iff in Hc2 as [_ Hc2].
    pose proof (only_ops moved Hc1 H3) as Hm.
    rewrite existsb_app, Ha, (ops_no_paren moved Hm).
    rewrite !filter_app in *. rewrite (ops_no_num moved Hm), Hb.
    cbn [filter is_num is_op app] in *. rewrite ?app_nil_r, ?length_app in *.
    cbn [List.length] in *. repeat split; auto; lia.
Qed.

Lemma toRpn_run_keeps (ts : list token) :
  forall (prev : option token) (seen : list token) (st st' : rpn_state),
    keeps seen st -> toRpn_run prev ts st = Ok st' -> keeps (seen ++ ts) st'.
Proof.
  induction ts as [|t ts IH]; intros prev seen st st' Hk Hrun.
  - cbn in Hrun. injection Hrun as <-. rewrite app_nil_r. exact Hk.
  - cbn [toRpn_run] in Hrun. apply bind_ok in Hrun as [st1 [Hstep Hrun]].
    replace (seen ++ t :: ts) with ((seen ++ [t]) ++ ts)
      by (rewrite <- app_assoc; reflexivity).
    apply (IH (Some t) _ st1); [|exact Hrun].
    apply (toRpn_token_keeps prev t seen st); assumption.
Qed.

Lemma toRpn_keeps (tokens rpn : list token) :
  toRpn tokens = Ok rpn ->
  existsb is_paren rpn = false /\
  filter is_num rpn = filter is_num tokens /\
  List.length (filter is_op rpn) = List.length (filter is_op tokens).
Proof.
  intros H. rewrite toRpn_as_run in H. apply bind_ok in H as [st [Hrun Hdr]].
  apply (toRpn_run_keeps tokens None [] ([], [])) in Hrun.
  2:{ repeat split. }
  destruct Hrun as [Ha [Hb [Hc Hd]]]. cbn [app] in *.
  apply drain_ok in Hdr as [Hl ->].
  pose proof (only_ops (snd st) Hc Hl) as Hm.
  rewrite existsb_app, Ha, (ops_no_paren _ Hm).
  rewrite !filter_app, (ops_no_num _ Hm), app_nil_r, length_app.
  auto.
Qed.

(** ** The errors of the three stages *)

Lemma tokenize_loop_errors (fuel : nat) (s : jsstring) (acc : list token)
      (err : error) :
  tokenize_loop fuel s acc = Err err ->
  err = InvalidNumber \/ err = NumberTooLarge \/
  exists ch, err = UnexpectedCharacter ch /\ In ch s /\ token_char ch = false.
Proof.
  revert s acc. induction fuel as [|fuel IH]; intros s acc H; [discriminate|].
  destruct s as [|ch s']; [discriminate|]. cbn [tokenize_loop] in H.
  rewrite test_number_start in H.
  destruct (is_digit_or_dot ch) eqn:Ed.
  - destruct (scan_run_spec s') as [Hs' _].
    destruct (scan_run s') as [run r]. cbn [fst snd] in Hs'.
    destruct (negb (test_anchored re_number (ch :: run)));
      [injection H as <-; auto|].
    destruct (negb (isFinite (of_decimal (ch :: run))));
      [injection H as <-; auto|].
    apply IH in H as [H|[H|[c [H1 [H2 H3]]]]]; auto.
    right; right. exists c. repeat split; auto.
    right. rewrite Hs'. apply in_or_app. right. exact H2.
  - destruct (char_eqb ch (chr "(") || char_eqb ch (chr ")"))%bool eqn:Ep.
    + apply IH in H as [H|[H|[c [H1 [H2 H3]]]]]; auto.
      right; right. exists c. repeat split; auto. right. exact H2.
    + destruct (operator_of ch) eqn:Eo.
      * apply IH in H as [H|[H|[c [H1 [H2 H3]]]]]; auto.
        right; right. exists c. repeat split; auto. right. exact H2.
      * injection H as <-. right; right. exists ch. repeat split.
        -- left. reflexivity.
        -- unfold token_char, isOperator. rewrite Ed, Eo.
           apply orb_false_iff in Ep as [-> ->]. reflexivity.
Qed.

Lemma tokenize_errors (input : jsstring) (err : error) :
  tokenize input = Err err ->
  err = InvalidNumber \/ err = NumberTooLarge \/
  exists ch, err = UnexpectedCharacter ch /\ In ch input /\
             in_alphabet ch = false.
Proof.
  rewrite tokenize_as_tokens_from. unfold tokens_from. intros H.
  apply tokenize_loop_errors in H as [H|[H|[ch [H1 [H2 H3]]]]]; auto.
  right; right. exists ch. apply filter_In in H2 as [H2 H4].
  repeat split; auto. unfold in_alphabet. rewrite H3.
  unfold not_space in H4. destruct (is_space ch); [discriminate|reflexivity].
Qed.

Lemma toRpn_token_errors (prev : option token) (t : token) (st : rpn_state)
      (err : error) :
  toRpn_token prev t st = Err err -> err = MismatchedParentheses.
Proof.
  destruct t as [v|b| |]; cbn [toRpn_token]; try discriminate.
  - destruct b; discriminate.
  - destruct (pop_to_paren (fst st) (snd st)) as [out [|x ops]];
      [|discriminate].
    intros H. injection H as <-. reflexivity.
Qed.

Lemma toRpn_run_errors (ts : list token) :
  forall (prev : option token) (st : rpn_state) (err : error),
    toRpn_run prev ts st = Err err -> err = MismatchedParentheses.
Proof.
  induction ts as [|t ts IH]; intros prev st err H; [discriminate|].
  cbn [toRpn_run] in H.
  destruct (toRpn_token prev t st) as [st'|e] eqn:E; cbn [bind] in H.
  - apply (IH _ _ _ H).
  - injection H as <-. apply (toRpn_token_errors _ _ _ _ E).
Qed.

Lemma drain_errors (out ops : list token) (err : error) :
  drain out ops = Err err -> err = MismatchedParentheses.
Proof.
  revert out. induction ops as [|t ops IH]; intros out H; [discriminate|].
  destruct t as [v|b| |]; cbn [drain] in H; try (apply (IH _ H)).
  injection H as <-. reflexivity.
Qed.

Lemma toRpn_errors (tokens : list token) (err : error) :
  toRpn tokens = Err err -> err = MismatchedParentheses.
Proof.
  rewrite toRpn_as_run. intros H.
  destruct (toRpn_run None tokens ([], [])) as [st|e] eqn:E; cbn [bind] in H.
  - apply (drain_errors _ _ _ H).
  - injection H as <-. apply (toRpn_run_errors _ _ _ _ E).
Qed.

Lemma evalRpn_step_errors (t : token) (st : list float64) (err : error) :
  is_paren t = false -> evalRpn_step t st = Err err ->
  err = InvalidExpression \/ err = DivisionByZero \/ err = ResultNotFinite.
Proof.
  intros Hp H. destruct t as [v|o| |]; try discriminate.
  destruct o; cbn [evalRpn_step] in H;
    destruct st as [|b [|a st']]; try discriminate;
    try (injection H as <-; auto; fail);
    cbn [bind] in H;
    try (destruct (negb (isFinite _)); [injection H as <-; auto|discriminate]).
  destruct (strict_eqb b zero); cbn [bind] in H.
  - injection H as <-. auto.
  - destruct (negb (isFinite _)); [injection H as <-; auto|discriminate].
Qed.

Lemma evalRpn_loop_errors (rpn : list token) :
  forall (st : list float64) (err : error),
    existsb is_paren rpn = false -> evalRpn_loop rpn st = Err err ->
    err = InvalidExpression \/ err = DivisionByZero \/ err = ResultNotFinite.
Proof.
  induction rpn as [|t rpn IH]; intros st err Hp H; [discriminate|].
  cbn [existsb] in Hp. apply orb_false_iff in Hp as [Hp1 Hp2].
  cbn [evalRpn_loop] in H.
  destruct (evalRpn_step t st) as [st'|e] eqn:E; cbn [bind] in H.
  - apply (IH _ _ Hp2 H).
  - injection H as <-. apply (evalRpn_step_errors _ _ _ Hp1 E).
Qed.

Lemma evalRpn_errors (rpn : list token) (err : error) :
  existsb is_paren rpn = false -> evalRpn rpn = Err err ->
  err = InvalidExpression \/ err = DivisionByZero \/ err = ResultNotFinite.
Proof.
  intros Hp H. unfold evalRpn in H.
  destruct (evalRpn_loop rpn []) as [st|e] eqn:E; cbn [bind] in H.
  - destruct st as [|v [|w st]]; try discriminate; injection H as <-; auto.
  - injection H as <-. apply (evalRpn_loop_errors _ _ _ Hp E).
Qed.

Lemma evaluate_errors (input : jsstring) (err : error) :
  evaluate input = Err err ->
  (err = InvalidNumber \/ err = NumberTooLarge \/
   exists ch, err = UnexpectedCharacter ch /\ In ch input /\
              in_alphabet ch = false) \/
  err = MismatchedParentheses \/
  err = InvalidExpression \/ err = DivisionByZero \/ err = ResultNotFinite.
Proof.
  unfold evaluate. intros H.
  destruct (tokenize input) as [tokens|e] eqn:Et; cbn [bind] in H.
  - destruct tokens as [|t tokens]; [discriminate|].
    destruct (toRpn (t :: tokens)) as [rpn|e] eqn:Er; cbn [bind] in H.
    + right; right. apply toRpn_keeps in Er as [Hp _].
      apply (evalRpn_errors _ _ Hp H).
    + injection H as <-. right; left. apply (toRpn_errors _ _ Er).
  - injection H as <-. left. apply (tokenize_errors _ _ Et).
Qed.

(** ** The characters of a string that the tokenizer accepts *)

Lemma digit_or_dot_token_char (s : jsstring) :
  forallb is_digit_or_dot s = true -> forallb token_char s = true.
Proof.
  induction s as [|c s IH]; [reflexivity|]. cbn [forallb]. intros H.
  apply andb_true_iff in H as [Hc Hs]. rewrite IH by exact Hs.
  unfold token_char. rewrite Hc. reflexivity.
Qed.

Lemma tokenize_loop_alphabet (fuel : nat) :
  forall (s : jsstring) (acc ts : list token),
    (List.length s <= fuel)%nat ->
    tokenize_loop fuel s acc = Ok ts -> forallb token_char s = true.
Proof.
  induction fuel as [|fuel IH]; intros s acc ts Hlen H.
  - destruct s; [reflexivity|cbn in Hlen; lia].
  - destruct s as [|ch s']; [reflexivity|]. cbn [List.length] in Hlen.
    cbn [tokenize_loop] in H. rewrite test_number_start in H.
    cbn [forallb]. unfold token_char at 1.
    destruct (is_digit_or_dot ch) eqn:Ed.
    + destruct (scan_run_spec s') as [Hs' [Hall _]].
      pose proof (scan_run_length s') as Hl.
      destruct (scan_run s') as [run r]. cbn [fst snd] in *.
      destruct (negb (test_anchored re_number (ch :: run))); [discriminate|].
      destruct (negb (isFinite (of_decimal (ch :: run)))); [discriminate|].
      apply IH in H; [|lia]. rewrite Hs', forallb_app, H.
      rewrite digit_or_dot_token_char by exact Hall. reflexivity.
    + destruct (char_eqb ch (chr "(") || char_eqb ch (chr ")"))%bool eqn:Ep.
      * apply IH in H; [|lia]. rewrite H.
        cbn [orb]. apply orb_true_iff in Ep as [->| ->];
          rewrite ?orb_true_r; reflexivity.
      * unfold isOperator. destruct (operator_of ch); [|discriminate].
        apply IH in H; [|lia]. rewrite H. reflexivity.
Qed.

Lemma tokenize_alphabet (input : jsstring) (tokens : list token) :
  tokenize input = Ok tokens -> forallb in_alphabet input = true.
Proof.
  rewrite tokenize_as_tokens_from. unfold tokens_from. intros H.
  apply tokenize_loop_alphabet in H; [|lia].
  induction input as [|c s IH]; [reflexivity|].
  cbn [filter forallb] in *. unfold in_alphabet at 1.
  unfold not_space in H at 1. destruct (is_space c).
  - cbn [negb] in H. rewrite IH by exact H. rewrite orb_true_r. reflexivity.
  - cbn [negb forallb] in H. apply andb_true_iff in H as [Hc Hs].
    rewrite Hc, IH by exact Hs. reflexivity.
Qed.

(** ** Numbers are scanned to their end *)

Lemma last_token_cons (prev : option token) (t : token) (ts : list token) :
  last_token prev (t :: ts) = last_token (Some t) ts.
Proof.
  change (t :: ts) with ([t] ++ ts). rewrite last_token_app. reflexivity.
Qed.

Lemma numbers_apart_snoc (acc : list token) (t : token) :
  numbers_apart (acc ++ [t])
  = (numbers_apart acc
     && negb (is_num t && match last_token None acc with
                          | Some p => is_num p
                          | None => false
                          end))%bool.
Proof.
  induction acc as [|a acc IH].
  - destruct t; reflexivity.
  - destruct acc as [|b acc'].
    + destruct a, t; reflexivity.
    + rewrite (last_token_cons None a), (last_token_cons (Some a) b).
      rewrite <- (last_token_cons None b).
      cbn [app] in *.
      assert (Hcons : forall rest,
                numbers_apart (a :: b :: rest)
                = (negb (is_num a && is_num b) && numbers_apart (b :: rest))%bool).
      { intros rest. destruct a, b; reflexivity. }
      rewrite !Hcons, IH. rewrite andb_assoc. reflexivity.
Qed.

Lemma tokenize_loop_apart (fuel : nat) :
  forall (s : jsstring) (acc ts : list token),
    numbers_apart acc = true ->
    ((exists v, last_token None acc = Some (TNum v)) -> run_ends s) ->
    tokenize_loop fuel s acc = Ok ts -> numbers_apart ts = true.
Proof.
  induction fuel as [|fuel IH]; intros s acc ts Hacc Hlast H.
  - injection H as <-. exact Hacc.
  - destruct s as [|ch s']; [injection H as <-; exact Hacc|].
    cbn [tokenize_loop] in H. rewrite test_number_start in H.
    destruct (is_digit_or_dot ch) eqn:Ed.
    + destruct (scan_run_spec s') as [_ [_ Hends]].
      destruct (scan_run s') as [run r]. cbn [fst snd] in *.
      destruct (negb (test_anchored re_number (ch :: run))); [discriminate|].
      destruct (negb (isFinite (of_decimal (ch :: run)))); [discriminate|].
      apply IH in H; [exact H| |intros _; exact Hends].
      rewrite numbers_apart_snoc, Hacc. cbn [is_num andb].
      destruct (last_token None acc) as [[v| | |]|] eqn:El; try reflexivity.
      assert (Hr : run_ends (ch :: s')) by (apply Hlast; eauto).
      cbn [run_ends] in Hr. congruence.
    + assert (Hpush : forall t, is_num t = false ->
                numbers_apart (acc ++ [t]) = true /\
                ((exists v, last_token None (acc ++ [t]) = Some (TNum v)) ->
                 run_ends s')).
      { intros t Ht. split.
        - rewrite numbers_apart_snoc, Hacc, Ht. reflexivity.
        - rewrite last_token_snoc. intros [v Hv]. injection Hv as ->.
          discriminate. }
      destruct (char_eqb ch (chr "(") || char_eqb ch (chr ")"))%bool.
      * apply IH in H; [exact H| |];
          apply Hpush; destruct (char_eqb ch (chr "(")); reflexivity.
      * destruct (operator_of ch) as [o|]; [|discriminate].
        apply IH in H; [exact H| |]; apply Hpush; reflexivity.
Qed.

Lemma tokenize_apart (input : jsstring) (tokens : list token) :
  tokenize input = Ok tokens -> numbers_apart tokens = true.
Proof.
  unfold tokenize. intros H.
  apply (tokenize_loop_apart _ _ [] tokens) in H; [exact H|reflexivity|].
  intros [v Hv]. discriminate.
Qed.

(** ** The stack of the evaluation *)

Lemma evalRpn_step_length (t : token) (st st' : list float64) :
  evalRpn_step t st = Ok st' ->
  (List.length st' + (if is_binary_op t then 1 else 0)
   = List.length st + (if is_num t then 1 else 0))%nat.
Proof.
  intros H. destruct t as [v|o| |]; cbn [evalRpn_step] in H; try discriminate.
  - injection H as <-. cbn. lia.
  - destruct o; destruct st as [|b [|a st0]]; try discriminate;
      cbn [bind] in H;
      try (injection H as <-; cbn; lia);
      try (destruct (negb (isFinite _)); [discriminate|];
           injection H as <-; cbn; lia).
    destruct (strict_eqb b zero); cbn [bind] in H; [discriminate|].
    destruct (negb (isFinite _)); [discriminate|].
    injection H as <-. cbn. lia.
Qed.

Lemma evalRpn_loop_length (rpn : list token) :
  forall st st' : list float64,
    evalRpn_loop rpn st = Ok st' ->
    (List.length st' + List.length (filter is_binary_op rpn)
     = List.length st + List.length (filter is_num rpn))%nat.
Proof.
  induction rpn as [|t rpn IH]; intros st st' H.
  - injection H as <-. cbn. lia.
  - cbn [evalRpn_loop] in H. apply bind_ok in H as [st1 [Hstep Hloop]].
    apply IH in Hloop. apply evalRpn_step_length in Hstep.
    cbn [filter]. destruct t as [v|o| |]; cbn [is_binary_op is_num] in *;
      try (cbn [List.length]; lia).
    destruct (is_binary o); cbn [List.length]; lia.
Qed.

(** ** An expression between parentheses *)

Lemma tokenize_loop_acc (fuel : nat) :
  forall (s : jsstring) (acc : list token),
    tokenize_loop fuel s acc
    = (ts <- tokenize_loop fuel s [] ;; Ok (acc ++ ts)).
Proof.
  induction fuel as [|fuel IH]; intros s acc.
  - cbn. rewrite app_nil_r. reflexivity.
  - destruct s as [|ch s']; [cbn; rewrite app_nil_r; reflexivity|].
    cbn [tokenize_loop].
    destruct (test re_number_start [ch]).
    + destruct (scan_run s') as [run r].
      destruct (negb (test_anchored re_number (ch :: run))); [reflexivity|].
      destruct (negb (isFinite (of_decimal (ch :: run)))); [reflexivity|].
      rewrite IH. rewrite (IH _ ([] ++ _)).
      destruct (tokenize_loop fuel r []); cbn [bind]; [|reflexivity].
      rewrite <- app_assoc. reflexivity.
    + destruct (char_eqb ch (chr "(") || char_eqb ch (chr ")"))%bool.
      * rewrite IH. rewrite (IH _ ([] ++ _)).
        destruct (tokenize_loop fuel s' []); cbn [bind]; [|reflexivity].
        rewrite <- app_assoc. reflexivity.
      * destruct (operator_of ch); [|reflexivity].
        rewrite IH. rewrite (IH _ ([] ++ _)).
        destruct (tokenize_loop fuel s' []); cbn [bind]; [|reflexivity].
        rewrite <- app_assoc. reflexivity.
Qed.

Lemma tokens_from_acc (s : jsstring) (acc : list token) :
  tokens_from s acc = (ts <- tokens_from s [] ;; Ok (acc ++ ts)).
Proof. apply tokenize_loop_acc. Qed.

Lemma not_space_lparen : not_space (chr "(") = true.
Proof. reflexivity. Qed.

Lemma tokenize_group (s : jsstring) :
  tokenize (chr "(" :: s ++ [chr ")"])
  = (ts <- tokenize s ;; Ok (TLParen :: ts ++ [TRParen])).
Proof.
  rewrite !tokenize_as_tokens_from.
  cbn [filter]. rewrite not_space_lparen, filter_app.
  change (filter not_space [chr ")"]) with [chr ")"].
  rewrite tokens_from_lparen, tokens_from_app by reflexivity.
  rewrite tokens_from_acc.
  destruct (tokens_from (filter not_space s) []) as [ts|err]; cbn [bind];
    [|reflexivity].
  rewrite tokens_from_rparen, tokens_from_nil. reflexivity.
Qed.

Lemma tokenize_signed (o : opname) (s : jsstring) :
  is_binary o = true ->
  tokenize (symbol o :: s) = (ts <- tokenize s ;; Ok (TOp o :: ts)).
Proof.
  intros Ho. rewrite !tokenize_as_tokens_from. cbn [filter].
  replace (not_space (symbol o)) with true by (destruct o; reflexivity).
  rewrite (tokens_from_operator _ o) by (apply symbol_operator; exact Ho).
  rewrite tokens_from_acc. reflexivity.
Qed.

Lemma tokenize_loop_grows (fuel : nat) :
  forall (s : jsstring) (acc ts : list token),
    tokenize_loop fuel s acc = Ok ts ->
    (List.length acc <= List.length ts)%nat /\
    (s <> [] -> (0 < fuel)%nat -> (List.length acc < List.length ts)%nat).
Proof.
  induction fuel as [|fuel IH]; intros s acc ts H.
  - injection H as <-. split; [lia|]. intros _ Hf. lia.
  - destruct s as [|ch s']; [injection H as <-; split; [lia|congruence]|].
    cbn [tokenize_loop] in H.
    assert (Hnext : forall r t, tokenize_loop fuel r (acc ++ [t]) = Ok ts ->
              (List.length acc < List.length ts)%nat).
    { intros r t Hr. apply IH in Hr as [Hr _].
      rewrite length_app in Hr. cbn [List.length] in Hr. lia. }
    assert (List.length acc < List.length ts)%nat; [|split; [lia|auto]].
    destruct (test re_number_start [ch]).
    + destruct (scan_run s') as [run r].
      destruct (negb (test_anchored re_number (ch :: run))); [discriminate|].
      destruct (negb (isFinite (of_decimal (ch :: run)))); [discriminate|].
      apply (Hnext _ _ H).
    + destruct (char_eqb ch (chr "(") || char_eqb ch (chr ")"))%bool.
      * apply (Hnext _ _ H).
      * destruct (operator_of ch); [|discriminate]. apply (Hnext _ _ H).
Qed.

Lemma tokenize_nothing (input : jsstring) :
  tokenize input = Ok [] -> forallb is_space input = true.
Proof.
  rewrite tokenize_as_tokens_from. unfold tokens_from. intros H.
  apply tokenize_loop_grows in H as [_ H].
  assert (Hf : filter not_space input = []).
  { destruct (filter not_space input) as [|c r] eqn:E; [reflexivity|].
    exfalso. cbn [List.length] in H.
    assert (0 < 0)%nat; [apply H; [discriminate|lia]|lia]. }
  clear H. induction input as [|c s IH]; [reflexivity|].
  cbn [filter forallb] in *. unfold not_space in Hf at 1.
  destruct (is_space c); [apply IH; exact Hf|discriminate].
Qed.

Lemma pushOp_loop_bottom (a : opname) (out ops bot : list token) :
  pushOp_loop a out (ops ++ TLParen :: bot)
  = (fst (pushOp_loop a out ops),
     snd (pushOp_loop a out ops) ++ TLParen :: bot).
Proof.
  revert out. induction ops as [|t ops IH]; intros out.
  - reflexivity.
  - destruct t as [v|b| |]; try reflexivity.
    cbn [app pushOp_loop]. destruct (pops a b); [apply IH|reflexivity].
Qed.

Lemma pop_to_paren_bottom (out ops bot : list token) :
  snd (pop_to_paren out ops) <> [] ->
  pop_to_paren out (ops ++ bot)
  = (fst (pop_to_paren out ops), snd (pop_to_paren out ops) ++ bot).
Proof.
  revert out. induction ops as [|t ops IH]; intros out H.
  - cbn in H. congruence.
  - destruct t as [v|b| |]; try reflexivity; cbn [app pop_to_paren] in *;
      apply IH; exact H.
Qed.

Lemma toRpn_token_bottom (prev : option token) (t : token)
      (out ops bot : list token) (st' : rpn_state) :
  toRpn_token prev t (out, ops) = Ok st' ->
  toRpn_token prev t (out, ops ++ TLParen :: bot)
  = Ok (fst st', snd st' ++ TLParen :: bot).
Proof.
  assert (Hpush : forall a, pushOp a (out, ops ++ TLParen :: bot)
            = (fst (pushOp a (out, ops)),
               snd (pushOp a (out, ops)) ++ TLParen :: bot)).
  { intros a. unfold pushOp. cbn [fst snd]. rewrite pushOp_loop_bottom.
    destruct (pushOp_loop a out ops). reflexivity. }
  destruct t as [v|b| |]; cbn [toRpn_token fst snd]; intros H.
  - injection H as <-. reflexivity.
  - destruct b; destruct (unary_position prev); injection H as <-;
      rewrite Hpush; reflexivity.
  - injection H as <-. reflexivity.
  - destruct (pop_to_paren out ops) as [o1 [|x r]] eqn:E; [discriminate|].
    injection H as <-.
    rewrite pop_to_paren_bottom by (rewrite E; discriminate).
    rewrite E. reflexivity.
Qed.

Lemma toRpn_run_bottom (ts : list token) :
  forall (prev : option token) (out ops bot : list token) (st' : rpn_state),
    toRpn_run prev ts (out, ops) = Ok st' ->
    toRpn_run prev ts (out, ops ++ TLParen :: bot)
    = Ok (fst st', snd st' ++ TLParen :: bot).
Proof.
  induction ts as [|t ts IH]; intros prev out ops bot st' H.
  - injection H as <-. reflexivity.
  - cbn [toRpn_run] in *. apply bind_ok in H as [[out1 ops1] [Hstep Hrun]].
    rewrite (toRpn_token_bottom _ _ _ _ bot _ Hstep). cbn [bind fst snd].
    apply IH. exact Hrun.
Qed.

Lemma pop_to_paren_all (out ops bot : list token) :
  existsb is_lparen ops = false ->
  pop_to_paren out (ops ++ TLParen :: bot) = (out ++ ops, TLParen :: bot).
Proof.
  revert out. induction ops as [|t ops IH]; intros out H.
  - cbn. rewrite app_nil_r. reflexivity.
  - cbn [existsb] in H. apply orb_false_iff in H as [Ht Hops].
    destruct t as [v|b| |]; try discriminate; cbn [app pop_to_paren];
      rewrite IH by exact Hops; rewrite <- app_assoc; reflexivity.
Qed.

Lemma pushOp_loop_prefix (a : opname) (pre out ops : list token) :
  pushOp_loop a (pre ++ out) ops
  = (pre ++ fst (pushOp_loop a out ops), snd (pushOp_loop a out ops)).
Proof.
  revert out. induction ops as [|t ops IH]; intros out.
  - reflexivity.
  - destruct t as [v|b| |]; try reflexivity.
    cbn [pushOp_loop]. destruct (pops a b); [|reflexivity].
    rewrite <- app_assoc. apply IH.
Qed.

Lemma pop_to_paren_prefix (pre out ops : list token) :
  pop_to_paren (pre ++ out) ops
  = (pre ++ fst (pop_to_paren out ops), snd (pop_to_paren out ops)).
Proof.
  revert out. induction ops as [|t ops IH]; intros out.
  - reflexivity.
  - destruct t as [v|b| |]; try reflexivity; cbn [pop_to_paren];
      rewrite <- app_assoc; apply IH.
Qed.

Lemma toRpn_token_prefix (prev : option token) (t : token)
      (pre out ops : list token) (st' : rpn_state) :
  toRpn_token prev t (out, ops) = Ok st' ->
  toRpn_token prev t (pre ++ out, ops) = Ok (pre ++ fst st', snd st').
Proof.
  assert (Hpush : forall a, pushOp a (pre ++ out, ops)
            = (pre ++ fst (pushOp a (out, ops)), snd (pushOp a (out, ops)))).
  { intros a. unfold pushOp. cbn [fst snd]. rewrite pushOp_loop_prefix.
    destruct (pushOp_loop a out ops). reflexivity. }
  destruct t as [v|b| |]; cbn [toRpn_token fst snd]; intros H.
  - injection H as <-. cbn [fst snd]. rewrite app_assoc. reflexivity.
  - destruct b; destruct (unary_position prev); injection H as <-;
      rewrite Hpush; reflexivity.
  - injection H as <-. reflexivity.
  - rewrite pop_to_paren_prefix.
    destruct (pop_to_paren out ops) as [o1 [|x r]]; [discriminate|].
    injection H as <-. reflexivity.
Qed.

Lemma toRpn_run_prefix (ts : list token) :
  forall (prev : option token) (pre out ops : list token) (st' : rpn_state),
    toRpn_run prev ts (out, ops) = Ok st' ->
    toRpn_run prev ts (pre ++ out, ops) = Ok (pre ++ fst st', snd st').
Proof.
  induction ts as [|t ts IH]; intros prev pre out ops st' H.
  - injection H as <-. reflexivity.
  - cbn [toRpn_run] in *. apply bind_ok in H as [[out1 ops1] [Hstep Hrun]].
    rewrite (toRpn_token_prefix _ _ pre _ _ _ Hstep). cbn [bind fst snd].
    apply IH. exact Hrun.
Qed.

(** The converter on a sequence between parentheses, above the stack
    [bot]. *)
Lemma toRpn_run_group (tokens rpn out bot : list token) (prev : option token) :
  toRpn tokens = Ok rpn ->
  toRpn_run prev (TLParen :: tokens ++ [TRParen]) (out, bot)
  = Ok (out ++ rpn, bot).
Proof.
  intros H. rewrite toRpn_as_run in H.
  apply bind_ok in H as [[out1 ops1] [Hrun Hdr]]. cbn [fst snd] in Hdr.
  apply drain_ok in Hdr as [Hl ->].
  cbn [toRpn_run toRpn_token bind fst snd].
  rewrite toRpn_run_app.
  apply (toRpn_run_prefix _ _ out) in Hrun. rewrite app_nil_r in Hrun.
  apply (toRpn_run_bottom _ _ _ _ bot) in Hrun. cbn [fst snd app] in Hrun.
  rewrite (toRpn_run_prev (Some TLParen) None) by reflexivity.
  rewrite Hrun. cbn [bind toRpn_run toRpn_token fst snd].
  rewrite pop_to_paren_all by exact Hl.
  rewrite <- app_assoc. reflexivity.
Qed.

Lemma toRpn_group (tokens rpn : list token) :
  toRpn tokens = Ok rpn -> toRpn (TLParen :: tokens ++ [TRParen]) = Ok rpn.
Proof.
  intros H. rewrite toRpn_as_run.
  rewrite (toRpn_run_group tokens rpn [] [] None H). reflexivity.
Qed.

Lemma toRpn_signed_group (minus : bool) (tokens rpn : list token) :
  toRpn tokens = Ok rpn ->
  toRpn (TOp (if minus then Sub else Add) :: TLParen :: tokens ++ [TRParen])
  = Ok (rpn ++ [TOp (if minus then UMinus else UPlus)]).
Proof.
  intros H. rewrite toRpn_as_run.
  change (toRpn_run None
            (TOp (if minus then Sub else Add) :: TLParen :: tokens ++ [TRParen])
            ([], []))
    with (st' <- toRpn_token None (TOp (if minus then Sub else Add)) ([], []) ;;
          toRpn_run (Some (TOp (if minus then Sub else Add)))
                    (TLParen :: tokens ++ [TRParen]) st').
  assert (Hstep : toRpn_token None (TOp (if minus then Sub else Add)) ([], [])
                  = Ok ([], [TOp (if minus then UMinus else UPlus)])).
  { destruct minus; reflexivity. }
  rewrite Hstep. cbn [bind].
  rewrite (toRpn_run_group tokens rpn []
             [TOp (if minus then UMinus else UPlus)] _ H).
  cbn [bind fst snd drain app]. reflexivity.
Qed.

(** ** Unary operators in the converter *)

Lemma toRpn_step_sign (tokens : list token) (idx : nat) (st : rpn_state)
      (o : opname) :
  nth_error tokens idx = Some (TOp o) -> o = Add \/ o = Sub ->
  (toRpn_step tokens idx st = Ok (pushOp (to_unary o) st)
   <-> unary_context tokens idx) /\
  (toRpn_step tokens idx st = Ok (pushOp o st)
   <-> ~ unary_context tokens idx).
Proof.
  intros Ht Ho.
  pose proof (unary_position_spec tokens idx _ Ht) as Hspec.
  assert (Hstep : toRpn_step tokens idx st
                  = Ok (pushOp (if unary_position (prev_token tokens idx)
                                then to_unary o else o) st)).
  { unfold toRpn_step. rewrite Ht.
    destruct Ho as [-> | ->]; cbn [to_unary];
      destruct (unary_position (prev_token tokens idx)); reflexivity. }
  rewrite Hstep.
  destruct (unary_position (prev_token tokens idx)) eqn:Eu.
  + split; split; intros H.
    * apply Hspec. reflexivity.
    * reflexivity.
    * injection H as H. apply pushOp_injective in H.
      destruct Ho as [-> | ->]; discriminate H.
    * exfalso. apply H, Hspec. reflexivity.
  + split; split; intros H.
    * injection H as H. apply pushOp_injective in H.
      destruct Ho as [-> | ->]; discriminate H.
    * apply Hspec in H. discriminate H.
    * intros Hc. apply Hspec in Hc. discriminate Hc.
    * reflexivity.
Qed.

(** A binary operator that arrives moves a unary operator from the top of
    the stack to the output, and goes on with the rest of the stack. *)
Lemma pushOp_over_unary (u b : opname) (out ops : list token) :
  u = UPlus \/ u = UMinus -> is_binary b = true ->
  pushOp b (out, TOp u :: ops) = pushOp b (out ++ [TOp u], ops).
Proof.
  intros Hu Hb. unfold pushOp. cbn [fst snd pushOp_loop].
  replace (pops b u) with true; [reflexivity|].
  destruct Hu as [-> | ->]; destruct b; try discriminate Hb; reflexivity.
Qed.

(** A unary operator that arrives moves no operator: it goes on the stack,
    above the operator that was its top. *)
Lemma pushOp_unary (u x : opname) (out ops : list token) :
  u = UPlus \/ u = UMinus ->
  pushOp u (out, TOp x :: ops) = (out, TOp u :: TOp x :: ops).
Proof.
  intros Hu. unfold pushOp. cbn [fst snd pushOp_loop].
  replace (pops u x) with false; [reflexivity|].
  destruct Hu as [-> | ->]; destruct x; reflexivity.
Qed.

(** C3: a [+] or [-] token is converted as a unary operator exactly when it
    is the first token or the token before it is an operator or an opening
    parenthesis, [*] and [/] never are.  The unary operators have a
    precedence above every binary operator and are right associative, in
    the table and in what the converter does with it: a binary operator
    that arrives moves a unary operator from the top of the stack to the
    output before it is pushed, a unary operator that arrives moves no
    operator, binary or unary.  So, for operands [x] and [y] of the
    grammar, the sign of [-x o y] is in the postfix form right after [x]
    and before [y] and the binary operator [o], and the value is that of
    [(-x) o y]; the sign of [x o -y] comes right after [y] and before [o],
    the value is that of [x o (-y)]; of two signs the one next to the
    operand comes first, the value of [- -x] is that of [-(-x)].  And
    [evaluate("-(3+4)")] is -7, [evaluate("3*-2")] is -6, [evaluate("--5")]
    is 5. *)
Theorem unary_operators :
  (forall tokens idx st o,
      nth_error tokens idx = Some (TOp o) -> o = Add \/ o = Sub ->
      (toRpn_step tokens idx st = Ok (pushOp (to_unary o) st)
       <-> unary_context tokens idx) /\
      (toRpn_step tokens idx st = Ok (pushOp o st)
       <-> ~ unary_context tokens idx)) /\
  (forall tokens idx st o,
      nth_error tokens idx = Some (TOp o) -> o = Mul \/ o = Div ->
      toRpn_step tokens idx st = Ok (pushOp o st)) /\
  (forall u b,
      u = UPlus \/ u = UMinus -> is_binary b = true ->
      prec_of b < prec_of u /\ pops b u = true /\ pops u b = false) /\
  (forall u u',
      u = UPlus \/ u = UMinus -> u' = UPlus \/ u' = UMinus ->
      rightAssoc u = true /\ pops u u' = false) /\
  (forall b, is_binary b = true -> rightAssoc b = false /\ pops b b = true) /\
  (forall u b out ops,
      u = UPlus \/ u = UMinus -> is_binary b = true ->
      pushOp b (out, TOp u :: ops) = pushOp b (out ++ [TOp u], ops)) /\
  (forall u x out ops,
      u = UPlus \/ u = UMinus ->
      pushOp u (out, TOp x :: ops) = (out, TOp u :: TOp x :: ops)) /\
  (forall minus o x y,
      grammatical (Bin o (Sign minus x) y) = true ->
      toRpn (TOp (if minus then Sub else Add) :: tokens_of x
             ++ TOp o :: tokens_of y)
      = Ok (postfix x ++ TOp (if minus then UMinus else UPlus)
            :: postfix y ++ [TOp o]) /\
      (literals_valid x = true -> literals_valid y = true ->
       evaluate (symbol (if minus then Sub else Add) :: show x
                 ++ symbol o :: show y)
       = eval (Bin o (Sign minus x) y))) /\
  (forall minus o x y,
      grammatical (Bin o x (Sign minus y)) = true ->
      toRpn (tokens_of x ++ TOp o :: TOp (if minus then Sub else Add)
             :: tokens_of y)
      = Ok (postfix x ++ postfix y
            ++ [TOp (if minus then UMinus else UPlus); TOp o]) /\
      (literals_valid x = true -> literals_valid y = true ->
       evaluate (show x ++ symbol o :: symbol (if minus then Sub else Add)
                 :: show y)
       = eval (Bin o x (Sign minus y)))) /\
  (forall outer inner x,
      grammatical (Sign outer (Sign inner x)) = true ->
      toRpn (TOp (if outer then Sub else Add)
             :: TOp (if inner then Sub else Add) :: tokens_of x)
      = Ok (postfix x ++ [TOp (if inner then UMinus else UPlus);
                          TOp (if outer then UMinus else UPlus)]) /\
      (literals_valid x = true ->
       evaluate (symbol (if outer then Sub else Add)
                 :: symbol (if inner then Sub else Add) :: show x)
       = eval (Sign outer (Sign inner x)))) /\
  evaluate (str "-(3+4)") = Ok (of_Z (-7)) /\
  evaluate (str "3*-2") = Ok (of_Z (-6)) /\
  evaluate (str "--5") = Ok (of_Z 5).
Proof.
  split; [exact toRpn_step_sign|].
  split.
  { intros tokens idx st o Ht Ho. unfold toRpn_step. rewrite Ht.
    destruct Ho as [-> | ->]; reflexivity. }
  split.
  { intros u b Hu Hb.
    destruct Hu as [-> | ->]; destruct b; try discriminate Hb;
      repeat split; reflexivity. }
  split.
  { intros u u' Hu Hu'.
    destruct Hu as [-> | ->]; destruct Hu' as [-> | ->]; split; reflexivity. }
  split.
  { intros b Hb. destruct b; try discriminate Hb; split; reflexivity. }
  split; [exact pushOp_over_unary|].
  split; [exact pushOp_unary|].
  split.
  { intros minus o x y Hg. split.
    - pose proof (toRpn_tokens_of _ Hg) as H. cbn [tokens_of postfix] in H.
      rewrite <- ?app_assoc in H. exact H.
    - intros Hx Hy. apply (evaluate_show (Bin o (Sign minus x) y) Hg).
      cbn [literals_valid]. rewrite Hx, Hy. reflexivity. }
  split.
  { intros minus o x y Hg. split.
    - pose proof (toRpn_tokens_of _ Hg) as H. cbn [tokens_of postfix] in H.
      rewrite <- ?app_assoc in H. exact H.
    - intros Hx Hy. apply (evaluate_show (Bin o x (Sign minus y)) Hg).
      cbn [literals_valid]. rewrite Hx, Hy. reflexivity. }
  split.
  { intros outer inner x Hg. split.
    - pose proof (toRpn_tokens_of _ Hg) as H. cbn [tokens_of postfix] in H.
      rewrite <- ?app_assoc in H. exact H.
    - intros Hx. apply (evaluate_show (Sign outer (Sign inner x)) Hg).
      exact Hx. }
  repeat split; vm_compute; reflexivity.
Qed.

(** The sign of ["3*-2"] is unary, the sign of ["3-2"] is not; the sign of
    ["-2+3"] belongs to [2]. *)
Lemma unary_operators_witness :
  toRpn_step [TNum (of_Z 3); TOp Mul; TOp Sub; TNum (of_Z 2)] 2
    ([TNum (of_Z 3)], [TOp Mul])
  = Ok (pushOp (to_unary Sub) ([TNum (of_Z 3)], [TOp Mul])) /\
  toRpn_step [TNum (of_Z 3); TOp Sub; TNum (of_Z 2)] 1 ([TNum (of_Z 3)], [])
  = Ok (pushOp Sub ([TNum (of_Z 3)], [])) /\
  toRpn [TOp Sub; TNum (of_Z 2); TOp Add; TNum (of_Z 3)]
  = Ok [TNum (of_Z 2); TOp UMinus; TNum (of_Z 3); TOp Add] /\
  evaluate (str "-2+3") = Ok (of_Z 1).
Proof.
  destruct unary_operators as [H [_ [_ [_ [_ [_ [_ [Hs _]]]]]]]].
  split; [|split].
  - apply (H [TNum (of_Z 3); TOp Mul; TOp Sub; TNum (of_Z 2)] 2%nat
             ([TNum (of_Z 3)], [TOp Mul]) Sub); [reflexivity | right; reflexivity |].
    right. exists (TOp Mul). split; [reflexivity | right; eauto].
  - apply (H [TNum (of_Z 3); TOp Sub; TNum (of_Z 2)] 1%nat
             ([TNum (of_Z 3)], []) Sub); [reflexivity | right; reflexivity |].
    intros [Hc | [p [Hp [Hc | [o Hc]]]]]; [discriminate Hc | |];
      simpl in Hp; injection Hp as <-; discriminate Hc.
  - destruct (Hs true Add (Lit (str "2")) (Lit (str "3")) eq_refl)
      as [Hrpn Hval].
    split.
    + etransitivity; [|etransitivity; [exact Hrpn|]];
        vm_compute; reflexivity.
    + etransitivity; [exact (Hval eq_refl eq_refl)|].
      vm_compute; reflexivity.
Defined.

(** * Properties of the evaluator beyond the claims *)

(** X1. On the text of an expression of the grammar (a sum of terms, a
    term a product of factors, a factor a number, a parenthesised
    expression or a signed factor) whose literals the tokenizer accepts,
    [evaluate] returns the value of the expression: the operands of every
    operator are evaluated from left to right, a division by zero and a
    result that is not finite stop the evaluation with their errors. *)
Theorem evaluate_follows_grammar (e : expr) :
  grammatical e = true -> literals_valid e = true ->
  evaluate (show e) = eval e.
Proof. apply evaluate_show. Qed.

Lemma evaluate_follows_grammar_witness :
  show sample = str "2*-(3+4.5)/.5-1" /\
  grammatical sample = true /\ literals_valid sample = true /\
  evaluate (show sample) = eval sample.
Proof.
  split; [reflexivity|]. split; [reflexivity|]. split; [vm_compute; reflexivity|].
  apply (evaluate_follows_grammar sample); vm_compute; reflexivity.
Defined.

(** X2. On the tokens of an expression of the grammar, [toRpn] returns its
    postfix form: for every operator its left operand, its right operand
    and then the operator, a sign as a unary operator after its operand,
    and no parenthesis. *)
Theorem converter_gives_postfix (e : expr) :
  grammatical e = true -> toRpn (tokens_of e) = Ok (postfix e).
Proof. apply toRpn_tokens_of. Qed.

Lemma converter_gives_postfix_witness :
  grammatical sample = true /\ toRpn (tokens_of sample) = Ok (postfix sample).
Proof.
  split; [reflexivity|].
  apply (converter_gives_postfix sample). reflexivity.
Defined.

(** X3. White space counts nowhere, not even inside a number: a string
    and the string with white space added at any place have the same
    tokens and the same result. *)
Theorem spaces_are_ignored (a ws b : jsstring) :
  forallb is_space ws = true ->
  tokenize (a ++ ws ++ b) = tokenize (a ++ b) /\
  evaluate (a ++ ws ++ b) = evaluate (a ++ b).
Proof.
  intros Hws.
  assert (H : tokenize (a ++ ws ++ b) = tokenize (a ++ b)).
  { rewrite !tokenize_as_tokens_from, !filter_app.
    rewrite (filter_all_spaces ws Hws). reflexivity. }
  split; [exact H|]. unfold evaluate. rewrite H. reflexivity.
Qed.

Lemma spaces_are_ignored_witness :
  forallb is_space (str " ") = true /\
  tokenize (str "1" ++ str " " ++ str "2") = tokenize (str "1" ++ str "2") /\
  evaluate (str "1" ++ str " " ++ str "2") = evaluate (str "1" ++ str "2").
Proof.
  split; [reflexivity|].
  apply (spaces_are_ignored (str "1") (str " ") (str "2")). reflexivity.
Defined.

(** X4. A character that is neither a digit, a point, an operator, a
    parenthesis nor white space stops the scan: the tokenizer fails with
    [UnexpectedCharacter] of the first such character, unless the text
    before it already makes it fail. *)
Theorem unexpected_character (p r : jsstring) (c : char) :
  in_alphabet c = false ->
  tokenize (p ++ c :: r) = (ts <- tokenize p ;; Err (UnexpectedCharacter c)).
Proof.
  intros Hc. unfold in_alphabet in Hc. apply orb_false_iff in Hc as [Ht Hs].
  unfold token_char in Ht. apply orb_false_iff in Ht as [Ht Hr].
  apply orb_false_iff in Ht as [Ht Hl]. apply orb_false_iff in Ht as [Hd Ho].
  rewrite !tokenize_as_tokens_from, filter_app. cbn [filter].
  unfold not_space at 2. rewrite Hs. cbn [negb].
  rewrite tokens_from_app by exact Hd.
  destruct (tokens_from (filter not_space p) []) as [ts|err]; cbn [bind];
    [|reflexivity].
  apply tokens_from_other.
  - exact Hd.
  - rewrite Hl, Hr. reflexivity.
  - unfold isOperator in Ho. destruct (operator_of c); [discriminate|reflexivity].
Qed.

Lemma unexpected_character_witness :
  in_alphabet (chr "x") = false /\
  tokenize (str "1+2" ++ chr "x" :: str "3.")
  = (ts <- tokenize (str "1+2") ;; Err (UnexpectedCharacter (chr "x"))).
Proof.
  split; [reflexivity|].
  apply (unexpected_character (str "1+2") (str "3.") (chr "x")). reflexivity.
Defined.

(** X5. The tokenizer reads a number to its end: no two tokens in a row
    are numbers. *)
Theorem numbers_never_adjacent (input : jsstring) (tokens : list token) :
  tokenize input = Ok tokens -> numbers_apart tokens = true.
Proof. apply tokenize_apart. Qed.

Lemma numbers_never_adjacent_witness :
  tokenize (str "1 2.5(3") = Ok [TNum (of_decimal (str "12.5")); TLParen;
                                 TNum (of_decimal (str "3"))] /\
  numbers_apart [TNum (of_decimal (str "12.5")); TLParen;
                 TNum (of_decimal (str "3"))] = true.
Proof.
  split; [vm_compute; reflexivity|].
  apply (numbers_never_adjacent (str "1 2.5(3")). vm_compute. reflexivity.
Defined.

(** X6. The errors of [evaluate]: an invalid or too large number and an
    unexpected character, which is then a character of the input outside
    the alphabet of the tokenizer; mismatched parentheses; an invalid
    expression, a division by zero and a result that is not finite.  The
    error [InvalidToken] of the two defensive [throw] statements never
    occurs. *)
Theorem errors_of_evaluate (input : jsstring) (err : error) :
  evaluate input = Err err ->
  ((err = InvalidNumber \/ err = NumberTooLarge \/
    exists ch, err = UnexpectedCharacter ch /\ In ch input /\
               in_alphabet ch = false) \/
   err = MismatchedParentheses \/
   err = InvalidExpression \/ err = DivisionByZero \/ err = ResultNotFinite) /\
  err <> InvalidToken.
Proof.
  intros H. pose proof (evaluate_errors input err H) as He.
  split; [exact He|].
  destruct He as [[He|[He|[ch [He _]]]]|[He|[He|[He|He]]]];
    rewrite He; discriminate.
Qed.

Lemma errors_of_evaluate_witness :
  evaluate (str "2*(3+x)") = Err (UnexpectedCharacter (chr "x")) /\
  (((UnexpectedCharacter (chr "x") = InvalidNumber \/
     UnexpectedCharacter (chr "x") = NumberTooLarge \/
     exists ch, UnexpectedCharacter (chr "x") = UnexpectedCharacter ch /\
                In ch (str "2*(3+x)") /\ in_alphabet ch = false) \/
    UnexpectedCharacter (chr "x") = MismatchedParentheses \/
    UnexpectedCharacter (chr "x") = InvalidExpression \/
    UnexpectedCharacter (chr "x") = DivisionByZero \/
    UnexpectedCharacter (chr "x") = ResultNotFinite) /\
   UnexpectedCharacter (chr "x") <> InvalidToken).
Proof.
  split; [vm_compute; reflexivity|].
  apply (errors_of_evaluate (str "2*(3+x)")). vm_compute. reflexivity.
Defined.

(** X7. What [toRpn] keeps: its result has no parenthesis, the numbers of
    the tokens in their order, and as many operators as the tokens. *)
Theorem converter_keeps_tokens (tokens rpn : list token) :
  toRpn tokens = Ok rpn ->
  existsb is_paren rpn = false /\
  filter is_num rpn = filter is_num tokens /\
  List.length (filter is_op rpn) = List.length (filter is_op tokens).
Proof. apply toRpn_keeps. Qed.

Lemma converter_keeps_tokens_witness :
  toRpn (tokens_of sample) = Ok (postfix sample) /\
  existsb is_paren (postfix sample) = false /\
  filter is_num (postfix sample) = filter is_num (tokens_of sample) /\
  List.length (filter is_op (postfix sample))
  = List.length (filter is_op (tokens_of sample)).
Proof.
  split; [reflexivity|].
  apply (converter_keeps_tokens (tokens_of sample)). reflexivity.
Defined.

(** X8. [evalRpn] returns a value only for a sequence with one number more
    than binary operators. *)
Theorem operand_count (rpn : list token) (v : float64) :
  evalRpn rpn = Ok v ->
  List.length (filter is_num rpn) = S (List.length (filter is_binary_op rpn)).
Proof.
  unfold evalRpn. intros H. apply bind_ok in H as [st [Hloop Hst]].
  apply evalRpn_loop_length in Hloop.
  destruct st as [|w [|w' st]]; try discriminate.
  cbn [List.length] in Hloop. lia.
Qed.

Lemma operand_count_witness :
  evalRpn (postfix sample) = eval sample /\
  List.length (filter is_num (postfix sample))
  = S (List.length (filter is_binary_op (postfix sample))).
Proof.
  split; [vm_compute; reflexivity|].
  apply (operand_count (postfix sample) (of_Q (-31 # 1))).
  vm_compute. reflexivity.
Defined.

(** X9. Parentheses around a text that has a value, and is not blank, keep
    the value; a minus sign before them gives its opposite and a plus sign
    the value itself. *)
Theorem parentheses_keep_value (s : jsstring) (v : float64) :
  evaluate s = Ok v -> forallb is_space s = false ->
  evaluate (chr "(" :: s ++ [chr ")"]) = Ok v /\
  evaluate (chr "-" :: chr "(" :: s ++ [chr ")"]) = Ok (neg v) /\
  evaluate (chr "+" :: chr "(" :: s ++ [chr ")"]) = Ok v.
Proof.
  intros H Hs. unfold evaluate in H.
  apply bind_ok in H as [tokens [Ht H]].
  destruct tokens as [|t tokens].
  { apply tokenize_nothing in Ht. congruence. }
  apply bind_ok in H as [rpn [Hr Hv]].
  assert (Hloop : evalRpn_loop rpn [] = Ok [v]).
  { unfold evalRpn in Hv. apply bind_ok in Hv as [st [Hl Hst]].
    destruct st as [|w [|w' st]]; try discriminate. injection Hst as ->.
    exact Hl. }
  assert (Hg : tokenize (chr "(" :: s ++ [chr ")"])
               = Ok (TLParen :: (t :: tokens) ++ [TRParen])).
  { rewrite tokenize_group, Ht. reflexivity. }
  assert (Hsign : forall minus : bool,
            evaluate (symbol (if minus then Sub else Add)
                             :: chr "(" :: s ++ [chr ")"])
            = Ok (if minus then neg v else v)).
  { intros minus. unfold evaluate.
    rewrite (tokenize_signed (if minus then Sub else Add))
      by (destruct minus; reflexivity).
    rewrite Hg. cbn [bind].
    rewrite (toRpn_signed_group minus _ _ Hr). cbn [bind].
    unfold evalRpn. rewrite evalRpn_loop_app, Hloop. cbn [bind].
    destruct minus; reflexivity. }
  split; [|split; [apply (Hsign true)|apply (Hsign false)]].
  unfold evaluate. rewrite Hg. cbn [bind].
  rewrite (toRpn_group _ _ Hr). cbn [bind]. exact Hv.
Qed.

Lemma parentheses_keep_value_witness :
  evaluate (str "1-2*3") = Ok (of_Q (-5 # 1)) /\
  evaluate (chr "(" :: str "1-2*3" ++ [chr ")"]) = Ok (of_Q (-5 # 1)) /\
  evaluate (chr "-" :: chr "(" :: str "1-2*3" ++ [chr ")"])
  = Ok (neg (of_Q (-5 # 1))) /\
  evaluate (chr "+" :: chr "(" :: str "1-2*3" ++ [chr ")"])
  = Ok (of_Q (-5 # 1)).
Proof.
  split; [vm_compute; reflexivity|].
  apply (parentheses_keep_value (str "1-2*3")); vm_compute; reflexivity.
Defined.

(** * The calculator *)

Lemma evaluate_finite (input : jsstring) (v : float64) :
  evaluate input = Ok v -> isFinite v = true.
Proof.
  unfold evaluate. intros H. apply bind_ok in H as [tokens [Ht H]].
  destruct tokens as [|t tokens]; [injection H as <-; reflexivity|].
  apply bind_ok in H as [rpn [Hr Hv]].
  apply tokenize_finite in Ht. apply (toRpn_finite _ _ Ht) in Hr.
  unfold evalRpn in Hv. apply bind_ok in Hv as [st [Hl Hst]].
  apply (evalRpn_loop_finite rpn [] st Hr (eq_refl true)) in Hl.
  destruct st as [|w [|w' st]]; try discriminate. injection Hst as <-.
  cbn [forallb] in Hl. apply andb_true_iff in Hl as [Hl _]. exact Hl.
Qed.

Lemma setExpression_expression (next : jsstring) (c : calculator) :
  expression (setExpression next c) = firstn MAX_EXPR_LEN next /\
  expression_text (setExpression next c) = firstn MAX_EXPR_LEN next /\
  status_text (setExpression next c) = [] /\
  result_error (setExpression next c) = false.
Proof.
  unfold setExpression, preview. cbn [expression setStatus].
  destruct (is_empty (trim (firstn MAX_EXPR_LEN next))); [repeat split|].
  destruct (evaluate (firstn MAX_EXPR_LEN next)); repeat split.
Qed.

Lemma setExpression_consistent (next : jsstring) (c : calculator) :
  isFinite (lastResult c) = true -> consistent (setExpression next c).
Proof.
  intros Hfin. unfold consistent.
  destruct (setExpression_expression next c) as [He [Ht [_ Hr]]].
  rewrite He, Ht. split; [apply firstn_le_length|]. split; [reflexivity|].
  unfold setExpression, preview. cbn [expression setStatus lastResult].
  destruct (is_empty (trim (firstn MAX_EXPR_LEN next))).
  - cbn. split; [exact Hfin|]. intros _. exists zero. split; reflexivity.
  - destruct (evaluate (firstn MAX_EXPR_LEN next)) as [value|err] eqn:E.
    + apply evaluate_finite in E. cbn. split; [exact E|]. intros _.
      exists value. split; [exact E|reflexivity].
    + cbn. split; [exact Hfin|]. intros _.
      exists (lastResult c). split; [exact Hfin|reflexivity].
Qed.

Lemma appendValue_cases (v : jsstring) (c : calculator) :
  appendValue v c = c \/ exists next, appendValue v c = setExpression next c.
Proof.
  unfold appendValue.
  destruct (is_empty v); [auto|].
  destruct (MAX_EXPR_LEN <=? List.length (expression c))%nat; [auto|].
  destruct (isOperator_string v
            && (is_empty (expression c) && negb (string_eqb v (str "-"))))%bool;
    [auto|].
  destruct (isOperator_string v && isOperator_string (slice_last (expression c)))%bool;
    [eauto|].
  destruct (string_eqb v (str ".")
            && existsb is_dot (last (split is_separator (expression c)) []))%bool;
    [auto|].
  destruct (string_eqb v (str ".")
            && is_empty (last (split is_separator (expression c)) []))%bool;
    [eauto|].
  destruct (string_eqb v (str "(")).
  - destruct (negb (is_empty (slice_last (expression c)))
              && (test re_digit (slice_last (expression c))
                  || string_eqb (slice_last (expression c)) (str ")")))%bool;
      eauto.
  - destruct (test re_digit v); [|eauto].
    destruct (string_eqb (slice_last (expression c)) (str ")")); eauto.
Qed.

Lemma toggleSign_cases (c : calculator) :
  toggleSign c = c \/ exists next, toggleSign c = setExpression next c.
Proof.
  unfold toggleSign. destruct (exec re_last_number (expression c)); [eauto|].
  destruct (is_empty (expression c)); eauto.
Qed.

(** X10. What every action keeps: the page shows the expression, which has
    240 characters at most; [lastResult] is a finite number; and the result
    shown is a finite number in the format of [formatNumber], never [NaN]
    or [Infinity], unless it is the error of [equals]. *)
Theorem actions_keep_consistency (a : action) (c : calculator) :
  consistent c -> consistent (perform a c).
Proof.
  intros Hc. pose proof Hc as [Hlen [Htext [Hfin Hres]]].
  destruct a as [v| | | |history|expr]; cbn [perform].
  - destruct (appendValue_cases v c) as [->|[next ->]]; [exact Hc|].
    apply setExpression_consistent. exact Hfin.
  - unfold backspace. destruct (is_empty (expression c)); [exact Hc|].
    apply setExpression_consistent. exact Hfin.
  - destruct (toggleSign_cases c) as [->|[next ->]]; [exact Hc|].
    apply setExpression_consistent. exact Hfin.
  - unfold consistent, clearAll. cbn. repeat split; try lia.
    intros _. exists zero. split; reflexivity.
  - unfold equals. destruct (is_empty (trim (expression c))); [exact Hc|].
    destruct (evaluate (expression c)) as [value|err].
    + destruct history as [msg|].
      * unfold consistent. cbn. repeat split; try assumption. discriminate.
      * destruct (setExpression_consistent (String_of (VNum value)) c Hfin)
          as [H1 [H2 [H3 H4]]].
        unfold consistent. cbn [setStatus expression expression_text
                                  lastResult result_error result_text].
        repeat split; assumption.
    + unfold consistent. cbn. repeat split; try assumption. discriminate.
  - apply setExpression_consistent. exact Hfin.
Qed.

Lemma actions_keep_consistency_witness :
  consistent (clearAll (Build_calculator [] zero [] [] false [])) /\
  consistent (perform (Append (str "7"))
                      (clearAll (Build_calculator [] zero [] [] false []))).
Proof.
  assert (H : consistent (clearAll (Build_calculator [] zero [] [] false []))).
  { unfold consistent. cbn. repeat split; try lia.
    intros _. exists zero. split; reflexivity. }
  split; [exact H|].
  apply (actions_keep_consistency (Append (str "7"))). exact H.
Defined.

(** ** Operators in a row *)

Lemma last_cons_default (s : jsstring) (x y : char) :
  last (y :: s) x = last s y.
Proof.
  revert x y. induction s as [|z s IH]; intros x y; [reflexivity|].
  change (last (y :: z :: s) x) with (last (z :: s) x).
  rewrite (IH x z), (IH y z). reflexivity.
Qed.

Lemma slice_last_cons (x : char) (s : jsstring) :
  s <> [] -> slice_last (x :: s) = slice_last s.
Proof.
  destruct s as [|y s]; [congruence|]. intros _.
  cbn [slice_last]. f_equal. apply last_cons_default.
Qed.

Lemma slice_last_snoc (s : jsstring) (x : char) : slice_last (s ++ [x]) = [x].
Proof.
  induction s as [|y s IH]; [reflexivity|].
  cbn [app]. rewrite slice_last_cons by (destruct s; discriminate). exact IH.
Qed.

Lemma slice_last_app (a b : jsstring) :
  b <> [] -> slice_last (a ++ b) = slice_last b.
Proof.
  intros Hb. induction a as [|x a IH]; [reflexivity|].
  cbn [app]. rewrite slice_last_cons; [exact IH|].
  destruct a; [exact Hb|discriminate].
Qed.

Lemma removelast_slice_last (s : jsstring) :
  s <> [] -> s = removelast s ++ slice_last s.
Proof.
  intros Hs. destruct (exists_last Hs) as [s' [x ->]].
  rewrite removelast_last, slice_last_snoc. reflexivity.
Qed.

Lemma operators_apart_app (a b : jsstring) :
  operators_apart (a ++ b)
  = (operators_apart a && operators_apart b
     && negb (isOperator_string (slice_last a)
              && isOperator_string (firstn 1 b)))%bool.
Proof.
  induction a as [|x a IH].
  - cbn [app operators_apart slice_last isOperator_string andb negb].
    rewrite andb_true_r. reflexivity.
  - destruct a as [|y a].
    + cbn [app slice_last last isOperator_string].
      destruct b as [|z b].
      * cbn. rewrite andb_false_r. reflexivity.
      * cbn [operators_apart firstn isOperator_string].
        destruct (isOperator x && isOperator z)%bool; cbn [negb andb];
          rewrite ?andb_true_r, ?andb_false_r; reflexivity.
    + rewrite slice_last_cons by discriminate.
      change ((x :: y :: a) ++ b) with (x :: y :: (a ++ b)).
      change (operators_apart (x :: y :: (a ++ b)))
        with (negb (isOperator x && isOperator y)
              && operators_apart ((y :: a) ++ b))%bool.
      rewrite IH.
      change (operators_apart (x :: y :: a))
        with (negb (isOperator x && isOperator y)
              && operators_apart (y :: a))%bool.
      rewrite !andb_assoc. reflexivity.
Qed.

Lemma operators_apart_prefix (a b : jsstring) :
  operators_apart (a ++ b) = true -> operators_apart a = true.
Proof.
  rewrite operators_apart_app. intros H.
  apply andb_true_iff in H as [H _]. apply andb_true_iff in H as [H _].
  exact H.
Qed.

Lemma operators_apart_firstn (n : nat) (s : jsstring) :
  operators_apart s = true -> operators_apart (firstn n s) = true.
Proof.
  intros H. rewrite <- (firstn_skipn n s) in H.
  apply (operators_apart_prefix _ _ H).
Qed.

Lemma operators_apart_removelast (s : jsstring) :
  operators_apart s = true ->
  operators_apart (removelast s) = true /\
  (isOperator_string (slice_last s) = true ->
   isOperator_string (slice_last (removelast s)) = false).
Proof.
  intros H. destruct s as [|x s]; [split; [reflexivity|discriminate]|].
  rewrite (removelast_slice_last (x :: s)) in H by discriminate.
  rewrite operators_apart_app in H.
  apply andb_true_iff in H as [H Hb]. apply andb_true_iff in H as [H _].
  split; [exact H|]. intros Hop.
  assert (E : firstn 1 (slice_last (x :: s)) = slice_last (x :: s))
    by reflexivity.
  rewrite E, Hop, andb_true_r in Hb.
  destruct (isOperator_string (slice_last (removelast (x :: s))));
    [discriminate|reflexivity].
Qed.

Lemma operators_apart_append (n : nat) (e w : jsstring) :
  operators_apart e = true -> operators_apart w = true ->
  (isOperator_string (slice_last e) && isOperator_string (firstn 1 w))%bool
  = false ->
  operators_apart (firstn n (e ++ w)) = true.
Proof.
  intros He Hw Hb. apply operators_apart_firstn.
  rewrite operators_apart_app, He, Hw, Hb. reflexivity.
Qed.

Lemma digit_not_operator (c : char) : is_digit c = true -> isOperator c = false.
Proof.
  unfold is_digit, isOperator, operator_of, char_eqb. intros H.
  apply andb_true_iff in H as [H1 H2].
  apply Z.leb_le in H1. apply Z.leb_le in H2.
  destruct (Z.eqb_spec c (chr "+")) as [->|_]; [cbn in *; lia|].
  destruct (Z.eqb_spec c (chr "-")) as [->|_]; [cbn in *; lia|].
  destruct (Z.eqb_spec c (chr "*")) as [->|_]; [cbn in *; lia|].
  destruct (Z.eqb_spec c (chr "/")) as [->|_]; [cbn in *; lia|].
  reflexivity.
Qed.

Lemma string_eqb_eq (a b : jsstring) : string_eqb a b = true -> a = b.
Proof.
  revert b. induction a as [|x a IH]; intros [|y b] H; try discriminate.
  - reflexivity.
  - cbn [string_eqb] in H. apply andb_true_iff in H as [Hx Ha].
    apply Z.eqb_eq in Hx. subst y. f_equal. apply IH. exact Ha.
Qed.

Lemma test_digit_single (c : char) : test re_digit [c] = is_digit c.
Proof. apply test_one_char. Qed.

Lemma test_digit_nil : test re_digit [] = false.
Proof. reflexivity. Qed.

(** ** Decimal points between separators *)

Lemma split_nonempty (p : char -> bool) (s : jsstring) : split p s <> [].
Proof.
  destruct s as [|c s]; [discriminate|]. cbn [split].
  destruct (p c); [discriminate|]. destruct (split p s); discriminate.
Qed.

Lemma split_cons_other (p : char -> bool) (c : char) (s : jsstring) :
  p c = false ->
  split p (c :: s) = (c :: hd [] (split p s)) :: tl (split p s).
Proof.
  intros H. cbn [split]. rewrite H.
  pose proof (split_nonempty p s) as Hne.
  destruct (split p s); [congruence|reflexivity].
Qed.

Lemma split_app (p : char -> bool) (a b : jsstring) :
  split p (a ++ b)
  = removelast (split p a)
    ++ (last (split p a) [] ++ hd [] (split p b)) :: tl (split p b).
Proof.
  induction a as [|c a IH].
  - cbn [app split removelast last]. pose proof (split_nonempty p b) as Hne.
    destruct (split p b); [congruence|reflexivity].
  - cbn [app]. pose proof (split_nonempty p a) as Hne.
    destruct (p c) eqn:Ec.
    + cbn [split]. rewrite Ec, IH.
      destruct (split p a) as [|x A] eqn:EA; [congruence|].
      reflexivity.
    + rewrite !split_cons_other by exact Ec. rewrite IH.
      destruct (split p a) as [|x A] eqn:EA; [congruence|].
      destruct A as [|y A]; reflexivity.
Qed.

Lemma one_point_prefix (x y : jsstring) :
  one_point (x ++ y) = true -> one_point x = true.
Proof.
  unfold one_point. rewrite count_dots_app, !Nat.leb_le. lia.
Qed.

Lemma forallb_removelast {A} (f : A -> bool) (l : list A) :
  forallb f l = true -> forallb f (removelast l) = true.
Proof.
  induction l as [|x l IH]; [reflexivity|]. cbn [forallb]. intros H.
  apply andb_true_iff in H as [Hx Hl]. destruct l as [|y l]; [reflexivity|].
  cbn [removelast forallb]. rewrite Hx. apply IH. exact Hl.
Qed.

Lemma forallb_last {A} (f : A -> bool) (l : list A) (d : A) :
  forallb f l = true -> f d = true -> f (last l d) = true.
Proof.
  induction l as [|x l IH]; [auto|]. cbn [forallb]. intros H Hd.
  apply andb_true_iff in H as [Hx Hl]. destruct l as [|y l]; [exact Hx|].
  apply IH; assumption.
Qed.

Lemma points_apart_app (a b : jsstring) :
  points_apart (a ++ b)
  = (forallb one_point (removelast (split is_separator a))
     && one_point (last (split is_separator a) []
                   ++ hd [] (split is_separator b))
     && forallb one_point (tl (split is_separator b)))%bool.
Proof.
  unfold points_apart. rewrite split_app, forallb_app. cbn [forallb].
  rewrite andb_assoc. reflexivity.
Qed.

Lemma points_apart_prefix (a b : jsstring) :
  points_apart (a ++ b) = true -> points_apart a = true.
Proof.
  rewrite points_apart_app. intros H.
  apply andb_true_iff in H as [H _]. apply andb_true_iff in H as [H1 H2].
  apply one_point_prefix in H2. unfold points_apart.
  pose proof (split_nonempty is_separator a) as Hne.
  assert (H : forallb one_point
                (removelast (split is_separator a)
                 ++ [last (split is_separator a) []]) = true).
  { rewrite forallb_app. cbn [forallb]. rewrite H1, H2. reflexivity. }
  pose proof (app_removelast_last [] Hne) as E. rewrite E. exact H.
Qed.

Lemma points_apart_firstn (n : nat) (s : jsstring) :
  points_apart s = true -> points_apart (firstn n s) = true.
Proof.
  intros H. rewrite <- (firstn_skipn n s) in H.
  apply (points_apart_prefix _ _ H).
Qed.

Lemma points_apart_removelast (s : jsstring) :
  points_apart s = true -> points_apart (removelast s) = true.
Proof.
  intros H. destruct s as [|x s]; [exact H|].
  rewrite (removelast_slice_last (x :: s)) in H by discriminate.
  apply (points_apart_prefix _ _ H).
Qed.

Lemma points_apart_append (n : nat) (e w : jsstring) :
  points_apart e = true ->
  one_point (last (split is_separator e) [] ++ hd [] (split is_separator w))
  = true ->
  forallb one_point (tl (split is_separator w)) = true ->
  points_apart (firstn n (e ++ w)) = true.
Proof.
  intros He H1 H2. apply points_apart_firstn.
  rewrite points_apart_app, H1, H2.
  rewrite forallb_removelast by exact He. reflexivity.
Qed.

Lemma points_apart_last (e : jsstring) :
  points_apart e = true -> one_point (last (split is_separator e) []) = true.
Proof. intros H. apply forallb_last; [exact H|reflexivity]. Qed.

Lemma no_dot_count (s : jsstring) :
  existsb is_dot s = false -> count_dots s = O.
Proof.
  unfold count_dots. induction s as [|c s IH]; [reflexivity|].
  cbn [existsb filter]. intros H. apply orb_false_iff in H as [Hc Hs].
  rewrite Hc. apply IH. exact Hs.
Qed.

(** One character after the expression. *)
Lemma points_apart_char (n : nat) (e : jsstring) (ch : char) :
  points_apart e = true ->
  (is_dot ch = true ->
   existsb is_dot (last (split is_separator e) []) = false) ->
  points_apart (firstn n (e ++ [ch])) = true.
Proof.
  intros He Hdot. pose proof (points_apart_last e He) as Hl.
  destruct (is_separator ch) eqn:Es.
  - apply points_apart_append; [exact He| |].
    + cbn [split]. rewrite Es. cbn [hd]. rewrite app_nil_r. exact Hl.
    + cbn [split]. rewrite Es. reflexivity.
  - apply points_apart_append; [exact He| |].
    + cbn [split]. rewrite Es. cbn [hd].
      unfold one_point in *. rewrite count_dots_app.
      unfold count_dots at 2. cbn [filter].
      destruct (is_dot ch) eqn:Ed.
      * rewrite (no_dot_count _ (Hdot eq_refl)). reflexivity.
      * cbn [List.length]. rewrite Nat.add_0_r. exact Hl.
    + cbn [split]. rewrite Es. reflexivity.
Qed.

Lemma operator_is_separator (c : char) : isOperator c = true -> is_separator c = true.
Proof.
  unfold isOperator, operator_of, is_separator.
  destruct (char_eqb c (chr "+")); [reflexivity|].
  destruct (char_eqb c (chr "-")); [reflexivity|].
  destruct (char_eqb c (chr "*")); [reflexivity|].
  destruct (char_eqb c (chr "/")); [reflexivity|discriminate].
Qed.

(** X11. Keys of one character, [Backspace] and [Escape] never put two
    operators in a row into the expression: an operator typed after an
    operator replaces it. *)
Theorem keys_keep_operators_apart (a : action) (c : calculator) :
  is_typing a = true -> operators_apart (expression c) = true ->
  operators_apart (expression (perform a c)) = true.
Proof.
  intros Ha Hc. destruct a as [v| | | |history|expr]; try discriminate.
  - destruct v as [|ch [|? ?]]; try discriminate.
    cbn [perform]. unfold appendValue. cbn [is_empty].
    destruct (MAX_EXPR_LEN <=? List.length (expression c))%nat; [exact Hc|].
    set (e := expression c) in *.
    assert (Happ : forall w,
              operators_apart w = true ->
              (isOperator_string (slice_last e)
               && isOperator_string (firstn 1 w))%bool = false ->
              operators_apart (expression (setExpression (e ++ w) c)) = true).
    { intros w Hw Hb.
      destruct (setExpression_expression (e ++ w) c) as [-> _].
      apply operators_apart_append; assumption. }
    cbn [isOperator_string].
    destruct (isOperator ch
              && (is_empty e && negb (string_eqb [ch] (str "-"))))%bool;
      [exact Hc|].
    destruct (isOperator ch && isOperator_string (slice_last e))%bool eqn:E1.
    { apply andb_true_iff in E1 as [Hch Hlast].
      destruct (setExpression_expression (removelast e ++ [ch]) c) as [-> _].
      destruct (operators_apart_removelast e Hc) as [Hr Hn].
      apply operators_apart_append; [exact Hr|reflexivity|].
      rewrite (Hn Hlast). reflexivity. }
    destruct (string_eqb [ch] (str ".")
              && existsb is_dot (last (split is_separator e) []))%bool;
      [exact Hc|].
    destruct (string_eqb [ch] (str ".")
              && is_empty (last (split is_separator e) []))%bool.
    { apply Happ; [reflexivity|]. rewrite andb_false_r. reflexivity. }
    destruct (string_eqb [ch] (str "(")) eqn:E2.
    { destruct (negb (is_empty (slice_last e))
                && (test re_digit (slice_last e)
                    || string_eqb (slice_last e) (str ")")))%bool eqn:E3.
      - apply Happ; [reflexivity|].
        apply andb_true_iff in E3 as [_ E3].
        apply orb_true_iff in E3 as [E3|E3].
        + destruct (slice_last e) as [|l [|? ?]] eqn:El;
            try reflexivity.
          rewrite test_digit_single in E3. cbn [isOperator_string].
          rewrite (digit_not_operator l E3). reflexivity.
        + apply string_eqb_eq in E3. rewrite E3. reflexivity.
      - apply Happ; [reflexivity|]. rewrite andb_false_r. reflexivity. }
    assert (Hch : forall (b : bool),
              (isOperator ch && isOperator_string (slice_last e))%bool = false ->
              (isOperator_string (slice_last e)
               && isOperator_string (firstn 1 [ch]))%bool = false).
    { intros _ H. cbn [firstn isOperator_string]. rewrite andb_comm. exact H. }
    destruct (test re_digit [ch]) eqn:E4.
    { rewrite test_digit_single in E4.
      destruct (string_eqb (slice_last e) (str ")")) eqn:E5.
      - apply Happ.
        + change (operators_apart (str "*" ++ [ch]))
            with (negb (isOperator (chr "*") && isOperator ch) && true)%bool.
          rewrite (digit_not_operator ch E4), andb_false_r. reflexivity.
        + apply string_eqb_eq in E5. rewrite E5. reflexivity.
      - apply Happ; [reflexivity|]. apply (Hch true). exact E1. }
    apply Happ; [reflexivity|]. apply (Hch true). exact E1.
  - cbn [perform]. unfold backspace.
    destruct (is_empty (expression c)); [exact Hc|].
    destruct (setExpression_expression (removelast (expression c)) c) as [-> _].
    apply operators_apart_firstn.
    apply (operators_apart_removelast _ Hc).
  - reflexivity.
Qed.

Lemma keys_keep_operators_apart_witness :
  expression (perform (Append (str "-"))
                (setExpression (str "2*") (Build_calculator [] zero [] [] false [])))
  = str "2-" /\
  operators_apart
    (expression (perform (Append (str "-"))
                   (setExpression (str "2*")
                                  (Build_calculator [] zero [] [] false []))))
  = true.
Proof.
  split; [vm_compute; reflexivity|].
  apply (keys_keep_operators_apart (Append (str "-"))); vm_compute; reflexivity.
Defined.

(** X12. Keys of one character, [Backspace] and [Escape] never put a second
    decimal point into a number: every piece of the expression between
    operators and parentheses keeps one decimal point at most. *)
Theorem keys_keep_points_apart (a : action) (c : calculator) :
  is_typing a = true -> points_apart (expression c) = true ->
  points_apart (expression (perform a c)) = true.
Proof.
  intros Ha Hc. destruct a as [v| | | |history|expr]; try discriminate.
  - destruct v as [|ch [|? ?]]; try discriminate.
    cbn [perform]. unfold appendValue. cbn [is_empty].
    destruct (MAX_EXPR_LEN <=? List.length (expression c))%nat; [exact Hc|].
    set (e := expression c) in *.
    pose proof (points_apart_last e Hc) as Hl.
    cbn [isOperator_string].
    destruct (isOperator ch
              && (is_empty e && negb (string_eqb [ch] (str "-"))))%bool;
      [exact Hc|].
    destruct (isOperator ch && isOperator_string (slice_last e))%bool eqn:E1.
    { apply andb_true_iff in E1 as [Hch Hlast].
      destruct (setExpression_expression (removelast e ++ [ch]) c) as [-> _].
      apply points_apart_char; [apply points_apart_removelast; exact Hc|].
      intros Hd. apply operator_is_separator in Hch.
      unfold is_separator, is_dot, char_eqb in *. apply Z.eqb_eq in Hd.
      subst ch. discriminate. }
    destruct (string_eqb [ch] (str ".")
              && existsb is_dot (last (split is_separator e) []))%bool eqn:E2;
      [exact Hc|].
    destruct (string_eqb [ch] (str ".")
              && is_empty (last (split is_separator e) []))%bool eqn:E3.
    { destruct (setExpression_expression (e ++ str "0.") c) as [-> _].
      apply andb_true_iff in E3 as [_ E3].
      destruct (last (split is_separator e) []) as [|? ?] eqn:Eseg;
        [|discriminate].
      apply points_apart_append; [exact Hc| |reflexivity].
      rewrite Eseg. reflexivity. }
    assert (Hbottom : points_apart
                        (expression (setExpression (e ++ [ch]) c)) = true).
    { destruct (setExpression_expression (e ++ [ch]) c) as [-> _].
      apply points_apart_char; [exact Hc|].
      intros Hd. unfold is_dot in Hd. apply Z.eqb_eq in Hd. subst ch.
      cbn [andb] in E2.
      change (string_eqb [46] (str ".")) with true in E2. exact E2. }
    destruct (string_eqb [ch] (str "(")) eqn:E4.
    { destruct (negb (is_empty (slice_last e))
                && (test re_digit (slice_last e)
                    || string_eqb (slice_last e) (str ")")))%bool.
      - destruct (setExpression_expression (e ++ str "*(") c) as [-> _].
        apply points_apart_append; [exact Hc| |reflexivity].
        cbn. rewrite app_nil_r. exact Hl.
      - destruct (setExpression_expression (e ++ str "(") c) as [-> _].
        apply points_apart_append; [exact Hc| |reflexivity].
        cbn. rewrite app_nil_r. exact Hl. }
    destruct (test re_digit [ch]) eqn:E5; [|exact Hbottom].
    destruct (string_eqb (slice_last e) (str ")")); [|exact Hbottom].
    rewrite test_digit_single in E5.
    destruct (setExpression_expression (e ++ str "*" ++ [ch]) c) as [-> _].
    apply points_apart_append; [exact Hc| |].
    + cbn. rewrite app_nil_r. exact Hl.
    + assert (Hsep : is_separator ch = false).
      { unfold is_separator, is_digit, char_eqb in *.
        apply andb_true_iff in E5 as [H1 H2].
        apply Z.leb_le in H1. apply Z.leb_le in H2.
        repeat (match goal with
                | |- context [Z.eqb ch ?k] =>
                    destruct (Z.eqb_spec ch k) as [->|_]; [cbn in *; lia|]
                end).
        reflexivity. }
      change (split is_separator (str "*" ++ [ch]))
        with ([] :: split is_separator [ch]).
      cbn [tl split]. rewrite Hsep. cbn [forallb].
      unfold one_point, count_dots. cbn [filter].
      destruct (is_dot ch); reflexivity.
  - cbn [perform]. unfold backspace.
    destruct (is_empty (expression c)); [exact Hc|].
    destruct (setExpression_expression (removelast (expression c)) c) as [-> _].
    apply points_apart_firstn. apply points_apart_removelast. exact Hc.
  - reflexivity.
Qed.

Lemma keys_keep_points_apart_witness :
  expression (perform (Append (str "."))
                (setExpression (str "1.5+2.") (Build_calculator [] zero [] [] false [])))
  = str "1.5+2." /\
  points_apart
    (expression (perform (Append (str "."))
                   (setExpression (str "1.5+2.")
                                  (Build_calculator [] zero [] [] false []))))
  = true.
Proof.
  split; [vm_compute; reflexivity|].
  apply (keys_keep_points_apart (Append (str "."))); vm_compute; reflexivity.
Defined.

(** * The pattern of [toggleSign] *)

Lemma ahead_spec (s : jsstring) (caps : captures) :
  match_pattern pat_ahead s caps (fun _ caps' => Some caps')
  = if digit_ahead s then Some caps else None.
Proof.
  unfold pat_ahead. cbn [match_pattern].
  induction s as [|c s IH]; [reflexivity|].
  cbn [greedy_run digit_ahead]. destruct (is_any c).
  - rewrite IH. destruct (digit_ahead s); [reflexivity|].
    cbn [orb]. destruct (is_digit c); reflexivity.
  - destruct (is_digit c); reflexivity.
Qed.

Lemma digit_ahead_digit (c : char) (s : jsstring) :
  is_digit c = true -> digit_ahead (c :: s) = true.
Proof.
  intros H. cbn [digit_ahead]. rewrite H.
  destruct (is_any c); [apply orb_true_r|reflexivity].
Qed.

Lemma digit_ahead_app (v b : jsstring) :
  forallb is_any v = true -> digit_ahead b = true ->
  digit_ahead (v ++ b) = true.
Proof.
  intros Hv Hb. induction v as [|c v IH]; [exact Hb|].
  cbn [forallb] in Hv. apply andb_true_iff in Hv as [Hc Hv].
  cbn [app digit_ahead]. rewrite Hc, (IH Hv). reflexivity.
Qed.

Lemma digit_ahead_none (s : jsstring) :
  existsb is_digit s = false -> digit_ahead s = false.
Proof.
  induction s as [|c s IH]; [reflexivity|].
  cbn [existsb digit_ahead]. intros H. apply orb_false_iff in H as [Hc Hs].
  rewrite Hc, (IH Hs). destruct (is_any c); reflexivity.
Qed.

(** ** When a part of the pattern cannot match *)

Lemma greedy_run_none (k : jsstring -> captures -> option captures)
      (p : char -> bool) (caps : captures) (s : jsstring) :
  (forall u w, s = u ++ w -> forallb p u = true -> k w caps = None) ->
  greedy_run k p s caps = None.
Proof.
  induction s as [|c s IH]; intros H.
  - cbn. apply (H [] []); reflexivity.
  - cbn [greedy_run]. destruct (p c) eqn:Ec.
    + rewrite IH.
      * apply (H [] (c :: s)); reflexivity.
      * intros u w -> Hu. apply (H (c :: u) w); [reflexivity|].
        cbn [forallb]. rewrite Ec, Hu. reflexivity.
    + apply (H [] (c :: s)); reflexivity.
Qed.

Lemma digit_is_digit_or_dot (s : jsstring) :
  forallb is_digit s = true -> forallb is_digit_or_dot s = true.
Proof. apply digits_are_digits_or_dots. Qed.

Lemma pat_digits_none (k : jsstring -> captures -> option captures)
      (s : jsstring) (caps : captures) :
  (forall u w caps', s = u ++ w -> forallb is_digit_or_dot u = true ->
                     k w caps' = None) ->
  match_pattern pat_digits s caps k = None.
Proof.
  intros H. unfold pat_digits, pat_fraction. cbn [match_pattern].
  destruct s as [|c s]; [reflexivity|].
  destruct (is_digit c) eqn:Ec; [|reflexivity].
  apply greedy_run_none. intros u w -> Hu.
  assert (Hcu : forallb is_digit_or_dot (c :: u) = true).
  { cbn [forallb]. unfold is_digit_or_dot at 1. rewrite Ec.
    apply digit_is_digit_or_dot. exact Hu. }
  rewrite (H (c :: u) w caps eq_refl Hcu).
  destruct w as [|d w]; [reflexivity|].
  destruct (is_dot d) eqn:Ed; [|reflexivity].
  destruct w as [|f w]; [reflexivity|].
  destruct (is_digit f) eqn:Ef; [|reflexivity].
  rewrite greedy_run_none; [reflexivity|].
  intros u2 w2 -> Hu2.
  apply (H ((c :: u) ++ d :: f :: u2) w2).
  - rewrite <- app_assoc. reflexivity.
  - rewrite forallb_app, Hcu. cbn [forallb]. unfold is_digit_or_dot at 1 2.
    rewrite Ed, Ef, orb_true_r. cbn [andb orb].
    apply digit_is_digit_or_dot. exact Hu2.
Qed.

Lemma pat_number_none (k : jsstring -> captures -> option captures)
      (s : jsstring) (caps : captures) :
  (forall u w caps', s = u ++ w -> forallb is_digit_or_dot u = true ->
                     k w caps' = None) ->
  (forall c s' u w caps', s = c :: s' -> is_minus c = true -> s' = u ++ w ->
                          forallb is_digit_or_dot u = true ->
                          k w caps' = None) ->
  match_pattern pat_number s caps k = None.
Proof.
  intros H1 H2. unfold pat_number.
  change (match_pattern (PSeq (POpt (PChr is_minus)) pat_digits) s caps k)
    with (match match s with
                | c :: s' =>
                    if is_minus c then match_pattern pat_digits s' caps k
                    else None
                | [] => None
                end with
          | Some r => Some r
          | None => match_pattern pat_digits s caps k
          end).
  rewrite (pat_digits_none k s caps H1).
  destruct s as [|c s']; [reflexivity|].
  destruct (is_minus c) eqn:Ec; [|reflexivity].
  rewrite pat_digits_none; [reflexivity|].
  intros u w caps' Hs Hu. apply (H2 c s' u w caps' eq_refl Ec Hs Hu).
Qed.

(** The rest of the pattern after the first group, with the continuation
    of a match. *)
Lemma after_prefix_none (t : jsstring) (caps : captures) :
  (forall u w, t = u ++ w -> forallb is_digit_or_dot u = true ->
               digit_ahead w = true) ->
  (forall c t' u w, t = c :: t' -> is_minus c = true -> t' = u ++ w ->
                    forallb is_digit_or_dot u = true ->
                    digit_ahead w = true) ->
  match_pattern (PSeq (PGroup 2 pat_number) (PNotAhead pat_ahead)) t caps
                (fun _ caps' => Some caps')
  = None.
Proof.
  intros H1 H2. cbn [match_pattern]. apply pat_number_none.
  - intros u w caps' Ht Hu. rewrite ahead_spec, (H1 u w Ht Hu). reflexivity.
  - intros c t' u w caps' Ht Hc Ht' Hu.
    rewrite ahead_spec, (H2 c t' u w Ht Hc Ht' Hu). reflexivity.
Qed.

(** A prefix of digits and points of [a ++ x :: b] stops before [x]. *)
Lemma prefix_before (a b u w : jsstring) (x : char) :
  a ++ x :: b = u ++ w -> forallb is_digit_or_dot u = true ->
  is_digit_or_dot x = false ->
  exists v, a = u ++ v /\ w = v ++ x :: b.
Proof.
  revert u. induction a as [|y a IH]; intros u H Hu Hx.
  - destruct u as [|z u].
    + exists []. split; [reflexivity|]. symmetry. exact H.
    + cbn [app] in H. injection H as <- _. cbn [forallb] in Hu.
      rewrite Hx in Hu. discriminate.
  - destruct u as [|z u].
    + exists (y :: a). split; [reflexivity|]. symmetry. exact H.
    + cbn [app] in H. injection H as <- H. cbn [forallb] in Hu.
      apply andb_true_iff in Hu as [_ Hu].
      destruct (IH u H Hu Hx) as [v [-> ->]].
      exists v. split; reflexivity.
Qed.

Lemma forallb_app_r {A} (f : A -> bool) (u v : list A) :
  forallb f (u ++ v) = true -> forallb f v = true.
Proof. rewrite forallb_app. intros H. apply andb_true_iff in H. tauto. Qed.

(** The rest of the pattern fails before a character that is not of a
    number, when a digit follows on the same line. *)
Lemma blocked (a b : jsstring) (x : char) (caps : captures) :
  forallb is_any (a ++ [x]) = true -> is_digit_or_dot x = false ->
  (a = [] -> is_minus x = false) ->
  digit_ahead b = true ->
  match_pattern (PSeq (PGroup 2 pat_number) (PNotAhead pat_ahead))
                (a ++ x :: b) caps (fun _ caps' => Some caps')
  = None.
Proof.
  intros Hany Hx Hminus Hb.
  assert (Hw : forall v, forallb is_any (v ++ [x]) = true ->
                         digit_ahead (v ++ x :: b) = true).
  { intros v Hv. change (x :: b) with ([x] ++ b). rewrite app_assoc.
    apply digit_ahead_app; assumption. }
  apply after_prefix_none.
  - intros u w Ht Hu. destruct (prefix_before a b u w x Ht Hu Hx) as [v [-> ->]].
    apply Hw. rewrite <- app_assoc in Hany. apply (forallb_app_r _ _ _ Hany).
  - intros c t' u w Ht Hc Ht' Hu. destruct a as [|y a].
    + cbn [app] in Ht. injection Ht as -> _.
      rewrite (Hminus eq_refl) in Hc. discriminate.
    + cbn [app] in Ht. injection Ht as -> <-.
      destruct (prefix_before a b u w x Ht' Hu Hx) as [v [-> ->]].
      apply Hw. cbn [app forallb] in Hany.
      apply andb_true_iff in Hany as [_ Hany].
      rewrite <- app_assoc in Hany. apply (forallb_app_r _ _ _ Hany).
Qed.

(** ** When the pattern matches *)

Lemma greedy_run_all (k : jsstring -> captures -> option captures)
      (p : char -> bool) (caps r : captures) (ds rest : jsstring) :
  forallb p ds = true ->
  match rest with c :: _ => p c = false | [] => True end ->
  k rest caps = Some r ->
  greedy_run k p (ds ++ rest) caps = Some r.
Proof.
  intros Hds Hrest Hk. induction ds as [|d ds IH].
  - cbn [app]. destruct rest as [|c rest]; [exact Hk|].
    cbn [greedy_run]. rewrite Hrest. exact Hk.
  - cbn [forallb] in Hds. apply andb_true_iff in Hds as [Hd Hds].
    cbn [app greedy_run]. rewrite Hd, (IH Hds). reflexivity.
Qed.

Lemma no_digit_head (tail : jsstring) :
  existsb is_digit tail = false ->
  match tail with c :: _ => is_digit c = false | [] => True end.
Proof.
  destruct tail as [|c tail]; [trivial|]. cbn [existsb]. intros H.
  apply orb_false_iff in H. tauto.
Qed.

Lemma pat_fraction_none (k : jsstring -> captures -> option captures)
      (tail : jsstring) (caps : captures) :
  existsb is_digit tail = false ->
  match_pattern pat_fraction tail caps k = k tail caps.
Proof.
  intros H. unfold pat_fraction. cbn [match_pattern].
  destruct tail as [|c tail]; [reflexivity|].
  destruct (is_dot c); [|reflexivity].
  cbn [existsb] in H. apply orb_false_iff in H as [_ H].
  destruct tail as [|d tail]; [reflexivity|].
  cbn [existsb] in H. apply orb_false_iff in H as [-> _]. reflexivity.
Qed.

(** The match of [\d+(\.\d+)?] on a number: the continuation decides. *)
Lemma pat_digits_match (k : jsstring -> captures -> option captures)
      (ip frac tail : jsstring) (caps : captures)
      (P : captures -> Prop) :
  ip <> [] -> forallb is_digit ip = true -> is_fraction frac = true ->
  existsb is_digit tail = false ->
  (forall caps', caps' 1%nat = caps 1%nat -> caps' 2%nat = caps 2%nat ->
                 exists r, k tail caps' = Some r /\ P r) ->
  exists r, match_pattern pat_digits (ip ++ frac ++ tail) caps k = Some r /\ P r.
Proof.
  intros Hne Hip Hfrac Htail Hk.
  destruct ip as [|d ip]; [congruence|].
  cbn [forallb] in Hip. apply andb_true_iff in Hip as [Hd Hip].
  unfold pat_digits. cbn [match_pattern app]. rewrite Hd.
  destruct frac as [|c fp].
  - cbn [app]. destruct (Hk caps eq_refl eq_refl) as [r [Hr HP]].
    exists r. split; [|exact HP].
    apply greedy_run_all; [exact Hip|apply no_digit_head; exact Htail|].
    rewrite pat_fraction_none by exact Htail. exact Hr.
  - cbn [is_fraction] in Hfrac. apply andb_true_iff in Hfrac as [Hfrac Hfp].
    apply andb_true_iff in Hfrac as [Hc Hne'].
    destruct fp as [|f fp]; [discriminate|].
    cbn [forallb] in Hfp. apply andb_true_iff in Hfp as [Hf Hfp].
    destruct (Hk (capture 3 (firstn (List.length ((c :: f :: fp) ++ tail)
                                     - List.length tail)
                                    ((c :: f :: fp) ++ tail))
                          caps) eq_refl eq_refl) as [r [Hr HP]].
    exists r. split; [|exact HP].
    apply greedy_run_all; [exact Hip| |].
    + cbn [app]. unfold is_dot in Hc. apply Z.eqb_eq in Hc. subst c. reflexivity.
    + unfold pat_fraction. cbn [match_pattern app]. rewrite Hc, Hf.
      rewrite (greedy_run_all _ is_digit _ r fp tail Hfp
                 (no_digit_head tail Htail)); [reflexivity|].
      exact Hr.
Qed.

Lemma firstn_app_length {A} (x y : list A) :
  firstn (List.length (x ++ y) - List.length y) (x ++ y) = x.
Proof.
  rewrite length_app. replace (List.length x + List.length y - List.length y)%nat
    with (List.length x) by lia.
  rewrite firstn_app, Nat.sub_diag, firstn_all. cbn [firstn].
  apply app_nil_r.
Qed.

(** The rest of the pattern on a signed number and what follows it. *)
Lemma after_prefix_match (minus : bool) (ip frac tail : jsstring)
      (caps : captures) :
  ip <> [] -> forallb is_digit ip = true -> is_fraction frac = true ->
  existsb is_digit tail = false ->
  exists r,
    match_pattern (PSeq (PGroup 2 pat_number) (PNotAhead pat_ahead))
                  (minus_sign minus ++ ip ++ frac ++ tail) caps
                  (fun _ caps' => Some caps')
    = Some r /\
    r 1%nat = caps 1%nat /\ r 2%nat = Some (minus_sign minus ++ ip ++ frac).
Proof.
  intros Hne Hip Hfrac Htail.
  set (t := minus_sign minus ++ ip ++ frac ++ tail).
  set (k := fun (s' : jsstring) (caps' : captures) =>
              match_pattern (PNotAhead pat_ahead) s'
                (capture 2 (firstn (List.length t - List.length s') t) caps')
                (fun _ caps'' => Some caps'')).
  change (match_pattern (PSeq (PGroup 2 pat_number) (PNotAhead pat_ahead))
            t caps (fun _ caps' => Some caps'))
    with (match_pattern pat_number t caps k).
  assert (Hk : forall caps', caps' 1%nat = caps 1%nat ->
                             caps' 2%nat = caps 2%nat ->
                 exists r, k tail caps' = Some r /\
                           r 1%nat = caps 1%nat /\
                           r 2%nat = Some (minus_sign minus ++ ip ++ frac)).
  { intros caps' H1 _. unfold k. cbn [match_pattern].
    rewrite ahead_spec, (digit_ahead_none tail Htail).
    eexists. split; [reflexivity|]. split; [exact H1|].
    unfold capture. cbn [Nat.eqb]. f_equal. unfold t.
    replace (minus_sign minus ++ ip ++ frac ++ tail)
      with ((minus_sign minus ++ ip ++ frac) ++ tail)
      by (rewrite <- !app_assoc; reflexivity).
    apply firstn_app_length. }
  destruct (pat_digits_match k ip frac tail caps _ Hne Hip Hfrac Htail Hk)
    as [r [Hr HP]].
  exists r. split; [|exact HP].
  unfold pat_number.
  change (match_pattern (PSeq (POpt (PChr is_minus)) pat_digits) t caps k)
    with (match match t with
                | c :: s' =>
                    if is_minus c then match_pattern pat_digits s' caps k
                    else None
                | [] => None
                end with
          | Some r => Some r
          | None => match_pattern pat_digits t caps k
          end).
  unfold t. destruct minus; cbn [minus_sign app].
  - change (is_minus (chr "-")) with true. cbv iota. rewrite Hr. reflexivity.
  - destruct ip as [|d ip]; [congruence|].
    cbn [forallb] in Hip. apply andb_true_iff in Hip as [Hd _].
    cbn [app]. replace (is_minus d) with false.
    + exact Hr.
    + symmetry. unfold is_minus, char_eqb, is_digit in *.
      apply andb_true_iff in Hd as [H1 H2].
      apply Z.leb_le in H1. apply Z.leb_le in H2.
      apply Z.eqb_neq. cbn. lia.
Qed.

Lemma lazy_run_skip (k : jsstring -> captures -> option captures)
      (caps r : captures) (p t : jsstring) :
  forallb is_any p = true ->
  (forall p1 y p2, p = p1 ++ y :: p2 -> k (y :: p2 ++ t) caps = None) ->
  k t caps = Some r ->
  lazy_run k is_any (p ++ t) caps = Some r.
Proof.
  revert t. induction p as [|y p IH]; intros t Hany Hfail Hk.
  - cbn [app]. destruct t; cbn [lazy_run]; rewrite Hk; reflexivity.
  - cbn [forallb] in Hany. apply andb_true_iff in Hany as [Hy Hany].
    cbn [app lazy_run]. rewrite (Hfail [] y p eq_refl), Hy.
    apply IH; [exact Hany| |exact Hk].
    intros p1 z p2 ->. apply (Hfail (y :: p1) z p2). reflexivity.
Qed.

(** The match of the whole pattern: the text before the last number, and
    the number with its sign. *)
Lemma last_number_match (before : jsstring) (minus : bool)
      (ip frac tail : jsstring) :
  forallb is_any before = true ->
  (minus = false -> forallb not_number_char (slice_last before) = true) ->
  ip <> [] -> forallb is_digit ip = true -> is_fraction frac = true ->
  existsb is_digit tail = false ->
  exists m,
    exec re_last_number (before ++ minus_sign minus ++ ip ++ frac ++ tail)
    = Some m /\
    group m 1 = before /\ group m 2 = minus_sign minus ++ ip ++ frac.
Proof.
  intros Hany Hlast Hne Hip Hfrac Htail.
  set (t := minus_sign minus ++ ip ++ frac ++ tail).
  set (s := before ++ t).
  set (k := fun (s' : jsstring) (caps' : captures) =>
              match_pattern (PSeq (PGroup 2 pat_number) (PNotAhead pat_ahead)) s'
                (capture 1 (firstn (List.length s - List.length s') s) caps')
                (fun _ caps'' => Some caps'')).
  destruct (after_prefix_match minus ip frac tail
              (capture 1 (firstn (List.length s - List.length t) s) no_capture)
              Hne Hip Hfrac Htail) as [r [Hr [Hr1 Hr2]]].
  assert (Hmatch : match_pattern re_last_number s no_capture
                                 (fun _ caps => Some caps) = Some r).
  { change (match_pattern re_last_number s no_capture (fun _ caps => Some caps))
      with (lazy_run k is_any s no_capture).
    unfold s. apply lazy_run_skip; [exact Hany| |exact Hr].
    intros p1 y p2 Hp. unfold k.
    assert (Hip0 : exists d ip', ip = d :: ip' /\ is_digit d = true).
    { destruct ip as [|d ip']; [congruence|]. cbn [forallb] in Hip.
      apply andb_true_iff in Hip as [Hd _]. eauto. }
    destruct Hip0 as [d [ip' [Eip Hd]]].
    assert (Hy2 : forallb is_any (y :: p2) = true).
    { rewrite Hp in Hany. apply (forallb_app_r _ _ _ Hany). }
    destruct minus.
    - (* the sign stops a number that starts before it *)
      unfold t. cbn [minus_sign]. 
      replace (y :: p2 ++ [chr "-"] ++ ip ++ frac ++ tail)
        with ((y :: p2) ++ chr "-" :: (ip ++ frac ++ tail)) by reflexivity.
      apply blocked.
      + rewrite forallb_app, Hy2. reflexivity.
      + reflexivity.
      + discriminate.
      + rewrite Eip. apply digit_ahead_digit. exact Hd.
    - (* the last character before the number stops it *)
      unfold t. cbn [minus_sign app].
      assert (Hx : exists a x, y :: p2 = a ++ [x] /\ slice_last before = [x]).
      { destruct (exists_last (l := y :: p2) ltac:(discriminate)) as [a [x E]].
        exists a, x. split; [exact E|].
        rewrite Hp. change (y :: p2) with ([y] ++ p2) in E.
        rewrite slice_last_app by discriminate.
        change (y :: p2) with ([y] ++ p2). rewrite E.
        apply slice_last_snoc. }
      destruct Hx as [a [x [E Ex]]].
      specialize (Hlast eq_refl). rewrite Ex in Hlast.
      cbn [forallb] in Hlast. rewrite andb_true_r in Hlast.
      unfold not_number_char in Hlast. apply negb_true_iff in Hlast.
      apply orb_false_iff in Hlast as [Hx1 Hx2].
      replace (y :: p2 ++ ip ++ frac ++ tail)
        with (a ++ x :: (ip ++ frac ++ tail)).
      2:{ change (y :: p2 ++ ip ++ frac ++ tail)
            with ((y :: p2) ++ ip ++ frac ++ tail).
          rewrite E, <- app_assoc. reflexivity. }
      apply blocked.
      + rewrite <- E. exact Hy2.
      + exact Hx1.
      + intros _. exact Hx2.
      + rewrite Eip. apply digit_ahead_digit. exact Hd. }
  exists r. split.
  - destruct s; cbn [exec]; rewrite Hmatch; reflexivity.
  - unfold group. rewrite Hr1, Hr2. split; [|reflexivity].
    unfold capture. cbn [Nat.eqb]. unfold s.
    apply firstn_app_length.
Qed.

(** ** An expression without a digit *)

Lemma pat_number_no_digit (k : jsstring -> captures -> option captures)
      (s : jsstring) (caps : captures) :
  existsb is_digit s = false -> match_pattern pat_number s caps k = None.
Proof.
  intros H.
  assert (Hd : forall t, existsb is_digit t = false ->
                         match_pattern pat_digits t caps k = None).
  { intros t Ht. unfold pat_digits. cbn [match_pattern].
    destruct t as [|c t]; [reflexivity|].
    cbn [existsb] in Ht. apply orb_false_iff in Ht as [-> _]. reflexivity. }
  unfold pat_number.
  change (match_pattern (PSeq (POpt (PChr is_minus)) pat_digits) s caps k)
    with (match match s with
                | c :: s' =>
                    if is_minus c then match_pattern pat_digits s' caps k
                    else None
                | [] => None
                end with
          | Some r => Some r
          | None => match_pattern pat_digits s caps k
          end).
  rewrite (Hd s H). destruct s as [|c s']; [reflexivity|].
  cbn [existsb] in H. apply orb_false_iff in H as [_ H].
  rewrite (Hd s' H). destruct (is_minus c); reflexivity.
Qed.

Lemma lazy_run_none (k : jsstring -> captures -> option captures)
      (caps : captures) (s : jsstring) :
  (forall u w, s = u ++ w -> k w caps = None) ->
  lazy_run k is_any s caps = None.
Proof.
  induction s as [|c s IH]; intros H.
  - cbn. rewrite (H [] [] eq_refl). reflexivity.
  - cbn [lazy_run]. rewrite (H [] (c :: s) eq_refl).
    destruct (is_any c); [|reflexivity].
    apply IH. intros u w ->. apply (H (c :: u) w). reflexivity.
Qed.

Lemma existsb_app_r {A} (f : A -> bool) (u w : list A) :
  existsb f (u ++ w) = false -> existsb f w = false.
Proof. rewrite existsb_app. intros H. apply orb_false_iff in H. tauto. Qed.

Lemma last_number_no_digit (s : jsstring) :
  existsb is_digit s = false -> exec re_last_number s = None.
Proof.
  assert (Hm : forall t, existsb is_digit t = false ->
             match_pattern re_last_number t no_capture
                           (fun _ caps => Some caps) = None).
  { intros t Ht. unfold re_last_number. cbn [match_pattern].
    apply lazy_run_none. intros u w ->.
    apply pat_number_no_digit. apply (existsb_app_r _ _ _ Ht). }
  induction s as [|c s IH]; intros H.
  - cbn [exec]. rewrite (Hm [] H). reflexivity.
  - cbn [exec]. rewrite (Hm _ H). apply IH.
    cbn [existsb] in H. apply orb_false_iff in H. tauto.
Qed.

(** ** The expression after [toggleSign] *)

Lemma toggleSign_number (c : calculator) (before : jsstring) (minus : bool)
      (ip frac tail : jsstring) :
  expression c = before ++ minus_sign minus ++ ip ++ frac ++ tail ->
  forallb is_any before = true ->
  (minus = false -> forallb not_number_char (slice_last before) = true) ->
  ip <> [] -> forallb is_digit ip = true -> is_fraction frac = true ->
  existsb is_digit tail = false ->
  expression (toggleSign c)
  = firstn MAX_EXPR_LEN (before ++ minus_sign (negb minus) ++ ip ++ frac).
Proof.
  intros He Hany Hlast Hne Hip Hfrac Htail.
  destruct (last_number_match before minus ip frac tail
              Hany Hlast Hne Hip Hfrac Htail) as [m [Hm [H1 H2]]].
  unfold toggleSign. rewrite He, Hm, H1, H2.
  destruct (setExpression_expression
              (before ++
               match minus_sign minus ++ ip ++ frac with
               | ch :: rest =>
                   if is_minus ch then rest
                   else chr "-" :: minus_sign minus ++ ip ++ frac
               | [] => chr "-" :: minus_sign minus ++ ip ++ frac
               end) c) as [-> _].
  f_equal. f_equal. destruct minus; cbn [minus_sign negb app].
  - reflexivity.
  - destruct ip as [|d ip]; [congruence|].
    cbn [forallb] in Hip. apply andb_true_iff in Hip as [Hd _].
    cbn [app]. replace (is_minus d) with false; [reflexivity|].
    symmetry. unfold is_minus, char_eqb, is_digit in *.
    apply andb_true_iff in Hd as [Ha Hb].
    apply Z.leb_le in Ha. apply Z.leb_le in Hb.
    apply Z.eqb_neq. cbn. lia.
Qed.

Lemma minus_sign_length (minus : bool) : (List.length (minus_sign minus) <= 1)%nat.
Proof. destruct minus; cbn; lia. Qed.

(** X13. [toggleSign] changes the sign of the last number of the
    expression and drops what follows that number.  The expression is read
    as the text [before], the number (a minus sign or none, digits, and a
    point with digits or nothing) and a rest [tail] without a digit; when
    the number has no minus sign, [before] is empty or ends with a
    character that is neither a digit, a point nor a minus sign.  The new
    expression is [before], then the number without its minus sign if it
    had one and with a minus sign if it had none, cut at [MAX_EXPR_LEN]
    characters.  The minus sign taken away may be a subtraction: [3-5]
    becomes [35]. *)
Theorem toggleSign_last_number (c : calculator) (before : jsstring)
        (minus : bool) (ip frac tail : jsstring) :
  expression c = before ++ minus_sign minus ++ ip ++ frac ++ tail ->
  forallb is_any before = true ->
  (minus = false -> forallb not_number_char (slice_last before) = true) ->
  ip <> [] -> forallb is_digit ip = true -> is_fraction frac = true ->
  existsb is_digit tail = false ->
  expression (toggleSign c)
  = firstn MAX_EXPR_LEN (before ++ minus_sign (negb minus) ++ ip ++ frac).
Proof. exact (toggleSign_number c before minus ip frac tail). Qed.

Lemma toggleSign_last_number_witness :
  expression (toggleSign
                (setExpression (str "2*(3-5.25)")
                               (Build_calculator [] zero [] [] false [])))
  = str "2*(35.25".
Proof.
  apply (toggleSign_last_number
           (setExpression (str "2*(3-5.25)")
                          (Build_calculator [] zero [] [] false []))
           (str "2*(3") true (str "5") (str ".25") (str ")"));
    try (vm_compute; reflexivity); discriminate.
Defined.

(** X14. Without a digit in the expression there is no number to change:
    [toggleSign] leaves the state as it is, but for the empty expression,
    which becomes [-]. *)
Theorem toggleSign_without_number (c : calculator) :
  existsb is_digit (expression c) = false ->
  (expression c <> [] -> toggleSign c = c) /\
  (expression c = [] -> expression (toggleSign c) = str "-").
Proof.
  intros H. unfold toggleSign. rewrite (last_number_no_digit _ H). split.
  - intros Hne. destruct (expression c); [congruence|reflexivity].
  - intros ->. cbn [is_empty].
    destruct (setExpression_expression (str "-") c) as [-> _]. reflexivity.
Qed.

Lemma toggleSign_without_number_witness :
  toggleSign (setExpression (str "(-")
                            (Build_calculator [] zero [] [] false []))
  = setExpression (str "(-") (Build_calculator [] zero [] [] false []).
Proof.
  apply (toggleSign_without_number
           (setExpression (str "(-")
                          (Build_calculator [] zero [] [] false []))).
  - vm_compute; reflexivity.
  - vm_compute; discriminate.
Defined.

(** X15. [toggleSign] twice gives the expression back up to its last
    number: where the text before the number is empty or ends with a
    character that is neither a digit, a point nor a minus sign, and the
    expression without the rest after the number has less than
    [MAX_EXPR_LEN] characters, the second [toggleSign] restores the sign
    of the number; the rest after the number is not restored. *)
Theorem toggleSign_twice (c : calculator) (before : jsstring)
        (minus : bool) (ip frac tail : jsstring) :
  expression c = before ++ minus_sign minus ++ ip ++ frac ++ tail ->
  forallb is_any before = true ->
  forallb not_number_char (slice_last before) = true ->
  ip <> [] -> forallb is_digit ip = true -> is_fraction frac = true ->
  existsb is_digit tail = false ->
  (List.length (before ++ ip ++ frac) < MAX_EXPR_LEN)%nat ->
  expression (toggleSign (toggleSign c))
  = before ++ minus_sign minus ++ ip ++ frac.
Proof.
  intros He Hany Hlast Hne Hip Hfrac Htail Hlen.
  assert (Hcut : forall m,
            firstn MAX_EXPR_LEN (before ++ minus_sign m ++ ip ++ frac)
            = before ++ minus_sign m ++ ip ++ frac).
  { intros m. apply firstn_all2. pose proof (minus_sign_length m).
    rewrite !length_app in *. lia. }
  pose proof (toggleSign_number c before minus ip frac tail He Hany
                (fun _ => Hlast) Hne Hip Hfrac Htail) as H1.
  rewrite Hcut in H1.
  rewrite (toggleSign_number (toggleSign c) before (negb minus) ip frac []).
  - rewrite negb_involutive. apply Hcut.
  - rewrite H1, app_nil_r. reflexivity.
  - exact Hany.
  - intros _. exact Hlast.
  - exact Hne.
  - exact Hip.
  - exact Hfrac.
  - reflexivity.
Qed.

Lemma toggleSign_twice_witness :
  expression (toggleSign (toggleSign
                (setExpression (str "2*(5.25)")
                               (Build_calculator [] zero [] [] false []))))
  = str "2*(5.25".
Proof.
  apply (toggleSign_twice
           (setExpression (str "2*(5.25)")
                          (Build_calculator [] zero [] [] false []))
           (str "2*(") false (str "5") (str ".25") (str ")"));
    try (vm_compute; reflexivity); try discriminate.
  vm_compute. lia.
Defined.

(** * The keyboard *)

Lemma test_digit_exists (s : jsstring) : test re_digit s = existsb is_digit s.
Proof.
  induction s as [|c s IH]; [reflexivity|].
  cbn [existsb]. rewrite <- IH.
  change (test re_digit (c :: s))
    with (match match_here re_digit (c :: s) with
          | Some _ => true
          | None => test re_digit s
          end).
  unfold re_digit. cbn [match_here]. 
  destruct (is_digit c) eqn:E; cbn; rewrite ?E; reflexivity.
Qed.

Lemma digit_key_differs (key name : jsstring) :
  existsb is_digit key = true -> existsb is_digit name = false ->
  string_eqb key name = false.
Proof.
  intros Hk Hn. destruct (string_eqb key name) eqn:E; [|reflexivity].
  apply string_eqb_eq in E. subst name. congruence.
Qed.

Lemma digit_key_not_operator (key : jsstring) :
  existsb is_digit key = true -> isOperator_string key = false.
Proof.
  intros H. destruct key as [|c [|? ?]]; try reflexivity.
  cbn [existsb] in H. rewrite orb_false_r in H.
  apply digit_not_operator. exact H.
Qed.

Lemma appendValue_digits (key : jsstring) (c : calculator) :
  existsb is_digit key = true ->
  (List.length (expression c) < MAX_EXPR_LEN)%nat ->
  appendValue key c
  = setExpression
      (expression c
       ++ (if string_eqb (slice_last (expression c)) (str ")")
           then str "*" else [])
       ++ key) c.
Proof.
  intros Hk Hlen. unfold appendValue.
  destruct key as [|k0 key'] eqn:Ek; [discriminate|]. cbn [is_empty].
  rewrite <- Ek in *. clear Ek k0 key'.
  replace (MAX_EXPR_LEN <=? List.length (expression c))%nat with false
    by (symmetry; apply Nat.leb_gt; exact Hlen).
  rewrite (digit_key_not_operator key Hk). cbn [andb].
  rewrite (digit_key_differs key (str ".") Hk eq_refl). cbn [andb].
  rewrite (digit_key_differs key (str "(") Hk eq_refl).
  rewrite test_digit_exists, Hk.
  destruct (string_eqb (slice_last (expression c)) (str ")")); reflexivity.
Qed.

(** X16. A key whose name holds a digit is typed into the expression with
    its whole name: the listener of [keydown] tests the name with [/\d/],
    which also holds of the function keys, so that [F5] puts the two
    characters [F5] after the expression (and a [*] before them after a
    closing parenthesis), as long as the expression has less than
    [MAX_EXPR_LEN] characters. *)
Theorem key_name_with_digit (key : jsstring) (history : option jsstring)
        (c : calculator) :
  existsb is_digit key = true ->
  (List.length (expression c) < MAX_EXPR_LEN)%nat ->
  expression (keydown key history c)
  = firstn MAX_EXPR_LEN
      (expression c
       ++ (if string_eqb (slice_last (expression c)) (str ")")
           then str "*" else [])
       ++ key).
Proof.
  intros Hk Hlen. unfold keydown.
  rewrite (digit_key_differs key (str "Escape") Hk eq_refl).
  rewrite (digit_key_differs key (str "Backspace") Hk eq_refl).
  rewrite (digit_key_differs key (str "Enter") Hk eq_refl).
  rewrite (digit_key_differs key (str "=") Hk eq_refl).
  rewrite (digit_key_differs key (str "(") Hk eq_refl).
  rewrite (digit_key_differs key (str ")") Hk eq_refl).
  rewrite (digit_key_differs key (str ".") Hk eq_refl). cbn [orb].
  rewrite test_digit_exists, Hk.
  rewrite (appendValue_digits key c Hk Hlen).
  apply setExpression_expression.
Qed.

Lemma key_name_with_digit_witness :
  expression (keydown (str "F5") None
                (setExpression (str "(1+2)")
                               (Build_calculator [] zero [] [] false [])))
  = str "(1+2)*F5".
Proof.
  apply (key_name_with_digit (str "F5") None
           (setExpression (str "(1+2)")
                          (Build_calculator [] zero [] [] false []))).
  - vm_compute; reflexivity.
  - vm_compute; lia.
Defined.
